(** * Resume matcher: section segmenter, contact extractor and keyword scorer

    A shallow embedding of [src/tools/parser.py] (class [ResumeParserTool])
    and of [calculate_match_score] in [src/agents/resume_tailor.py], with
    the properties the specification states about them.

    Conventions of the embedding.
    - A Python [str] is a list of Unicode code points ([text]).  The case,
      digit and white-space classes, the case mappings and the classes of
      the regular expressions are Python's on the Basic Latin block (code
      points below 128); a code point beyond it is carried along as an
      uncased, non-blank symbol, which is what the bullet glyphs of the
      parser are in Python too.  What is stated of a function that reads
      these classes is therefore stated of text made of Basic Latin
      characters and bullet glyphs ([Latin.text_ok], called Basic Latin
      text below); Python's treatment of other scripts is not part of the
      embedding.
    - Python exceptions are explicit: a function that indexes a list or
      divides returns a [result].
    - A Python [float] is an IEEE 754 binary64 number ([spec_float]).
    - The regular expressions of the parser are values of a small syntax
      ([regex]) run by a backtracking matcher with Python's priorities
      (leftmost alternative first, greedy repetition). *)

From Stdlib Require Import ZArith NArith Bool Lia Ascii String.
From Stdlib Require Import Floats.SpecFloat.
From stdpp Require Import base option list strings gmap.

Local Open Scope N_scope.

(** ** Characters and strings *)

Definition char := N.
Definition text := list char.

(** A literal written in the development: the code points of an ASCII
    string. *)
Definition txt (s : string) : text :=
  List.map N_of_ascii (list_ascii_of_string s).

(** One ASCII character as a code point. *)
Definition ch (a : ascii) : char := N_of_ascii a.

Module Chr.
Definition newline : char := 10.
Definition colon : char := 58.
Definition at_sign : char := 64.
Definition underscore : char := 95.

(** [str.isspace] on one character of the Basic Latin block; so are the
    other classes and the two case mappings below. *)
Definition isspace (c : char) : bool :=
  ((9 <=? c) && (c <=? 13)) || ((28 <=? c) && (c <=? 32)).
Definition isupper (c : char) : bool := (65 <=? c) && (c <=? 90).
Definition islower (c : char) : bool := (97 <=? c) && (c <=? 122).
Definition iscased (c : char) : bool := isupper c || islower c.
Definition isdigit (c : char) : bool := (48 <=? c) && (c <=? 57).
Definition isword (c : char) : bool :=
  iscased c || isdigit c || (c =? underscore).
Definition lower (c : char) : char := if isupper c then c + 32 else c.
Definition upper (c : char) : char := if islower c then c - 32 else c.
End Chr.

Module Str.
(** [s.lower()], [s.upper()] *)
Definition lower (s : text) : text := List.map Chr.lower s.
Definition upper (s : text) : text := List.map Chr.upper s.

(** [s.lstrip(chars)], [s.rstrip(chars)] for a set of characters given
    as a predicate. *)
Fixpoint lstrip_with (p : char -> bool) (s : text) : text :=
  match s with
  | [] => []
  | c :: t => if p c then lstrip_with p t else s
  end.

Fixpoint rstrip_with (p : char -> bool) (s : text) : text :=
  match s with
  | [] => []
  | c :: t =>
      match rstrip_with p t with
      | [] => if p c then [] else [c]
      | t' => c :: t'
      end
  end.

(** [s.strip()] *)
Definition strip (s : text) : text :=
  rstrip_with Chr.isspace (lstrip_with Chr.isspace s).

(** [s.rstrip(":")] *)
Definition rstrip_colon (s : text) : text :=
  rstrip_with (N.eqb Chr.colon) s.

(** [s.isupper()]: at least one cased character and no lower-case one. *)
Definition isupper (s : text) : bool :=
  existsb Chr.iscased s && forallb (fun c => negb (Chr.islower c)) s.

(** [s.istitle()], the loop of the interpreter: [prev] is
    "previous character is cased", [cased] is "a cased character was
    seen". *)
Fixpoint istitle_from (prev cased : bool) (s : text) : bool :=
  match s with
  | [] => cased
  | c :: t =>
      if Chr.isupper c then
        if prev then false else istitle_from true true t
      else if Chr.islower c then
        if prev then istitle_from true true t else false
      else istitle_from false cased t
  end.
Definition istitle (s : text) : bool := istitle_from false false s.

(** [s.title()] *)
Fixpoint title_from (prev : bool) (s : text) : text :=
  match s with
  | [] => []
  | c :: t =>
      (if prev then Chr.lower c else Chr.upper c)
        :: title_from (Chr.iscased c) t
  end.
Definition title (s : text) : text := title_from false s.

(** [s.split(sep)] for a one-character separator: never empty. *)
Fixpoint split (sep : char) (s : text) : list text :=
  match s with
  | [] => [[]]
  | c :: t =>
      if c =? sep then [] :: split sep t
      else match split sep t with
           | l :: ls => (c :: l) :: ls
           | [] => [[c]]
           end
  end.

(** [sep.join(parts)] for a one-character separator. *)
Fixpoint join (sep : char) (parts : list text) : text :=
  match parts with
  | [] => []
  | [p] => p
  | p :: ps => p ++ sep :: join sep ps
  end.

(** [s.split()]: the maximal runs of non-blank characters. *)
Fixpoint words_from (cur : text) (s : text) : list text :=
  match s with
  | [] => match cur with [] => [] | _ => [cur] end
  | c :: t =>
      if Chr.isspace c
      then match cur with [] => words_from [] t | _ => cur :: words_from [] t end
      else words_from (cur ++ [c]) t
  end.
Definition words (s : text) : list text := words_from [] s.

(** [s.startswith(p)] *)
Fixpoint startswith (p s : text) : bool :=
  match p, s with
  | [], _ => true
  | _ :: _, [] => false
  | a :: p', b :: s' => (a =? b) && startswith p' s'
  end.

(** [needle in hay] *)
Fixpoint contains (needle hay : text) : bool :=
  startswith needle hay ||
  match hay with
  | [] => false
  | _ :: t => contains needle t
  end.

(** Truth value of a string: non-empty. *)
Definition truthy (s : text) : bool :=
  match s with [] => false | _ => true end.

(** Does the string start with a character satisfying [p]? *)
Definition starts_with (p : char -> bool) (s : text) : bool :=
  match s with c :: _ => p c | [] => false end.

End Str.

(** ** Exceptions *)

Inductive pyexc := IndexError | ZeroDivisionError.

Inductive result (A : Type) :=
| Ok (a : A)
| Raise (e : pyexc).
Arguments Ok {A} a.
Arguments Raise {A} e.

Definition bind {A B} (m : result A) (f : A -> result B) : result B :=
  match m with
  | Ok a => f a
  | Raise e => Raise e
  end.

Notation "'let!' x ':=' m 'in' k" := (bind m (fun x => k))
  (at level 10, x name, m at level 100, k at level 200).

(** [l[0]] *)
Definition getitem0 {A} (l : list A) : result A :=
  match l with
  | x :: _ => Ok x
  | [] => Raise IndexError
  end.

(** ** Regular expressions (the fragment of [re] the parser uses) *)

Module Re.
(** An item of a bracket expression. *)
Inductive citem :=
| IChr (c : char)
| IRng (lo hi : char)
| ISpace
| IDigit
| IWord.

(** A pattern element that consumes exactly one character. *)
Inductive atom :=
| ALit (c : char)
| ADot
| ASpace
| ADigit
| AWord
| ASet (negated : bool) (items : list citem).

Inductive regex :=
| Eps
| Atom (a : atom)
| Seq (r1 r2 : regex)
| Alt (r1 r2 : regex)
| Opt (r : regex)                         (* r?  *)
| Rep (a : atom) (lo : nat) (hi : option nat)  (* a{lo,hi}, a*, a+ *)
| Grp (r : regex)                         (* ( r ), the only group *)
| Bol                                     (* ^ *)
| Eol                                     (* $ *)
| WordB.                                  (* \b *)

Definition citem_mem (it : citem) (c : char) : bool :=
  match it with
  | IChr x => c =? x
  | IRng lo hi => (lo <=? c) && (c <=? hi)
  | ISpace => Chr.isspace c
  | IDigit => Chr.isdigit c
  | IWord => Chr.isword c
  end.

(** Does the atom accept [c]?  [ic] is the IGNORECASE flag. *)
Definition atom_ok (ic : bool) (a : atom) (c : char) : bool :=
  match a with
  | ALit x => if ic then Chr.lower c =? Chr.lower x else c =? x
  | ADot => negb (c =? Chr.newline)
  | ASpace => Chr.isspace c
  | ADigit => Chr.isdigit c
  | AWord => Chr.isword c
  | ASet negated items =>
      xorb negated
        (existsb (fun it =>
                    citem_mem it c
                    || (ic && (citem_mem it (Chr.lower c)
                               || citem_mem it (Chr.upper c))))
                 items)
  end.

(** The matcher's position: the character before it ([None] at the
    start of the string), what is left to read, and the text of the
    group once it has closed. *)
Record mstate := MState {
  before : option char;
  rest : text;
  group1 : option text
}.

Definition hi_open (hi : option nat) : bool :=
  match hi with Some O => false | _ => true end.
Definition hi_pred (hi : option nat) : option nat :=
  match hi with Some n => Some (Nat.pred n) | None => None end.

(** Greedy repetition of an atom: take one more character if allowed,
    and fall back to stopping here when the rest of the pattern fails. *)
Fixpoint rep_match (ic : bool) (a : atom) (lo : nat) (hi : option nat)
    (prev : option char) (s : text) (g : option text)
    (k : mstate -> option mstate) {struct s} : option mstate :=
  let stop :=
    match lo with
    | O => k (MState prev s g)
    | S _ => None
    end in
  match s with
  | c :: t =>
      if atom_ok ic a c && hi_open hi then
        match rep_match ic a (Nat.pred lo) (hi_pred hi) (Some c) t g k with
        | Some r => Some r
        | None => stop
        end
      else stop
  | [] => stop
  end.

Definition isword_opt (o : option char) : bool :=
  match o with Some c => Chr.isword c | None => false end.

(** Backtracking matcher in continuation-passing style: [k] is the rest
    of the pattern. *)
Fixpoint rmatch (ic : bool) (r : regex) (st : mstate)
    (k : mstate -> option mstate) {struct r} : option mstate :=
  match r with
  | Eps => k st
  | Atom a =>
      match rest st with
      | c :: t =>
          if atom_ok ic a c then k (MState (Some c) t (group1 st)) else None
      | [] => None
      end
  | Seq r1 r2 => rmatch ic r1 st (fun st' => rmatch ic r2 st' k)
  | Alt r1 r2 =>
      match rmatch ic r1 st k with
      | Some x => Some x
      | None => rmatch ic r2 st k
      end
  | Opt r1 =>
      match rmatch ic r1 st k with
      | Some x => Some x
      | None => k st
      end
  | Rep a lo hi => rep_match ic a lo hi (before st) (rest st) (group1 st) k
  | Grp r1 =>
      rmatch ic r1 st (fun st' =>
        k (MState (before st') (rest st')
             (Some (take (length (rest st) - length (rest st')) (rest st)))))
  | Bol => match before st with None => k st | Some _ => None end
  | Eol =>
      match rest st with
      | [] => k st
      | [c] => if c =? Chr.newline then k st else None
      | _ => None
      end
  | WordB =>
      if xorb (isword_opt (before st)) (isword_opt (head (rest st)))
      then k st else None
  end.

(** A match object: [group(0)] and [group(1)]. *)
Record mobj := MObj { whole : text; grp : option text }.

(** Match at the current position of a string whose previous character
    is [prev]. *)
Definition match_at (ic : bool) (r : regex) (prev : option char) (s : text)
    : option mobj :=
  match rmatch ic r (MState prev s None) Some with
  | Some st => Some (MObj (take (length s - length (rest st)) s) (group1 st))
  | None => None
  end.

(** [re.match(r, s)] *)
Definition match_ (ic : bool) (r : regex) (s : text) : option mobj :=
  match_at ic r None s.

(** [re.search(r, s)]: the leftmost position with a match. *)
Fixpoint search_from (ic : bool) (r : regex) (prev : option char) (s : text)
    : option mobj :=
  match match_at ic r prev s with
  | Some m => Some m
  | None =>
      match s with
      | [] => None
      | c :: t => search_from ic r (Some c) t
      end
  end.
Definition search (ic : bool) (r : regex) (s : text) : option mobj :=
  search_from ic r None s.

Fixpoint ngroups (r : regex) : nat :=
  match r with
  | Seq r1 r2 | Alt r1 r2 => ngroups r1 + ngroups r2
  | Opt r1 => ngroups r1
  | Grp r1 => S (ngroups r1)
  | _ => O
  end.

(** What [findall] reports for one match: the whole match for a pattern
    without group, the group's text (empty when the group took no part)
    for a pattern with one. *)
Definition findall_item (r : regex) (m : mobj) : text :=
  match ngroups r with
  | O => whole m
  | S _ => match grp m with Some g => g | None => [] end
  end.

(** [re.findall(r, s)]: non-overlapping matches, left to right; [skip]
    is the number of characters still covered by the previous match. *)
Fixpoint findall_from (ic : bool) (r : regex) (prev : option char)
    (s : text) (skip : nat) {struct s} : list text :=
  match skip with
  | S n =>
      match s with
      | c :: t => findall_from ic r (Some c) t n
      | [] => []
      end
  | O =>
      match match_at ic r prev s with
      | Some m =>
          findall_item r m ::
            match s with
            | c :: t =>
                findall_from ic r (Some c) t (Nat.pred (length (whole m)))
            | [] => []
            end
      | None =>
          match s with
          | c :: t => findall_from ic r (Some c) t O
          | [] => []
          end
      end
  end.
Definition findall (ic : bool) (r : regex) (s : text) : list text :=
  findall_from ic r None s O.

(** Pattern builders. *)
Definition lits (s : string) : regex :=
  fold_right (fun c r => Seq (Atom (ALit c)) r) Eps (txt s).
Definition star (a : atom) : regex := Rep a 0 None.
Definition plus (a : atom) : regex := Rep a 1 None.
Definition opt_atom (a : atom) : regex := Rep a 0 (Some 1%nat).
Fixpoint seqs (rs : list regex) : regex :=
  match rs with
  | [] => Eps
  | [r] => r
  | r :: rs' => Seq r (seqs rs')
  end.
Fixpoint alts (r : regex) (rs : list regex) : regex :=
  match rs with
  | [] => r
  | r' :: rs' => Alt r (alts r' rs')
  end.
(** Words separated by [\s+]. *)
Fixpoint phrase (w : string) (ws : list string) : regex :=
  match ws with
  | [] => lits w
  | w' :: ws' => Seq (lits w) (Seq (plus ASpace) (phrase w' ws'))
  end.
End Re.

(** ** Data model *)

(** Modelled from the spec: the classes [ResumeSection] and [ParsedResume]
    of [src/models/resume_data.py] (a name, the raw content string and the
    derived bullet list; the raw text, the ordered sections and the contact
    mapping).  The constructors store their arguments unchanged. *)
Record ResumeSection := mkResumeSection {
  section_name : text;
  content : text;
  bullet_points : list text
}.

Record ParsedResume := mkParsedResume {
  raw_text : text;
  sections : list ResumeSection;
  contact_info : gmap string text
}.

(** Modelled from the spec: the class [JobAnalysis] of
    [src/models/job_analysis.py], the record of a job posting's extracted
    attributes. *)
Record JobAnalysis := mkJobAnalysis {
  hard_skills : list text;
  soft_skills : list text;
  qualifications : list text;
  experience_required : text;
  key_responsibilities : list text;
  keywords : list text;
  culture_keywords : list text;
  nice_to_have : list text;
  action_verbs : list text;
  company_name : option text;
  job_title : option text;
  location : option text
}.

(** Truth value of a list. *)
Definition list_truthy {A} (l : list A) : bool :=
  match l with [] => false | _ => true end.

(** Truth value of an [Optional[str]]: neither [None] nor empty. *)
Definition name_truthy (o : option text) : bool :=
  match o with Some s => Str.truthy s | None => false end.

Definition is_some {A} (o : option A) : bool :=
  match o with Some _ => true | None => false end.

(** ** [ResumeParserTool] *)

Module ResumeParserTool.
Import Re.
Local Open Scope char_scope.
Local Open Scope string_scope.

Definition SECTION_PATTERNS : list regex := [
  Seq Bol (Grp (alts (phrase "PROFESSIONAL" ["SUMMARY"])
                  [lits "SUMMARY"; lits "PROFILE"; lits "OBJECTIVE"]));
  Seq Bol (Grp (alts (phrase "WORK" ["EXPERIENCE"])
                  [lits "EXPERIENCE"; phrase "EMPLOYMENT" ["HISTORY"];
                   phrase "PROFESSIONAL" ["EXPERIENCE"]]));
  Seq Bol (Grp (alts (lits "EDUCATION")
                  [phrase "ACADEMIC" ["BACKGROUND"];
                   phrase "ACADEMIC" ["QUALIFICATIONS"]]));
  Seq Bol (Grp (alts (lits "SKILLS")
                  [phrase "TECHNICAL" ["SKILLS"];
                   phrase "CORE" ["COMPETENCIES"]; lits "EXPERTISE"]));
  Seq Bol (Grp (alts (lits "CERTIFICATIONS")
                  [lits "CERTIFICATES";
                   phrase "PROFESSIONAL" ["CERTIFICATIONS"]]));
  Seq Bol (Grp (alts (lits "PROJECTS")
                  [phrase "KEY" ["PROJECTS"]; phrase "NOTABLE" ["PROJECTS"]]));
  Seq Bol (Grp (alts (lits "AWARDS")
                  [lits "HONORS"; lits "ACHIEVEMENTS"; lits "ACCOMPLISHMENTS"]));
  Seq Bol (Grp (alts (lits "PUBLICATIONS") [lits "RESEARCH"; lits "PAPERS"]));
  Seq Bol (Grp (alts (lits "VOLUNTEER")
                  [phrase "VOLUNTEER" ["EXPERIENCE"];
                   phrase "COMMUNITY" ["SERVICE"]]));
  Seq Bol (Grp (alts (lits "LANGUAGES") [phrase "LANGUAGE" ["SKILLS"]]));
  Seq Bol (Grp (alts (lits "INTERESTS") [lits "HOBBIES"]));
  Seq Bol (Grp (lits "REFERENCES"))
].

(** [[-.\s]] *)
Definition sep_class : atom := ASet false [IChr (ch "-"); IChr (ch "."); ISpace].

(** [\b[A-Za-z0-9._%+-]+@[A-Za-z0-9.-]+\.[A-Z|a-z]{2,}\b] *)
Definition EMAIL_PATTERN : regex :=
  seqs [
    WordB;
    plus (ASet false [IRng (ch "A") (ch "Z"); IRng (ch "a") (ch "z");
                      IRng (ch "0") (ch "9"); IChr (ch "."); IChr (ch "_");
                      IChr (ch "%"); IChr (ch "+"); IChr (ch "-")]);
    Atom (ALit (ch "@"));
    plus (ASet false [IRng (ch "A") (ch "Z"); IRng (ch "a") (ch "z");
                      IRng (ch "0") (ch "9"); IChr (ch "."); IChr (ch "-")]);
    Atom (ALit (ch "."));
    Rep (ASet false [IRng (ch "A") (ch "Z"); IChr (ch "|");
                     IRng (ch "a") (ch "z")]) 2 None;
    WordB
  ].

(** [(\+?\d{1,3}[-.\s]?)?\(?\d{3}\)?[-.\s]?\d{3}[-.\s]?\d{4}] *)
Definition PHONE_PATTERN : regex :=
  seqs [
    Opt (Grp (seqs [opt_atom (ALit (ch "+")); Rep ADigit 1 (Some 3%nat);
                    opt_atom sep_class]));
    opt_atom (ALit (ch "("));
    Rep ADigit 3 (Some 3%nat);
    opt_atom (ALit (ch ")"));
    opt_atom sep_class;
    Rep ADigit 3 (Some 3%nat);
    opt_atom sep_class;
    Rep ADigit 4 (Some 4%nat)
  ].

(** The pattern [https?://] followed by one or more characters that are
    neither blank nor one of eleven excluded punctuation marks; 34 is
    the double quote. *)
Definition URL_PATTERN : regex :=
  seqs [
    lits "http"; opt_atom (ALit (ch "s")); lits "://";
    plus (ASet true [ISpace; IChr (ch "<"); IChr (ch ">"); IChr 34%N;
                     IChr (ch "{"); IChr (ch "}"); IChr (ch "|");
                     IChr (ch "\"); IChr (ch "^"); IChr (ch "`");
                     IChr (ch "["); IChr (ch "]")])
  ].

(** [linkedin\.com/in/[\w-]+] *)
Definition LINKEDIN_PATTERN : regex :=
  Seq (lits "linkedin.com/in/") (plus (ASet false [IWord; IChr (ch "-")])).

(** The three patterns of [_extract_bullet_points]:
    [^\s*[•●■▪▸►→-]\s+(.+)$], [^\s*\*\s+(.+)$], [^\s*\d+\.\s+(.+)$]. *)
Definition bullet_glyphs : atom :=
  ASet false [IChr 8226%N; IChr 9679%N; IChr 9632%N; IChr 9642%N;
              IChr 9656%N; IChr 9658%N; IChr 8594%N; IChr (ch "-")].

Definition bullet_line (marker : regex) : regex :=
  seqs [Bol; star ASpace; marker; plus ASpace; Grp (plus ADot); Eol].

Definition bullet_patterns : list regex := [
  bullet_line (Atom bullet_glyphs);
  bullet_line (Atom (ALit (ch "*")));
  bullet_line (Seq (plus ADigit) (Atom (ALit (ch "."))))
].

(** [match.group(1)]; in every match of a bullet pattern the group has
    taken part. *)
Definition group1_text (m : mobj) : text :=
  match grp m with Some g => g | None => [] end.

(** The inner loop of [_extract_bullet_points]: the first pattern that
    matches the line gives its bullet, then [break]. *)
Fixpoint line_bullets (patterns : list regex) (line : text) : list text :=
  match patterns with
  | [] => []
  | pattern :: ps =>
      match match_ false pattern line with
      | Some m => [Str.strip (group1_text m)]
      | None => line_bullets ps line
      end
  end.

Definition _extract_bullet_points (t : text) : list text :=
  flat_map (line_bullets bullet_patterns) (Str.split Chr.newline t).

Definition _normalize_section_name (header : text) : text :=
  let header := Str.upper (Str.rstrip_colon (Str.strip header)) in
  let has (w : string) := Str.contains (txt w) header in
  if has "SUMMARY" || has "PROFILE" || has "OBJECTIVE" then
    txt "Professional Summary"
  else if has "EXPERIENCE" || has "EMPLOYMENT" then txt "Work Experience"
  else if has "EDUCATION" || has "ACADEMIC" then txt "Education"
  else if has "SKILL" || has "COMPETENC" || has "EXPERTISE" then txt "Skills"
  else if has "CERTIFICATION" || has "CERTIFICATE" then txt "Certifications"
  else if has "PROJECT" then txt "Projects"
  else if has "AWARD" || has "HONOR" || has "ACHIEVEMENT" then
    txt "Awards & Achievements"
  else if has "PUBLICATION" || has "RESEARCH" then txt "Publications"
  else if has "VOLUNTEER" || has "COMMUNITY" then txt "Volunteer Experience"
  else if has "LANGUAGE" then txt "Languages"
  else if has "INTEREST" || has "HOBBIES" then txt "Interests"
  else if has "REFERENCE" then txt "References"
  else Str.title header.

(** Does one of the compiled (IGNORECASE) section patterns match? *)
Definition known_header (line : text) : bool :=
  existsb (fun pattern => is_some (match_ true pattern line)) SECTION_PATTERNS.

(** The fallback heuristic of [_is_section_header]. *)
Definition header_shaped (line : text) : bool :=
  (length line <? 50)%nat && (Str.isupper line || Str.istitle line).

Definition _is_section_header (line : text) : bool * option text :=
  if known_header line then (true, Some (_normalize_section_name line))
  else if header_shaped line then
    let line :=
      if Str.contains [Chr.colon] line then Str.rstrip_colon line else line in
    (true, Some (Str.strip line))
  else (false, None).

Definition _create_section (name : text) (content_lines : list text)
    : ResumeSection :=
  let content := Str.join Chr.newline content_lines in
  mkResumeSection name content (_extract_bullet_points content).

(** The variables of the loop of [_split_into_sections]. *)
Record split_state := mkSplit {
  done_sections : list ResumeSection;
  current_section_name : option text;
  current_content : list text
}.

(** [if current_section_name and current_content: sections.append(...)] *)
Definition flush (st : split_state) : list ResumeSection :=
  match current_section_name st with
  | Some name =>
      if Str.truthy name && list_truthy (current_content st)
      then done_sections st ++ [_create_section name (current_content st)]
      else done_sections st
  | None => done_sections st
  end.

(** One iteration of [for line in lines]. *)
Definition split_step (st : split_state) (line : text) : split_state :=
  let stripped_line := Str.strip line in
  let '(is_header, name) := _is_section_header stripped_line in
  if is_header && name_truthy name then
    mkSplit (flush st) name []
  else if name_truthy (current_section_name st) then
    if Str.truthy stripped_line
    then mkSplit (done_sections st) (current_section_name st)
                 (current_content st ++ [line])
    else st
  else st.

Definition split_loop (lines : list text) : split_state :=
  fold_left split_step lines (mkSplit [] None []).

Definition full_resume (t : text) : ResumeSection :=
  mkResumeSection (txt "Full Resume") t (_extract_bullet_points t).

Definition _split_into_sections (t : text) : list ResumeSection :=
  let sections := flush (split_loop (Str.split Chr.newline t)) in
  if list_truthy sections then sections else [full_resume t].

(** [\d{3}[-.\s]?\d{3}[-.\s]?\d{4}], the phone shape of the name
    heuristic. *)
Definition name_phone_pattern : regex :=
  seqs [Rep ADigit 3 (Some 3%nat); opt_atom sep_class;
        Rep ADigit 3 (Some 3%nat); opt_atom sep_class;
        Rep ADigit 4 (Some 4%nat)].

(** The test the name loop applies to a stripped line. *)
Definition name_candidate (line : text) : bool :=
  Str.truthy line && (length line <? 50)%nat
  && negb (existsb Chr.isdigit line)
  && (Str.istitle line
      || (Str.isupper line && (length (Str.words line) <=? 4)%nat))
  && negb (Str.contains [Chr.at_sign] line)
  && negb (is_some (search false name_phone_pattern line)).

(** [for line in lines: ... contact_info["name"] = line; break] *)
Fixpoint find_name (lines : list text) : option text :=
  match lines with
  | [] => None
  | line :: ls =>
      let line := Str.strip line in
      if name_candidate line then Some line else find_name ls
  end.

(** [re.findall] yields strings for the patterns of this class (none has
    two groups), so [isinstance(phone_matches[0], tuple)] is false and
    the phone is [phone_matches[0]]. *)
Definition _extract_contact_info (t : text) : result (gmap string text) :=
  let contact_info : gmap string text := ∅ in
  let email_matches := findall false EMAIL_PATTERN t in
  let! contact_info :=
    (if list_truthy email_matches then
       let! e := getitem0 email_matches in
       Ok (<["email" := e]> contact_info)
     else Ok contact_info) in
  let phone_matches := findall false PHONE_PATTERN t in
  let! contact_info :=
    (if list_truthy phone_matches then
       let! phone := getitem0 phone_matches in
       Ok (<["phone" := phone]> contact_info)
     else Ok contact_info) in
  let linkedin_matches := findall true LINKEDIN_PATTERN t in
  let! contact_info :=
    (if list_truthy linkedin_matches then
       let! l := getitem0 linkedin_matches in
       Ok (<["linkedin" := (txt "https://" ++ l)%list]> contact_info)
     else Ok contact_info) in
  let url_matches := findall false URL_PATTERN t in
  let! contact_info :=
    (if list_truthy url_matches then
       let other_urls :=
         List.filter
           (fun url => negb (Str.contains (txt "linkedin.com") (Str.lower url)))
           url_matches in
       if list_truthy other_urls then
         let! u := getitem0 other_urls in
         Ok (<["website" := u]> contact_info)
       else Ok contact_info
     else Ok contact_info) in
  let lines := take 5 (Str.split Chr.newline t) in
  Ok (match find_name lines with
      | Some name => <["name" := name]> contact_info
      | None => contact_info
      end).

Definition parse_resume (resume_text : text) : result ParsedResume :=
  let! contact_info := _extract_contact_info resume_text in
  let sections := _split_into_sections resume_text in
  Ok (mkParsedResume resume_text sections contact_info).
End ResumeParserTool.

(** ** Floating point *)

Module Float.
Local Open Scope Z_scope.

Definition prec : Z := 53.
Definition emax : Z := 1024.

Definition float := spec_float.

(** [0.0] *)
Definition zero : float := S754_zero false.

(** [float(n)] for an integer. *)
Definition of_Z (n : Z) : float := binary_normalize prec emax n 0 false.
Definition of_nat (n : nat) : float := of_Z (Z.of_nat n).

Definition mul : float -> float -> float := SFmul prec emax.
Definition div : float -> float -> float := SFdiv prec emax.

(** [a / b] on integers (both below 2^53, as every list length is). *)
Definition truediv (a b : nat) : result float :=
  match b with
  | O => Raise ZeroDivisionError
  | S _ => Ok (div (of_nat a) (of_nat b))
  end.

(** The integer nearest to [n / d] ([d] positive), ties to even. *)
Definition div_half_even (n d : Z) : Z :=
  let q := n / d in
  let r := n mod d in
  match 2 * r ?= d with
  | Lt => q
  | Gt => q + 1
  | Eq => if Z.even q then q else q + 1
  end.

(** The integer nearest to [m * 2^e * scale], ties to even. *)
Definition scaled_half_even (m : positive) (e : Z) (scale : Z) : Z :=
  if 0 <=? e then Z.pos m * 2 ^ e * scale
  else div_half_even (Z.pos m * scale) (2 ^ (- e)).

(** [round(x, ndigits)] for [ndigits >= 0]: the decimal with [ndigits]
    places nearest to the exact value of [x] (ties to even), read back
    as the nearest float.  Infinities and NaN are returned unchanged. *)
Definition round (x : float) (ndigits : nat) : float :=
  match x with
  | S754_finite s m e =>
      let scale := 10 ^ Z.of_nat ndigits in
      let t := scaled_half_even m e scale in
      div (binary_normalize prec emax (if s then - t else t) 0 s)
          (of_Z scale)
  | _ => x
  end.
End Float.

(** ** [ResumeTailorAgent.calculate_match_score] *)

(** [sum(1 for item in items if item.lower() in resume_lower)] *)
Definition matched_count (resume_lower : text) (items : list text) : nat :=
  fold_left
    (fun acc item =>
       if Str.contains (Str.lower item) resume_lower then S acc else acc)
    items O.

Definition calculate_match_score (resume_text : text)
    (job_analysis : JobAnalysis) : result Float.float :=
  let resume_lower := Str.lower resume_text in
  let all_required_items :=
    hard_skills job_analysis ++ soft_skills job_analysis
      ++ keywords job_analysis in
  if negb (list_truthy all_required_items) then Ok Float.zero
  else
    let matched := matched_count resume_lower all_required_items in
    let! ratio := Float.truediv matched (length all_required_items) in
    let match_percentage := Float.mul ratio (Float.of_nat 100) in
    Ok (Float.round match_percentage 1).

(** ** Basic Latin text *)

(** The texts on which the character classes of [Chr] are Python's: the
    Basic Latin characters, and the bullet symbols the parser names
    (U+2022, U+25CF, U+25A0, U+25AA, U+25B8, U+25BA, U+2192), which Python
    too takes as uncased symbols that are neither blanks, digits nor word
    characters. *)
Module Latin.
Definition char_ok (c : char) : bool :=
  (c <? 128) || existsb (N.eqb c) [8226; 9679; 9632; 9642; 9656; 9658; 8594].
Definition text_ok (s : text) : bool := forallb char_ok s.
Definition texts_ok (l : list text) : bool := forallb text_ok l.
Definition option_ok (o : option text) : bool :=
  match o with Some s => text_ok s | None => true end.

(** Every string of a job analysis. *)
Definition job_ok (ja : JobAnalysis) : bool :=
  texts_ok (hard_skills ja) && texts_ok (soft_skills ja)
  && texts_ok (qualifications ja) && text_ok (experience_required ja)
  && texts_ok (key_responsibilities ja) && texts_ok (keywords ja)
  && texts_ok (culture_keywords ja) && texts_ok (nice_to_have ja)
  && texts_ok (action_verbs ja) && option_ok (company_name ja)
  && option_ok (job_title ja) && option_ok (location ja).
End Latin.

(** ** Vocabulary of the specification *)

Module Seg.
Import ResumeParserTool.

(** The lines the segmenter iterates over. *)
Definition lines (t : text) : list text := Str.split Chr.newline t.

(** The sections the loop has appended when it ends, before the
    fallback is considered. *)
Definition finalized (t : text) : list ResumeSection :=
  flush (split_loop (lines t)).

(** The name under which a line opens a section, if the loop treats it
    as a header ([is_header and section_name]). *)
Definition opens_section (line : text) : option text :=
  let '(is_header, name) := _is_section_header (Str.strip line) in
  if is_header && name_truthy name then name else None.

Definition is_header_line (line : text) : bool := is_some (opens_section line).
Definition is_blank (line : text) : bool := negb (Str.truthy (Str.strip line)).
Definition is_content_line (line : text) : bool :=
  negb (is_header_line line) && negb (is_blank line).

(** A section as the loop builds it: the header line that opened it, the
    name derived from that line, and the lines gathered under it. *)
Record group := mkGroup {
  g_header : text;
  g_name : text;
  g_lines : list text
}.

Definition emit (header name : text) (acc : list text) : list group :=
  match acc with
  | [] => []
  | _ => [mkGroup header name acc]
  end.

(** The groups of a list of lines read while a section is open. *)
Fixpoint group_from (header name : text) (acc : list text) (ls : list text)
    : list group :=
  match ls with
  | [] => emit header name acc
  | l :: ls' =>
      match opens_section l with
      | Some n => emit header name acc ++ group_from l n [] ls'
      | None =>
          group_from header name (if is_blank l then acc else acc ++ [l]) ls'
      end
  end.

(** The groups of a list of lines read from the start: everything before
    the first header belongs to no group. *)
Fixpoint groups (ls : list text) : list group :=
  match ls with
  | [] => []
  | l :: ls' =>
      match opens_section l with
      | Some n => group_from l n [] ls'
      | None => groups ls'
      end
  end.

Definition to_section (g : group) : ResumeSection :=
  _create_section (g_name g) (g_lines g).

(** The lines that follow the first header line. *)
Fixpoint after_first_header (ls : list text) : list text :=
  match ls with
  | [] => []
  | l :: ls' => if is_header_line l then ls' else after_first_header ls'
  end.

(** The lines that end up in some finalized section. *)
Definition kept_lines (ls : list text) : list text :=
  List.filter is_content_line (after_first_header ls).

(** The contents of the sections, joined by newlines. *)
Definition joined_contents (secs : list ResumeSection) : text :=
  Str.join Chr.newline (List.map content secs).




(** A group as the loop can produce it from the lines [ls]. *)
Definition wf (ls : list text) (g : group) : Prop :=
  opens_section (g_header g) = Some (g_name g)
  /\ g_lines g <> []
  /\ List.Forall (fun l => is_content_line l = true) (g_lines g)
  /\ In (g_header g) ls
  /\ List.Forall (fun l => In l ls) (g_lines g).


(** No line of the text matches a known section title or has the shape
    the fallback heuristic looks for (both are tested on the stripped
    line). *)
Definition no_header_shape (t : text) : bool :=
  forallb (fun line => negb (known_header (Str.strip line))
                       && negb (header_shaped (Str.strip line)))
          (lines t).

(** A text given by its lines. *)
Definition doc (ls : list string) : text :=
  Str.join Chr.newline (List.map txt ls).

(** The statement that the sections hold every non-header, non-blank line
    of the text, in order. *)
Definition keeps_every_content_line (t : text) : Prop :=
  joined_contents (_split_into_sections t)
  = Str.join Chr.newline (List.filter is_content_line (lines t)).

(** The statement that a text without header-shaped line becomes one
    "Full Resume" section holding the trimmed text. *)
Definition fallback_is_trimmed (t : text) : Prop :=
  no_header_shape t = true ->
  exists s, _split_into_sections t = [s]
            /\ section_name s = txt "Full Resume"
            /\ content s = Str.strip t.
End Seg.

(** Header names, as the specification words them. *)
Module Names.
Import ResumeParserTool.
Local Open Scope string_scope.

(** The header as the tests see it: stripped, without trailing colons,
    upper-cased. *)
Definition normal (header : text) : text :=
  Str.upper (Str.rstrip_colon (Str.strip header)).

(** Does the header contain one of the words? *)
Definition mentions (ws : list string) (header : text) : bool :=
  existsb (fun w => Str.contains (txt w) header) ws.

(** The ordered table of substring tests: the first row one of whose
    words occurs in the header gives the canonical name. *)
Definition canonical_names : list (list string * string) := [
  (["SUMMARY"; "PROFILE"; "OBJECTIVE"], "Professional Summary");
  (["EXPERIENCE"; "EMPLOYMENT"], "Work Experience");
  (["EDUCATION"; "ACADEMIC"], "Education");
  (["SKILL"; "COMPETENC"; "EXPERTISE"], "Skills");
  (["CERTIFICATION"; "CERTIFICATE"], "Certifications");
  (["PROJECT"], "Projects");
  (["AWARD"; "HONOR"; "ACHIEVEMENT"], "Awards & Achievements");
  (["PUBLICATION"; "RESEARCH"], "Publications");
  (["VOLUNTEER"; "COMMUNITY"], "Volunteer Experience");
  (["LANGUAGE"], "Languages");
  (["INTEREST"; "HOBBIES"], "Interests");
  (["REFERENCE"], "References")
].

Definition lookup_name (header : text) : option string :=
  option_map snd
    (List.find (fun row => mentions (fst row) header) canonical_names).

(** The statement that a known header containing EXPERIENCE or EMPLOYMENT
    is always named "Work Experience". *)
Definition experience_is_work_experience (line : text) : Prop :=
  known_header line = true ->
  mentions ["EXPERIENCE"; "EMPLOYMENT"] (normal line) = true ->
  _is_section_header line = (true, Some (txt "Work Experience")).

(** The statement that a header found by the heuristic only is named by
    its own text in title case. *)
Definition heuristic_name_is_title_case (line : text) : Prop :=
  known_header line = false -> header_shaped line = true ->
  _is_section_header line
  = (true, Some (Str.title (Str.strip (Str.rstrip_colon line)))).
End Names.

(** The score, as the specification words it. *)
Module Score.
(** [needle] occurs as a substring of [hay]. *)
Definition occurs_in (needle hay : text) : Prop :=
  exists pre suf, hay = pre ++ needle ++ suf.

(** The requirement is found in the resume, case ignored. *)
Definition found_in (resume item : text) : Prop :=
  occurs_in (Str.lower item) (Str.lower resume).

(** [counts P items m]: exactly [m] entries of [items] satisfy [P],
    duplicates counted one by one. *)
Inductive counts (P : text -> Prop) : list text -> nat -> Prop :=
| counts_nil : counts P [] O
| counts_hit x l m : P x -> counts P l m -> counts P (x :: l) (S m)
| counts_miss x l m : ~ P x -> counts P l m -> counts P (x :: l) m.

(** The requirement list: hard skills, soft skills, keywords. *)
Definition requirements (ja : JobAnalysis) : list text :=
  hard_skills ja ++ soft_skills ja ++ keywords ja.

(** [round((m / n) * 100, 1)] *)
Definition percentage (m n : nat) : Float.float :=
  Float.round
    (Float.mul (Float.div (Float.of_nat m) (Float.of_nat n)) (Float.of_nat 100))
    1.

Definition job (hard soft kw : list string) : JobAnalysis :=
  mkJobAnalysis (List.map txt hard) (List.map txt soft) [] [] []
                (List.map txt kw) [] [] [] None None None.
End Score.

(** Vocabulary for reasoning about the matcher. *)
Module ReSpec.
Import Re.

(** The character before the position once [s] has been read. *)
Definition advance (prev : option char) (s : text) : option char :=
  fold_left (fun _ c => Some c) s prev.

(** Does the atom accept the first character of [s]? *)
Definition head_ok (ic : bool) (a : atom) (s : text) : bool :=
  match s with c :: _ => atom_ok ic a c | [] => false end.

(** The continuation fails wherever the next character is one the atom
    accepts. *)
Definition rejects (ic : bool) (a : atom) (k : mstate -> option mstate) : Prop :=
  forall p c t g, atom_ok ic a c = true -> k (MState p (c :: t) g) = None.

(** Every path through the pattern closes the group. *)
Fixpoint sets_group (r : regex) : bool :=
  match r with
  | Grp _ => true
  | Seq r1 r2 => sets_group r1 || sets_group r2
  | Alt r1 r2 => sets_group r1 && sets_group r2
  | _ => false
  end.
End ReSpec.

(** Bullets, as the specification words them. *)
Module Bullets.
Import Re ResumeParserTool.

Inductive marker_kind := Glyph | Asterisk | Number.

Definition marker_kinds : list marker_kind := [Glyph; Asterisk; Number].

Definition marker_regex (m : marker_kind) : regex :=
  match m with
  | Glyph => Atom bullet_glyphs
  | Asterisk => Atom (ALit (ch "*"))
  | Number => Seq (plus ADigit) (Atom (ALit (ch ".")))
  end.

(** One of the bullet symbols: U+2022, U+25CF, U+25A0, U+25AA, U+25B8,
    U+25BA, U+2192 or the hyphen. *)
Definition is_glyph (c : char) : bool :=
  existsb (N.eqb c) [8226; 9679; 9632; 9642; 9656; 9658; 8594; 45].

(** What follows a marker of the given kind at the start of [s]. *)
Definition after_marker (m : marker_kind) (s : text) : option text :=
  match m, s with
  | _, [] => None
  | Glyph, c :: rest => if is_glyph c then Some rest else None
  | Asterisk, c :: rest => if c =? ch "*" then Some rest else None
  | Number, c :: _ =>
      if Chr.isdigit c then
        match Str.lstrip_with Chr.isdigit s with
        | d :: rest => if d =? ch "." then Some rest else None
        | [] => None
        end
      else None
  end.

(** The bullet made of the text after a marker: there must be a blank and
    at least one more character; the text is stripped. *)
Definition body_of (rest : text) : option text :=
  match rest with
  | w :: _ :: _ => if Chr.isspace w then Some (Str.strip rest) else None
  | _ => None
  end.

(** The bullet of a line read with one kind of marker: leading blanks, the
    marker, then the body. *)
Definition bullet_as (m : marker_kind) (line : text) : option text :=
  match after_marker m (Str.lstrip_with Chr.isspace line) with
  | Some rest => body_of rest
  | None => None
  end.

(** The bullet of a line: the first kind of marker that applies. *)
Fixpoint first_bullet (ms : list marker_kind) (line : text) : option text :=
  match ms with
  | [] => None
  | m :: ms' =>
      match bullet_as m line with
      | Some b => Some b
      | None => first_bullet ms' line
      end
  end.

Definition bullet_text (line : text) : option text :=
  first_bullet marker_kinds line.

Definition option_list {A} (o : option A) : list A :=
  match o with Some x => [x] | None => [] end.

(** The text of the group of a final matcher state. *)
Definition group_text (st : mstate) : text :=
  match group1 st with Some g => g | None => [] end.

(** A line has no newline in it. *)
Definition one_line (s : text) : bool := forallb (atom_ok false ADot) s.
End Bullets.

(** ** More of the parser and of the tailoring agent *)

Module StrMore.
(** [sep.join(parts)] for a separator of any length. *)
Fixpoint join_str (sep : text) (parts : list text) : text :=
  match parts with
  | [] => []
  | [p] => p
  | p :: ps => p ++ sep ++ join_str sep ps
  end.

(** Equality of strings, and lists of pairwise different strings. *)
Fixpoint eqb (a b : text) : bool :=
  match a, b with
  | [], [] => true
  | x :: a', y :: b' => (x =? y) && eqb a' b'
  | _, _ => false
  end.

Fixpoint distinct (l : list text) : bool :=
  match l with
  | [] => true
  | x :: r => negb (existsb (eqb x) r) && distinct r
  end.

(** [x or default] on an optional string. *)
Definition or_default (o : option text) (default : text) : text :=
  match o with
  | Some (c :: s) => c :: s
  | _ => default
  end.
End StrMore.

(** [ResumeParserTool.extract_keywords] *)
Module Keywords.
Local Open Scope string_scope.

Definition common_keywords : list string := [
  "Python"; "Java"; "JavaScript"; "C++"; "SQL"; "AWS"; "Azure"; "GCP";
  "Docker"; "Kubernetes"; "CI/CD"; "Git"; "Agile"; "Scrum"; "REST";
  "API"; "Machine Learning"; "ML"; "AI"; "Data Science"; "TensorFlow";
  "PyTorch"; "React"; "Angular"; "Vue"; "Node.js"; "Django"; "Flask";
  "MongoDB"; "PostgreSQL"; "MySQL"; "Redis"; "Kafka"; "Microservices";
  "Leadership"; "Communication"; "Team"; "Management"; "Project Management"
].

(** [for keyword in common_keywords: if keyword.lower() in text_lower:
    found_keywords.append(keyword)] *)
Definition extract_keywords (t : text) : list text :=
  let text_lower := Str.lower t in
  List.filter (fun keyword => Str.contains (Str.lower keyword) text_lower)
              (List.map txt common_keywords).
End Keywords.

(** [ResumeTailorAgent], the methods beside [calculate_match_score]. *)
Module Tailor.
Import StrMore.
Local Open Scope string_scope.

Definition comma : text := txt ", ".

(** [_mock_tailoring] *)
Definition _mock_tailoring (original_resume : text) (job_analysis : JobAnalysis)
    : text :=
  let keywords_str := join_str comma (take 5 (hard_skills job_analysis)) in
  let job_title := or_default (job_title job_analysis) (txt "Target Position") in
  (txt "## Professional Summary" ++ [Chr.newline; Chr.newline]
   ++ txt "Experienced professional with expertise in " ++ keywords_str
   ++ txt ". Proven track record of delivering results in dynamic environments. Seeking to leverage skills and experience in the "
   ++ job_title ++ txt " role." ++ [Chr.newline; Chr.newline]
   ++ txt "## " ++ original_resume ++ [Chr.newline; Chr.newline]
   ++ txt "---" ++ [Chr.newline]
   ++ txt "*Resume tailored for: " ++ job_title ++ txt "*" ++ [Chr.newline]
   ++ txt "*Key skills highlighted: " ++ keywords_str ++ txt "*"
   ++ [Chr.newline])%list.

(** [identify_matched_keywords]; [all_keywords] is what
    [job_analysis.get_all_keywords()] returns (a method of the model class,
    which is not in the sources at hand). *)
Definition identify_matched_keywords (resume_text : text)
    (all_keywords : list text) : list text :=
  let resume_lower := Str.lower resume_text in
  List.filter (fun keyword => Str.contains (Str.lower keyword) resume_lower)
              all_keywords.

(** [generate_suggestions]; [str_of_list] is Python's [str] on a list of
    strings. *)
Definition generate_suggestions (str_of_list : list text -> text)
    (original_resume tailored_resume : text) (job_analysis : JobAnalysis)
    : list text :=
  let suggestions : list text := [] in
  let critical_skills := take 5 (hard_skills job_analysis) in
  let tailored_lower := Str.lower tailored_resume in
  let missing_skills :=
    List.filter (fun skill => negb (Str.contains (Str.lower skill) tailored_lower))
                critical_skills in
  let suggestions :=
    if list_truthy missing_skills then
      (suggestions ++ [txt "Consider adding experience with: "
                       ++ join_str comma missing_skills
                       ++ txt " if applicable"])%list
    else suggestions in
  let suggestions :=
    if negb (existsb Chr.isdigit tailored_resume) then
      (suggestions ++ [txt "Add quantifiable metrics and numbers to your achievements for greater impact"])%list
    else suggestions in
  let action_verb_count :=
    matched_count tailored_lower (action_verbs job_analysis) in
  let suggestions :=
    if (action_verb_count <? 3)%nat then
      (suggestions ++ [txt "Use more action verbs like: "
                       ++ join_str comma (take 5 (action_verbs job_analysis))])%list
    else suggestions in
  let suggestions :=
    if list_truthy (qualifications job_analysis)
       && Str.contains (txt "certification")
            (Str.lower (str_of_list (qualifications job_analysis)))
    then
      if negb (Str.contains (txt "certif") tailored_lower) then
        (suggestions ++ [txt "Highlight any relevant certifications prominently"])%list
      else suggestions
    else suggestions in
  suggestions.

(** [_build_tailoring_prompt] *)
Definition _build_tailoring_prompt (original_resume : text)
    (job_analysis : JobAnalysis) (job_description : option text) : text :=
  let nl := [Chr.newline] in
  let prompt_parts : list text := [
    txt "# TASK: Tailor the following resume for a specific job opportunity" ++ nl;
    txt "## ORIGINAL RESUME (DO NOT CHANGE ANY FACTS):" ++ nl;
    txt "```";
    original_resume;
    txt "```" ++ nl;
    txt "## TARGET JOB ANALYSIS:" ++ nl
  ]%list in
  let prompt_parts :=
    if name_truthy (job_title job_analysis) then
      (prompt_parts ++ [txt "**Job Title**: "
                        ++ or_default (job_title job_analysis) [] ++ nl])%list
    else prompt_parts in
  let prompt_parts :=
    if name_truthy (company_name job_analysis) then
      (prompt_parts ++ [txt "**Company**: "
                        ++ or_default (company_name job_analysis) [] ++ nl])%list
    else prompt_parts in
  let prompt_parts := (prompt_parts ++ [
    nl ++ txt "**Required Hard Skills**: "
       ++ join_str comma (hard_skills job_analysis);
    nl ++ txt "**Required Soft Skills**: "
       ++ join_str comma (soft_skills job_analysis);
    nl ++ txt "**Experience Level**: " ++ experience_required job_analysis;
    nl ++ txt "**Key Responsibilities**: "
       ++ join_str comma (take 5 (key_responsibilities job_analysis));
    nl ++ txt "**Important Keywords**: "
       ++ join_str comma (take 15 (keywords job_analysis));
    nl ++ txt "**Action Verbs to Use**: "
       ++ join_str comma (take 10 (action_verbs job_analysis))
  ])%list in
  let prompt_parts :=
    if list_truthy (qualifications job_analysis) then
      (prompt_parts ++ [nl ++ txt "**Required Qualifications**: "
                        ++ join_str comma (qualifications job_analysis)])%list
    else prompt_parts in
  let prompt_parts :=
    if list_truthy (culture_keywords job_analysis) then
      (prompt_parts ++ [nl ++ txt "**Company Culture**: "
                        ++ join_str comma (culture_keywords job_analysis)])%list
    else prompt_parts in
  let prompt_parts :=
    if name_truthy job_description then
      (prompt_parts ++ [
         nl ++ nl ++ txt "## FULL JOB DESCRIPTION (for context):" ++ nl;
         txt "```";
         take 2000 (or_default job_description []);
         txt "```" ++ nl
       ])%list
    else prompt_parts in
  let prompt_parts := (prompt_parts ++ [
    nl ++ txt "## YOUR TASK:" ++ nl;
    txt "Tailor the original resume to highlight experiences and skills that match the job requirements.";
    txt "Remember: Only use information from the original resume. Do not fabricate anything.";
    txt "Incorporate the target keywords naturally. Use the suggested action verbs where appropriate.";
    nl ++ txt "Return ONLY the tailored resume in Markdown format with clear sections and bullet points.";
    txt "Do not include any explanations or comments - just the resume itself." ++ nl;
    nl ++ txt "**Tailored Resume:**" ++ nl
  ])%list in
  Str.join Chr.newline prompt_parts.

(** What a call of [tailor_resume] ends with: the tailored text, the
    [ValueError] of the length check, or whatever the model client
    raised. *)
Inductive outcome (E : Type) :=
| Returned (tailored : text)
| ValueError (message : text)
| ClientRaised (e : E).
Arguments Returned {E} tailored.
Arguments ValueError {E} message.
Arguments ClientRaised {E} e.

(** [tailor_resume].  The model client, when there is one, is its
    [generate] method applied to the system prompt and the user prompt
    (temperature 0.7 and 3000 tokens are constants of the call); it
    returns a text or raises. *)
Definition tailor_resume {E} (SYSTEM_PROMPT : text)
    (model_client : option (text -> text -> E + text))
    (original_resume : text) (job_analysis : JobAnalysis)
    (job_description : option text) : outcome E :=
  if (length (Str.strip original_resume) <? 100)%nat then
    ValueError
      (txt "Original resume is too short to process (minimum 100 characters)")
  else
    let user_prompt :=
      _build_tailoring_prompt original_resume job_analysis job_description in
    match model_client with
    | Some generate =>
        match generate SYSTEM_PROMPT user_prompt with
        | inr tailored_resume => Returned tailored_resume
        | inl e => ClientRaised e
        end
    | None => Returned (_mock_tailoring original_resume job_analysis)
    end.
End Tailor.

(** The language of a pattern: what a match may consume. *)
Module ReLang.
Import Re ReSpec.

(** [den ic r p w nx g g']: with [p] the character before the position and
    [nx] the text that follows, the pattern [r] may consume [w]; the group
    holds [g] before and [g'] after. *)
Inductive den (ic : bool)
  : regex -> option char -> text -> text -> option text -> option text -> Prop :=
| den_eps p nx g : den ic Eps p [] nx g g
| den_atom a p c nx g :
    atom_ok ic a c = true -> den ic (Atom a) p [c] nx g g
| den_seq r1 r2 p w1 w2 nx g g1 g2 :
    den ic r1 p w1 (w2 ++ nx) g g1 ->
    den ic r2 (advance p w1) w2 nx g1 g2 ->
    den ic (Seq r1 r2) p (w1 ++ w2) nx g g2
| den_alt_l r1 r2 p w nx g g' :
    den ic r1 p w nx g g' -> den ic (Alt r1 r2) p w nx g g'
| den_alt_r r1 r2 p w nx g g' :
    den ic r2 p w nx g g' -> den ic (Alt r1 r2) p w nx g g'
| den_opt_some r p w nx g g' :
    den ic r p w nx g g' -> den ic (Opt r) p w nx g g'
| den_opt_none r p nx g : den ic (Opt r) p [] nx g g
| den_rep a lo hi p w nx g :
    forallb (atom_ok ic a) w = true ->
    (lo <= length w)%nat ->
    (forall h, hi = Some h -> (length w <= h)%nat) ->
    den ic (Rep a lo hi) p w nx g g
| den_grp r p w nx g g' :
    den ic r p w nx g g' -> den ic (Grp r) p w nx g (Some w)
| den_bol nx g : den ic Bol None [] nx g g
| den_eol p nx g :
    nx = [] \/ nx = [Chr.newline] -> den ic Eol p [] nx g g
| den_wordb p nx g :
    xorb (isword_opt p) (isword_opt (head nx)) = true ->
    den ic WordB p [] nx g g.

(** The literal characters of [lits]. *)
Definition lits_of (l : text) : regex :=
  fold_right (fun c r => Seq (Atom (ALit c)) r) Eps l.

(** Equality of two characters, case ignored or not. *)
Definition same_char (ic : bool) (c x : char) : bool :=
  if ic then Chr.lower c =? Chr.lower x else c =? x.
End ReLang.

(** Character classes of the contact patterns, as plain predicates. *)
Module ContactSpec.
Definition is_alnum (c : char) : bool := Chr.iscased c || Chr.isdigit c.

(** [[A-Za-z0-9._%+-]] *)
Definition local_char (c : char) : bool :=
  is_alnum c || existsb (N.eqb c) (txt "._%+-").

(** [[A-Za-z0-9.-]] *)
Definition domain_char (c : char) : bool :=
  is_alnum c || existsb (N.eqb c) (txt ".-").

(** [[A-Z|a-z]] *)
Definition tld_char (c : char) : bool := Chr.iscased c || (c =? ch "|").

(** What may follow the scheme of a URL: neither a blank nor one of
    the excluded punctuation marks (34 is the double quote). *)
Definition url_char (c : char) : bool :=
  negb (Chr.isspace c
        || existsb (N.eqb c)
             (34 :: txt "<>{}|\^`[]")).

(** [[\w-]] *)
Definition handle_char (c : char) : bool := Chr.isword c || (c =? ch "-").

(** [[-.\s]] *)
Definition sep_char (c : char) : bool :=
  (c =? ch "-") || (c =? ch ".") || Chr.isspace c.
End ContactSpec.

(** Header detection, as the loop of the segmenter uses it. *)
Module HeaderSpec.
Import Re ResumeParserTool.

(** Every branch of the pattern begins, after [^], with a literal
    letter. *)
Fixpoint starts_cased (r : regex) : bool :=
  match r with
  | Atom (ALit x) => Chr.iscased x
  | Seq Bol r2 => starts_cased r2
  | Seq r1 _ => starts_cased r1
  | Alt r1 r2 => starts_cased r1 && starts_cased r2
  | Grp r1 => starts_cased r1
  | _ => false
  end.

(** The two tests of [_is_section_header] on a stripped line. *)
Definition looks_like_header (stripped : text) : bool :=
  known_header stripped || header_shaped stripped.
End HeaderSpec.

(** Texts that differ in the case of their letters only. *)
Module CaseSpec.
Import Re.

Definition same_letters (s s' : text) : Prop := Str.lower s = Str.lower s'.

Definition same_before (p p' : option char) : Prop :=
  option_map Chr.lower p = option_map Chr.lower p'.

(** Two positions of the matcher that differ in case only; the groups
    are left free. *)
Definition same_position (st st' : mstate) : Prop :=
  same_before (before st) (before st') /\ same_letters (rest st) (rest st').

(** Patterns without bracket expression. *)
Definition plain_atom (a : atom) : bool :=
  match a with ASet _ _ => false | _ => true end.

Fixpoint plain (r : regex) : bool :=
  match r with
  | Atom a | Rep a _ _ => plain_atom a
  | Seq r1 r2 | Alt r1 r2 => plain r1 && plain r2
  | Opt r1 | Grp r1 => plain r1
  | _ => true
  end.
End CaseSpec.

(** * Properties *)

(** ** The segmenter loop and its groups *)

Section SegmenterLoop.
Import ResumeParserTool Seg.

Lemma opens_section_truthy l n :
  opens_section l = Some n -> Str.truthy n = true.
Proof.
  unfold opens_section.
  destruct (_is_section_header (Str.strip l)) as [h nm].
  destruct h; simpl; [|discriminate].
  destruct nm as [s|]; simpl; [|discriminate].
  destruct (Str.truthy s) eqn:E; [|discriminate].
  intros [= <-]. exact E.
Qed.

Lemma split_step_header st l n :
  opens_section l = Some n ->
  split_step st l = mkSplit (flush st) (Some n) [].
Proof.
  unfold opens_section, split_step.
  destruct (_is_section_header (Str.strip l)) as [h nm].
  destruct (h && name_truthy nm); [|discriminate].
  intros ->. reflexivity.
Qed.

Lemma split_step_other st l :
  opens_section l = None ->
  split_step st l =
    if name_truthy (current_section_name st) then
      if is_blank l then st
      else mkSplit (done_sections st) (current_section_name st)
                   (current_content st ++ [l])
    else st.
Proof.
  unfold opens_section, split_step, is_blank.
  destruct (_is_section_header (Str.strip l)) as [h nm].
  destruct (h && name_truthy nm) eqn:E.
  - intros ->. rewrite andb_true_iff in E. destruct E as [_ E]. discriminate.
  - intros _. destruct (Str.truthy (Str.strip l)); reflexivity.
Qed.

Lemma flush_open done n acc :
  Str.truthy n = true ->
  flush (mkSplit done (Some n) acc) = done ++ List.map to_section (emit n n acc).
Proof.
  intros Hn. unfold flush, emit, to_section. simpl. rewrite Hn.
  destruct acc; simpl; [rewrite app_nil_r|]; reflexivity.
Qed.

Lemma to_section_emit h h' n acc :
  List.map to_section (emit h n acc) = List.map to_section (emit h' n acc).
Proof. destruct acc; reflexivity. Qed.

(** While a section is open, the loop appends the groups of the lines it
    reads. *)
Lemma loop_open ls : forall done h n acc,
  Str.truthy n = true ->
  flush (fold_left split_step ls (mkSplit done (Some n) acc))
  = done ++ List.map to_section (group_from h n acc ls).
Proof.
  induction ls as [|l ls IH]; intros done h n acc Hn; simpl.
  - rewrite (flush_open _ _ _ Hn). f_equal. apply to_section_emit.
  - destruct (opens_section l) as [n'|] eqn:Ho.
    + rewrite (split_step_header _ _ _ Ho).
      rewrite (IH _ l n' [] (opens_section_truthy _ _ Ho)).
      rewrite (flush_open _ _ _ Hn), (to_section_emit n h).
      rewrite List.map_app, <- app_assoc. reflexivity.
    + rewrite (split_step_other _ _ Ho). simpl. rewrite Hn.
      destruct (is_blank l); apply IH; exact Hn.
Qed.

(** Before the first header nothing is gathered. *)
Lemma loop_closed ls : forall done,
  flush (fold_left split_step ls (mkSplit done None []))
  = done ++ List.map to_section (groups ls).
Proof.
  induction ls as [|l ls IH]; intros done; simpl.
  - rewrite app_nil_r. reflexivity.
  - destruct (opens_section l) as [n'|] eqn:Ho.
    + rewrite (split_step_header _ _ _ Ho).
      apply (loop_open ls _ l n' []), (opens_section_truthy _ _ Ho).
    + rewrite (split_step_other _ _ Ho). simpl. apply IH.
Qed.

Lemma finalized_groups t :
  finalized t = List.map to_section (groups (lines t)).
Proof. unfold finalized, split_loop. apply (loop_closed _ []). Qed.

Lemma split_into_sections_eq t :
  _split_into_sections t =
    match finalized t with
    | [] => [full_resume t]
    | secs => secs
    end.
Proof.
  unfold _split_into_sections, finalized, lines.
  destruct (flush _); reflexivity.
Qed.

Lemma header_not_content l :
  is_header_line l = true -> is_content_line l = false.
Proof. unfold is_content_line. intros ->. reflexivity. Qed.

Lemma emit_lines h n acc :
  concat (List.map g_lines (emit h n acc)) = acc.
Proof. destruct acc; simpl; [|rewrite app_nil_r]; reflexivity. Qed.

Lemma group_from_lines ls : forall h n acc,
  concat (List.map g_lines (group_from h n acc ls))
  = acc ++ List.filter is_content_line ls.
Proof.
  induction ls as [|l ls IH]; intros h n acc; simpl.
  - rewrite emit_lines, app_nil_r. reflexivity.
  - unfold is_content_line at 1, is_header_line.
    destruct (opens_section l) as [n'|] eqn:Ho; simpl.
    + rewrite List.map_app, concat_app, emit_lines, IH. reflexivity.
    + rewrite IH. destruct (is_blank l); simpl; [reflexivity|].
      rewrite <- app_assoc. reflexivity.
Qed.

Lemma groups_lines ls :
  concat (List.map g_lines (groups ls)) = kept_lines ls.
Proof.
  unfold kept_lines.
  induction ls as [|l ls IH]; simpl; [reflexivity|].
  unfold is_header_line.
  destruct (opens_section l) as [n'|] eqn:Ho; simpl.
  - apply (group_from_lines ls l n' []).
  - exact IH.
Qed.

Lemma emit_nonempty h n acc g : In g (emit h n acc) -> g_lines g <> [].
Proof.
  destruct acc; simpl; [tauto|]. intros [<-|[]]. discriminate.
Qed.

Lemma group_from_nonempty ls : forall h n acc g,
  In g (group_from h n acc ls) -> g_lines g <> [].
Proof.
  induction ls as [|l ls IH]; intros h n acc g; simpl.
  - apply emit_nonempty.
  - destruct (opens_section l) as [n'|].
    + rewrite in_app_iff. intros [H|H]; [eapply emit_nonempty|eapply IH]; eauto.
    + apply IH.
Qed.

Lemma groups_nonempty ls g : In g (groups ls) -> g_lines g <> [].
Proof.
  induction ls as [|l ls IH]; simpl; [tauto|].
  destruct (opens_section l); [apply group_from_nonempty|exact IH].
Qed.
End SegmenterLoop.

(** ** Joining and splitting *)

Section JoinSplit.
Variable sep : char.

Lemma join_cons p ps :
  ps <> [] -> Str.join sep (p :: ps) = p ++ sep :: Str.join sep ps.
Proof. destruct ps; [congruence | reflexivity]. Qed.

Lemma join_app a b :
  a <> [] -> b <> [] ->
  Str.join sep (a ++ b) = Str.join sep a ++ sep :: Str.join sep b.
Proof.
  intros Ha Hb. induction a as [|p a IH]; [congruence|].
  destruct a as [|q a].
  - simpl app. rewrite join_cons by exact Hb. reflexivity.
  - change ((p :: q :: a) ++ b) with (p :: ((q :: a) ++ b)).
    rewrite join_cons by discriminate.
    rewrite IH by discriminate.
    rewrite (join_cons p (q :: a)) by discriminate.
    rewrite <- app_assoc. reflexivity.
Qed.

(** Joining joined pieces is joining their concatenation, as long as no
    piece is the empty list. *)
Lemma join_concat lss :
  (forall ls, In ls lss -> ls <> []) ->
  Str.join sep (List.map (Str.join sep) lss) = Str.join sep (concat lss).
Proof.
  induction lss as [|ls lss IH]; intros Hne; [reflexivity|].
  destruct lss as [|ls' lss].
  - simpl. rewrite app_nil_r. reflexivity.
  - change (List.map (Str.join sep) (ls :: ls' :: lss))
      with (Str.join sep ls :: List.map (Str.join sep) (ls' :: lss)).
    rewrite join_cons by discriminate.
    rewrite IH by (intros x Hx; apply Hne; right; exact Hx).
    change (concat (ls :: ls' :: lss)) with (ls ++ concat (ls' :: lss)).
    rewrite join_app; [reflexivity | apply Hne; left; reflexivity |].
    simpl. intros E. apply app_eq_nil in E. destruct E as [E _].
    revert E. apply Hne. right; left; reflexivity.
Qed.

Lemma split_not_nil s : Str.split sep s <> [].
Proof.
  destruct s as [|c t]; simpl; [discriminate|].
  destruct (c =? sep); [discriminate|].
  destruct (Str.split sep t); discriminate.
Qed.

Lemma join_split s : Str.join sep (Str.split sep s) = s.
Proof.
  induction s as [|c t IH]; [reflexivity|]. simpl.
  destruct (N.eqb_spec c sep) as [->|Hne].
  - rewrite join_cons by apply split_not_nil. rewrite IH. reflexivity.
  - destruct (Str.split sep t) as [|l ls] eqn:E.
    + exfalso. exact (split_not_nil _ E).
    + destruct ls as [|l' ls]; simpl in *; rewrite <- IH; reflexivity.
Qed.

Lemma split_no_sep s l : In l (Str.split sep s) -> ~ In sep l.
Proof.
  revert l. induction s as [|c t IH]; intros l; simpl.
  - intros [<-|[]]. simpl. tauto.
  - destruct (N.eqb_spec c sep) as [->|Hne].
    + intros [<-|H]; [simpl; tauto | apply IH, H].
    + destruct (Str.split sep t) as [|l0 ls] eqn:E.
      * intros [<-|[]]. simpl. intros [H|[]]. congruence.
      * intros [<-|H].
        -- simpl. intros [H|H]; [congruence|].
           revert H. apply IH. left. reflexivity.
        -- apply IH. right. exact H.
Qed.

Lemma split_one l : ~ In sep l -> Str.split sep l = [l].
Proof.
  induction l as [|c l IH]; intros H; [reflexivity|]. simpl.
  destruct (N.eqb_spec c sep) as [->|Hne].
  - exfalso. apply H. left. reflexivity.
  - rewrite IH; [reflexivity|]. intros H'. apply H. right. exact H'.
Qed.

Lemma split_app_sep l r :
  ~ In sep l -> Str.split sep (l ++ sep :: r) = l :: Str.split sep r.
Proof.
  induction l as [|c l IH]; intros H; simpl.
  - rewrite N.eqb_refl. reflexivity.
  - destruct (N.eqb_spec c sep) as [->|Hne].
    + exfalso. apply H. left. reflexivity.
    + rewrite IH; [reflexivity|]. intros H'. apply H. right. exact H'.
Qed.

(** Splitting undoes joining when no part contains the separator. *)
Lemma split_join ls :
  ls <> [] -> (forall l, In l ls -> ~ In sep l) ->
  Str.split sep (Str.join sep ls) = ls.
Proof.
  induction ls as [|l ls IH]; intros Hne Hs; [congruence|].
  destruct ls as [|l' ls].
  - simpl. apply split_one, Hs. left. reflexivity.
  - rewrite join_cons by discriminate.
    rewrite split_app_sep by (apply Hs; left; reflexivity).
    rewrite IH; [reflexivity | discriminate |].
    intros x Hx. apply Hs. right. exact Hx.
Qed.



End JoinSplit.

(** ** What the segmenter keeps *)

Section SegmenterContent.
Import ResumeParserTool Seg.

Lemma concat_not_nil {A} (lss : list (list A)) :
  lss <> [] -> (forall ls, In ls lss -> ls <> []) -> concat lss <> [].
Proof.
  destruct lss as [|ls lss]; [congruence|]. intros _ H. simpl.
  intros E. apply app_eq_nil in E. destruct E as [E _].
  revert E. apply H. left. reflexivity.
Qed.

Lemma groups_nil_iff_kept ls : groups ls = [] <-> kept_lines ls = [].
Proof.
  rewrite <- groups_lines. split; [intros ->; reflexivity|].
  intros E. destruct (groups ls) as [|g gs] eqn:Eg; [reflexivity|].
  exfalso. revert E. apply concat_not_nil.
  - discriminate.
  - intros x Hx. apply in_map_iff in Hx. destruct Hx as [g' [<- Hg']].
    apply (groups_nonempty ls). rewrite Eg. exact Hg'.
Qed.

Lemma joined_contents_groups gs :
  (forall g, In g gs -> g_lines g <> []) ->
  joined_contents (List.map to_section gs)
  = Str.join Chr.newline (concat (List.map g_lines gs)).
Proof.
  intros H. unfold joined_contents. rewrite List.map_map.
  rewrite <- join_concat.
  - rewrite List.map_map. reflexivity.
  - intros x Hx. apply in_map_iff in Hx. destruct Hx as [g [<- Hg]].
    apply H, Hg.
Qed.

Lemma finalized_nil_iff_kept t :
  finalized t = [] <-> kept_lines (lines t) = [].
Proof.
  rewrite finalized_groups, <- groups_nil_iff_kept.
  destruct (groups (lines t)); simpl; split; congruence.
Qed.
End SegmenterContent.

(** C2, as amended.  For a Basic Latin text the sections hold, in order
    and without repetition, the non-header, non-blank lines that follow the
    first header line; when there is no such line the only section is the
    fallback, named "Full Resume", whose content is the whole text. *)
Theorem sections_hold_lines_after_first_header (t : text)
    (Hlatin : Latin.text_ok t = true) :
  match Seg.kept_lines (Seg.lines t) with
  | [] =>
      exists s, ResumeParserTool._split_into_sections t = [s]
                /\ section_name s = txt "Full Resume"
                /\ content s = t
  | kept =>
      Seg.joined_contents (ResumeParserTool._split_into_sections t)
      = Str.join Chr.newline kept
  end.
Proof.
  rewrite split_into_sections_eq.
  destruct (Seg.kept_lines (Seg.lines t)) as [|k ks] eqn:Ek.
  - apply finalized_nil_iff_kept in Ek. rewrite Ek.
    exists (ResumeParserTool.full_resume t).
    split; [reflexivity | split; reflexivity].
  - assert (Hne : Seg.finalized t <> []).
    { intros E. apply finalized_nil_iff_kept in E. congruence. }
    destruct (Seg.finalized t) as [|s ss] eqn:Ef; [congruence|].
    rewrite <- Ef, finalized_groups, joined_contents_groups.
    + rewrite groups_lines, Ek. reflexivity.
    + apply groups_nonempty.
Qed.

Lemma sections_hold_lines_after_first_header_witness :
  Seg.joined_contents
    (ResumeParserTool._split_into_sections
       (Seg.doc ["hello world"; "SKILLS"; "python rocks"; ""; "- rocq"]))
  = Seg.doc ["python rocks"; "- rocq"].
Proof.
  assert (Hl : Latin.text_ok
                 (Seg.doc ["hello world"; "SKILLS"; "python rocks"; "";
                           "- rocq"]) = true)
    by (vm_compute; reflexivity).
  assert (H := sections_hold_lines_after_first_header _ Hl).
  assert (Ek : Seg.kept_lines
                 (Seg.lines
                    (Seg.doc ["hello world"; "SKILLS"; "python rocks"; "";
                              "- rocq"]))
               = [txt "python rocks"; txt "- rocq"])
    by (vm_compute; reflexivity).
  rewrite Ek in H. exact H.
Defined.

(** C2 as stated fails: a line before the first header is in no section. *)
Lemma line_before_first_header_is_dropped :
  ~ Seg.keeps_every_content_line
      (Seg.doc ["hello world"; "SKILLS"; "python rocks"]).
Proof. unfold Seg.keeps_every_content_line. vm_compute. discriminate. Qed.

(** C3, as amended.  A Basic Latin text none of whose lines matches a
    known section title or the fallback heuristic yields exactly one
    section, named "Full Resume", whose content is the input text
    unchanged. *)
Theorem full_resume_when_no_header (t : text)
    (Hlatin : Latin.text_ok t = true) :
  Seg.no_header_shape t = true ->
  exists s, ResumeParserTool._split_into_sections t = [s]
            /\ section_name s = txt "Full Resume"
            /\ content s = t.
Proof.
  intros H. exists (ResumeParserTool.full_resume t).
  split; [|split; reflexivity].
  rewrite split_into_sections_eq, finalized_groups.
  assert (Hg : Seg.groups (Seg.lines t) = []); [|rewrite Hg; reflexivity].
  unfold Seg.no_header_shape in H. rewrite forallb_forall in H.
  induction (Seg.lines t) as [|l ls IH]; [reflexivity|]. simpl.
  assert (Hl := H l (or_introl eq_refl)).
  apply andb_true_iff in Hl. destruct Hl as [Hk Hs].
  apply negb_true_iff in Hk, Hs.
  unfold Seg.opens_section, ResumeParserTool._is_section_header.
  rewrite Hk, Hs. simpl.
  apply IH. intros x Hx. apply H. right. exact Hx.
Qed.

Lemma full_resume_when_no_header_witness :
  exists s, ResumeParserTool._split_into_sections (txt " abc") = [s]
            /\ section_name s = txt "Full Resume"
            /\ content s = txt " abc".
Proof. apply (full_resume_when_no_header (txt " abc")); reflexivity. Defined.

(** C3 as stated fails: the fallback content is not trimmed. *)
Lemma fallback_content_is_not_trimmed :
  ~ Seg.fallback_is_trimmed (txt " abc").
Proof.
  intros H. destruct (H eq_refl) as [s [Hs [_ Hc]]].
  vm_compute in Hs. injection Hs as <-. vm_compute in Hc. discriminate.
Qed.

(** ** The fallback section *)

Section Fallback.
Import ResumeParserTool Seg.






End Fallback.



(** ** Running the segmenter on its own output *)

Section Idempotence.
Import ResumeParserTool Seg.

Lemma wf_mono ls ls' g : (forall l, In l ls -> In l ls') -> wf ls g -> wf ls' g.
Proof.
  intros Hsub (Ho & Hne & Hc & Hh & Hl).
  split; [exact Ho|]. split; [exact Hne|]. split; [exact Hc|].
  split; [apply Hsub, Hh|]. eapply List.Forall_impl; [|exact Hl]. auto.
Qed.

Lemma content_line_iff l :
  is_content_line l = true <-> opens_section l = None /\ is_blank l = false.
Proof.
  unfold is_content_line, is_header_line. rewrite andb_true_iff.
  destruct (opens_section l), (is_blank l); simpl; intuition congruence.
Qed.

Lemma wf_emit ls h n acc g :
  opens_section h = Some n ->
  List.Forall (fun l => is_content_line l = true) acc ->
  In h ls -> (forall l, In l acc -> In l ls) ->
  In g (emit h n acc) -> wf ls g.
Proof.
  intros Hh Hacc Hin Hsub. destruct acc as [|a acc]; [intros []|].
  intros [<-|[]]. unfold wf. cbn [g_header g_name g_lines].
  split; [exact Hh|]. split; [discriminate|]. split; [exact Hacc|].
  split; [exact Hin|]. apply List.Forall_forall. exact Hsub.
Qed.

Lemma group_from_wf ls : forall h n acc g,
  opens_section h = Some n ->
  List.Forall (fun l => is_content_line l = true) acc ->
  In g (group_from h n acc ls) ->
  wf (h :: acc ++ ls) g.
Proof.
  induction ls as [|l ls IH]; intros h n acc g Hh Hacc; cbn [group_from].
  - apply wf_emit; auto; [left; reflexivity|].
    intros x Hx. right. apply in_or_app. left. exact Hx.
  - destruct (opens_section l) as [n'|] eqn:Ho.
    + rewrite in_app_iff. intros [H|H].
      * revert H. apply wf_emit; auto; [left; reflexivity|].
        intros x Hx. right. apply in_or_app. left. exact Hx.
      * apply (IH l n' [] g Ho (List.Forall_nil _)) in H.
        eapply wf_mono; [|exact H]. intros x Hx. right.
        apply in_or_app. right. exact Hx.
    + destruct (is_blank l) eqn:Hb; intros H.
      * apply (IH h n acc g Hh Hacc) in H.
        eapply wf_mono; [|exact H]. intros x [<-|Hx]; [left; reflexivity|].
        right. apply in_app_or in Hx. apply in_or_app.
        destruct Hx; [left | right; right]; assumption.
      * apply (IH h n (acc ++ [l]) g Hh) in H.
        -- eapply wf_mono; [|exact H]. intros x [<-|Hx]; [left; reflexivity|].
           right. rewrite <- app_assoc in Hx. exact Hx.
        -- apply List.Forall_app. split; [exact Hacc|].
           constructor; [|constructor].
           apply content_line_iff. split; assumption.
Qed.

Lemma groups_wf ls g : In g (groups ls) -> wf ls g.
Proof.
  induction ls as [|l ls IH]; simpl; [tauto|].
  destruct (opens_section l) as [n'|] eqn:Ho; intros H.
  - apply (group_from_wf ls l n' [] g Ho (List.Forall_nil _)) in H. exact H.
  - eapply wf_mono; [|apply IH, H]. intros x Hx. right. exact Hx.
Qed.






End Idempotence.



(** ** Section names *)

Section SectionNames.
Import ResumeParserTool Names.

(** The chain of tests of [_normalize_section_name] is a first-match
    lookup in the ordered table. *)
Lemma normalize_is_lookup header :
  _normalize_section_name header =
    match lookup_name (normal header) with
    | Some name => txt name
    | None => Str.title (normal header)
    end.
Proof.
  unfold _normalize_section_name, lookup_name, canonical_names, normal.
  cbn [List.find mentions existsb fst snd].
  set (h := Str.upper (Str.rstrip_colon (Str.strip header))).
  repeat rewrite orb_false_r.
  repeat match goal with
  | |- context [Str.contains ?w h] => destruct (Str.contains w h); cbn
  end; reflexivity.
Qed.

Lemma rstrip_with_id p s :
  forallb (fun c => negb (p c)) s = true -> Str.rstrip_with p s = s.
Proof.
  induction s as [|c s IH]; [reflexivity|]. simpl.
  rewrite andb_true_iff. intros [Hc Hs]. rewrite (IH Hs).
  destruct s; [|reflexivity]. apply negb_true_iff in Hc. rewrite Hc.
  reflexivity.
Qed.

Lemma contains_char_false c s :
  Str.contains [c] s = false -> forallb (fun x => negb (c =? x)) s = true.
Proof.
  induction s as [|x s IH]; [reflexivity|]. simpl.
  rewrite andb_true_r. destruct (c =? x); simpl; [discriminate|]. exact IH.
Qed.

Lemma rstrip_colon_without_colon line :
  Str.contains [Chr.colon] line = false -> Str.rstrip_colon line = line.
Proof. intros H. apply rstrip_with_id, contains_char_false, H. Qed.
End SectionNames.

(** C4, as amended.  A Basic Latin header line matched by a known
    section-title pattern is named by the ordered substring tests on the stripped,
    upper-cased header, the first successful test deciding: a header that
    contains EXPERIENCE or EMPLOYMENT is named "Work Experience" when it
    contains none of SUMMARY, PROFILE and OBJECTIVE, which are tested
    before.  The header "WORK EXPERIENCE" is named "Work Experience" and
    the header "Core Competencies" is named "Skills". *)
Theorem known_header_name_by_ordered_tests :
  (forall line, Latin.text_ok line = true ->
     ResumeParserTool.known_header line = true ->
     ResumeParserTool._is_section_header line =
       (true, Some match Names.lookup_name (Names.normal line) with
                   | Some name => txt name
                   | None => Str.title (Names.normal line)
                   end))
  /\ (forall line, Latin.text_ok line = true ->
       ResumeParserTool.known_header line = true ->
       Names.mentions ["SUMMARY"; "PROFILE"; "OBJECTIVE"]%string
         (Names.normal line) = false ->
       Names.mentions ["EXPERIENCE"; "EMPLOYMENT"]%string
         (Names.normal line) = true ->
       ResumeParserTool._is_section_header line
       = (true, Some (txt "Work Experience")))
  /\ ResumeParserTool._is_section_header (txt "WORK EXPERIENCE")
     = (true, Some (txt "Work Experience"))
  /\ ResumeParserTool._is_section_header (txt "Core Competencies")
     = (true, Some (txt "Skills")).
Proof.
  assert (H : forall line, ResumeParserTool.known_header line = true ->
     ResumeParserTool._is_section_header line =
       (true, Some match Names.lookup_name (Names.normal line) with
                   | Some name => txt name
                   | None => Str.title (Names.normal line)
                   end)).
  { intros line Hk. unfold ResumeParserTool._is_section_header.
    rewrite Hk, normalize_is_lookup. reflexivity. }
  split; [intros line _; exact (H line)|]. split; [|split; reflexivity].
  intros line _ Hk Hs He. rewrite (H line Hk).
  unfold Names.lookup_name, Names.canonical_names.
  cbn [List.find fst]. rewrite Hs, He. reflexivity.
Qed.

Lemma known_header_name_by_ordered_tests_witness :
  ResumeParserTool._is_section_header (txt "Employment History:")
  = (true, Some (txt "Work Experience")).
Proof.
  destruct known_header_name_by_ordered_tests as (_ & H & _).
  apply H; reflexivity.
Defined.

(** C4 as stated fails: "SUMMARY" is tested before "EXPERIENCE". *)
Lemma summary_of_experience_is_a_summary :
  ~ Names.experience_is_work_experience (txt "SUMMARY OF EXPERIENCE").
Proof.
  intros H. specialize (H eq_refl eq_refl). vm_compute in H. discriminate.
Qed.

(** C7, as amended.  A Basic Latin header line found by the fallback
    heuristic only (no known pattern matches it) is named by its own text,
    case unchanged, without trailing colons and surrounding blanks. *)
Theorem heuristic_header_keeps_its_text (line : text)
    (Hlatin : Latin.text_ok line = true) :
  ResumeParserTool.known_header line = false ->
  ResumeParserTool.header_shaped line = true ->
  ResumeParserTool._is_section_header line
  = (true, Some (Str.strip (Str.rstrip_colon line))).
Proof.
  intros Hk Hs. unfold ResumeParserTool._is_section_header.
  rewrite Hk, Hs.
  destruct (Str.contains [Chr.colon] line) eqn:Hc; [reflexivity|].
  rewrite (rstrip_colon_without_colon _ Hc). reflexivity.
Qed.

Lemma heuristic_header_keeps_its_text_witness :
  ResumeParserTool._is_section_header (txt "CONTACT INFO:")
  = (true, Some (txt "CONTACT INFO")).
Proof.
  apply (heuristic_header_keeps_its_text (txt "CONTACT INFO:")); reflexivity.
Defined.

(** C7 as stated fails: an upper-case header keeps its upper case. *)
Lemma upper_case_header_is_not_title_cased :
  ~ Names.heuristic_name_is_title_case (txt "CONTACT INFO").
Proof.
  intros H. specialize (H eq_refl eq_refl). vm_compute in H. discriminate.
Qed.

(** ** The match score *)

Section MatchScore.
Import Score.

Lemma startswith_spec p s :
  Str.startswith p s = true <-> exists suf, s = p ++ suf.
Proof.
  revert s. induction p as [|a p IH]; intros s; simpl.
  - split; [intros _; exists s; reflexivity | reflexivity].
  - destruct s as [|b s].
    + split; [discriminate | intros [suf H]; discriminate].
    + rewrite andb_true_iff, IH, N.eqb_eq. split.
      * intros [-> [suf ->]]. exists suf. reflexivity.
      * intros [suf [= -> ->]]. split; [reflexivity | exists suf; reflexivity].
Qed.

(** Python's [in] on strings decides the substring relation. *)
Lemma contains_spec needle hay :
  Str.contains needle hay = true <-> occurs_in needle hay.
Proof.
  unfold occurs_in. induction hay as [|c hay IH]; simpl.
  - rewrite orb_false_r, startswith_spec. split.
    + intros [suf H]. exists [], suf. exact H.
    + intros [pre [suf H]]. symmetry in H.
      apply app_eq_nil in H. destruct H as [-> H].
      apply app_eq_nil in H. destruct H as [-> ->].
      exists []. reflexivity.
  - rewrite orb_true_iff, startswith_spec, IH. split.
    + intros [[suf H]|[pre [suf H]]].
      * exists [], suf. exact H.
      * exists (c :: pre), suf. rewrite H. reflexivity.
    + intros [[|x pre] [suf H]].
      * left. exists suf. exact H.
      * right. injection H as -> ->. exists pre, suf. reflexivity.
Qed.

Lemma matched_count_acc resume_lower items : forall acc,
  fold_left
    (fun acc item =>
       if Str.contains (Str.lower item) resume_lower then S acc else acc)
    items acc
  = (acc + matched_count resume_lower items)%nat.
Proof.
  unfold matched_count.
  induction items as [|x items IH]; intros acc; simpl; [lia|].
  rewrite IH. symmetry. rewrite IH.
  destruct (Str.contains _ _); lia.
Qed.

Lemma matched_count_cons resume_lower x items :
  matched_count resume_lower (x :: items) =
    if Str.contains (Str.lower x) resume_lower
    then S (matched_count resume_lower items)
    else matched_count resume_lower items.
Proof.
  unfold matched_count at 1. simpl. rewrite matched_count_acc.
  destruct (Str.contains _ _); reflexivity.
Qed.

(** The loop counts the requirements found in the resume. *)
Lemma matched_count_counts resume items :
  counts (found_in resume) items (matched_count (Str.lower resume) items).
Proof.
  induction items as [|x items IH]; [constructor|].
  rewrite matched_count_cons.
  destruct (Str.contains _ _) eqn:E.
  - apply counts_hit; [apply contains_spec, E | exact IH].
  - apply counts_miss; [|exact IH].
    unfold found_in. rewrite <- contains_spec, E. discriminate.
Qed.


End MatchScore.



(** ** Contact extraction *)

(** C5.  On the text of the specification's example the e-mail address is
    found, but the phone entry is the empty string: [PHONE_PATTERN] has a
    capture group (the optional country code), so [re.findall] reports
    that group, which takes no part in the match of "415-555-0100". *)
Theorem contact_example_phone_is_empty :
  exists m,
    ResumeParserTool._extract_contact_info
      (txt "Reach me at jane.doe@example.com or 415-555-0100") = Ok m
    /\ m !! "email"%string = Some (txt "jane.doe@example.com")
    /\ m !! "phone"%string = Some (txt "")
    /\ Re.findall false ResumeParserTool.PHONE_PATTERN
         (txt "Reach me at jane.doe@example.com or 415-555-0100") = [txt ""]
    /\ option_map Re.whole
         (Re.search false ResumeParserTool.PHONE_PATTERN
            (txt "Reach me at jane.doe@example.com or 415-555-0100"))
       = Some (txt "415-555-0100").
Proof.
  eexists. split; [vm_compute; reflexivity|].
  repeat split; vm_compute; reflexivity.
Qed.

(** ** The matcher *)

Section Repetition.
Import Re ReSpec.
Variables (ic : bool) (a : atom).

Lemma rep_match_stop lo prev s g k :
  head_ok ic a s = false ->
  rep_match ic a lo None prev s g k =
    match lo with O => k (MState prev s g) | S _ => None end.
Proof.
  destruct s as [|c t]; [reflexivity|]. simpl. intros ->. reflexivity.
Qed.

(** When the continuation rejects the characters of the run, the
    repetition can only stop at the end of the run. *)
Lemma rep_match_run ws : forall lo prev s' g k,
  forallb (atom_ok ic a) ws = true ->
  head_ok ic a s' = false ->
  rejects ic a k ->
  rep_match ic a lo None prev (ws ++ s') g k =
    if (lo <=? length ws)%nat then k (MState (advance prev ws) s' g) else None.
Proof.
  induction ws as [|w ws IH]; intros lo prev s' g k Hws Hs' Hk.
  - simpl app. rewrite (rep_match_stop _ _ _ _ _ Hs').
    destruct lo; reflexivity.
  - simpl in Hws. apply andb_true_iff in Hws. destruct Hws as [Hw Hws].
    simpl. rewrite Hw. simpl.
    rewrite (IH _ _ _ _ _ Hws Hs' Hk).
    destruct lo as [|lo]; simpl.
    + rewrite (Hk _ _ _ _ Hw). destruct (k _); reflexivity.
    + destruct (lo <=? length ws)%nat; [|reflexivity].
      destruct (k _); reflexivity.
Qed.

(** Greedy: when the continuation succeeds at the end of the run, that is
    the result. *)
Lemma rep_match_greedy ws : forall lo prev s' g k r,
  forallb (atom_ok ic a) ws = true ->
  head_ok ic a s' = false ->
  (lo <= length ws)%nat ->
  k (MState (advance prev ws) s' g) = Some r ->
  rep_match ic a lo None prev (ws ++ s') g k = Some r.
Proof.
  induction ws as [|w ws IH]; intros lo prev s' g k r Hws Hs' Hlo Hk.
  - simpl app. rewrite (rep_match_stop _ _ _ _ _ Hs').
    simpl in Hlo. destruct lo; [exact Hk | lia].
  - simpl in Hws. apply andb_true_iff in Hws. destruct Hws as [Hw Hws].
    simpl. rewrite Hw. simpl.
    rewrite (IH (Nat.pred lo) (Some w) s' g k r Hws Hs'); [reflexivity| |exact Hk].
    simpl in Hlo. lia.
Qed.

(** Backing off by one character when the continuation fails at the end
    of the run and succeeds one character earlier. *)
Lemma rep_match_back_off ws : forall lo prev w s' g k r,
  forallb (atom_ok ic a) ws = true ->
  atom_ok ic a w = true ->
  head_ok ic a s' = false ->
  (lo <= length ws)%nat ->
  k (MState (Some w) s' g) = None ->
  k (MState (advance prev ws) (w :: s') g) = Some r ->
  rep_match ic a lo None prev (ws ++ w :: s') g k = Some r.
Proof.
  induction ws as [|x ws IH]; intros lo prev w s' g k r Hws Hw Hs' Hlo Hf Hk.
  - simpl. rewrite Hw. simpl.
    rewrite (rep_match_stop _ _ _ _ _ Hs').
    simpl in Hlo. assert (lo = O) by lia. subst lo. simpl.
    rewrite Hf. exact Hk.
  - simpl in Hws. apply andb_true_iff in Hws. destruct Hws as [Hx Hws].
    simpl. rewrite Hx. simpl.
    rewrite (IH (Nat.pred lo) (Some x) w s' g k r Hws Hw Hs'); auto.
    simpl in Hlo. lia.
Qed.

(** A repetition that succeeds has called its continuation, with the
    group untouched. *)
Lemma rep_match_calls s : forall lo hi prev g k r,
  rep_match ic a lo hi prev s g k = Some r ->
  exists st', k st' = Some r /\ group1 st' = g.
Proof.
  induction s as [|c t IH]; intros lo hi prev g k r; simpl.
  - destruct lo; [|discriminate]. intros H. eexists. split; [exact H|reflexivity].
  - assert (Hstop : match lo with O => k (MState prev (c :: t) g) | S _ => None end
                    = Some r -> exists st', k st' = Some r /\ group1 st' = g).
    { destruct lo; [|discriminate]. intros H. eexists. split; [exact H|reflexivity]. }
    destruct (atom_ok ic a c && hi_open hi); [|exact Hstop].
    destruct (rep_match ic a (Nat.pred lo) (hi_pred hi) (Some c) t g k) eqn:E;
      [|exact Hstop].
    intros [= ->]. exact (IH _ _ _ _ _ _ E).
Qed.
End Repetition.

Section Groups.
Import Re ReSpec.
Variable ic : bool.

(** A match that succeeds has called its continuation; the group is set
    there if the pattern sets it on every path or it was set before. *)
Lemma rmatch_calls r : forall st k res,
  rmatch ic r st k = Some res ->
  exists st', k st' = Some res /\
    (sets_group r || is_some (group1 st) = true -> is_some (group1 st') = true).
Proof.
  induction r as [|a|r1 IH1 r2 IH2|r1 IH1 r2 IH2|r1 IH1|a lo hi|r1 IH1| | |];
    intros st k res; simpl.
  - intros H. exists st. split; [exact H | auto].
  - destruct (rest st) as [|c t]; [discriminate|].
    destruct (atom_ok ic a c); [|discriminate].
    intros H. eexists. split; [exact H | auto].
  - intros H. apply IH1 in H. destruct H as [st1 [H P1]].
    apply IH2 in H. destruct H as [st2 [H P2]].
    exists st2. split; [exact H|]. intros Hs. apply P2.
    destruct (sets_group r2); [reflexivity|]. simpl. apply P1.
    rewrite orb_false_r in Hs. exact Hs.
  - destruct (rmatch ic r1 st k) eqn:E.
    + intros [= ->]. apply IH1 in E. destruct E as [st1 [H P1]].
      exists st1. split; [exact H|]. intros Hs. apply P1.
      destruct (sets_group r1); [reflexivity|]. exact Hs.
    + intros H. apply IH2 in H. destruct H as [st2 [H P2]].
      exists st2. split; [exact H|]. intros Hs. apply P2.
      destruct (sets_group r2); [reflexivity|].
      rewrite andb_false_r in Hs. exact Hs.
  - destruct (rmatch ic r1 st k) eqn:E.
    + intros [= ->]. apply IH1 in E. destruct E as [st1 [H P1]].
      exists st1. split; [exact H|]. intros Hs. apply P1.
      destruct (sets_group r1); [reflexivity|]. exact Hs.
    + intros H. exists st. split; [exact H | auto].
  - intros H. apply rep_match_calls in H. destruct H as [st' [H Hg]].
    exists st'. split; [exact H|]. rewrite Hg. auto.
  - intros H. apply IH1 in H. destruct H as [st1 [H _]].
    eexists. split; [exact H | reflexivity].
  - destruct (before st); [discriminate|]. intros H. exists st. auto.
  - destruct (rest st) as [|c [|c' t]]; try discriminate.
    + intros H. exists st. auto.
    + destruct (c =? Chr.newline); [|discriminate]. intros H. exists st. auto.
  - destruct (xorb _ _); [|discriminate]. intros H. exists st. auto.
Qed.

Lemma match_sets_group r s m :
  sets_group r = true -> match_ ic r s = Some m -> is_some (grp m) = true.
Proof.
  unfold match_, match_at. intros Hs.
  destruct (rmatch ic r (MState None s None) Some) as [st|] eqn:E; [|discriminate].
  intros [= <-]. simpl. apply rmatch_calls in E.
  destruct E as [st' [[= ->] P]]. apply P. rewrite Hs. reflexivity.
Qed.
End Groups.

(** In every match of a bullet pattern the group has taken part, so
    [match.group(1)] is a string. *)
Lemma bullet_group_takes_part pattern line m :
  In pattern ResumeParserTool.bullet_patterns ->
  Re.match_ false pattern line = Some m ->
  is_some (Re.grp m) = true.
Proof.
  intros Hp. apply match_sets_group.
  destruct Hp as [<-|[<-|[<-|[]]]]; reflexivity.
Qed.

(** ** Bullets *)

Section Stripping.
Variable p : char -> bool.

Lemma lstrip_cons c s :
  Str.lstrip_with p (c :: s) = if p c then Str.lstrip_with p s else c :: s.
Proof. reflexivity. Qed.

Lemma lstrip_run s :
  exists ws, s = ws ++ Str.lstrip_with p s /\ forallb p ws = true.
Proof.
  induction s as [|c s [ws [E H]]]; [exists []; split; reflexivity|].
  simpl. destruct (p c) eqn:Hc.
  - exists (c :: ws). simpl. rewrite Hc, H, <- E. split; reflexivity.
  - exists []. split; reflexivity.
Qed.

Lemma lstrip_head s : Str.starts_with p (Str.lstrip_with p s) = false.
Proof.
  induction s as [|c s IH]; [reflexivity|]. simpl.
  destruct (p c) eqn:Hc; [exact IH|]. simpl. exact Hc.
Qed.

Lemma lstrip_app ws s :
  forallb p ws = true -> Str.lstrip_with p (ws ++ s) = Str.lstrip_with p s.
Proof.
  induction ws as [|w ws IH]; [reflexivity|]. simpl.
  rewrite andb_true_iff. intros [-> H]. exact (IH H).
Qed.

Lemma lstrip_fixed s : Str.starts_with p s = false -> Str.lstrip_with p s = s.
Proof. destruct s as [|c s]; [reflexivity|]. simpl. intros ->. reflexivity. Qed.

Lemma rstrip_all ws : forallb p ws = true -> Str.rstrip_with p ws = [].
Proof.
  induction ws as [|w ws IH]; [reflexivity|]. simpl.
  rewrite andb_true_iff. intros [-> H]. rewrite (IH H). reflexivity.
Qed.
End Stripping.

Lemma strip_blank_prefix ws body :
  forallb Chr.isspace ws = true ->
  Str.starts_with Chr.isspace body = false ->
  Str.strip (ws ++ body) = Str.strip body.
Proof.
  intros Hws Hb. unfold Str.strip.
  rewrite (lstrip_app _ _ _ Hws). reflexivity.
Qed.

Lemma strip_blanks ws : forallb Chr.isspace ws = true -> Str.strip ws = [].
Proof.
  intros H. rewrite <- (app_nil_r ws).
  rewrite (strip_blank_prefix ws [] H eq_refl). reflexivity.
Qed.

Section BulletLines.
Import Re ReSpec ResumeParserTool Bullets.

Lemma rmatch_seq ic r1 r2 st k :
  rmatch ic (Seq r1 r2) st k = rmatch ic r1 st (fun st' => rmatch ic r2 st' k).
Proof. reflexivity. Qed.

Lemma rmatch_bol ic s g k :
  rmatch ic Bol (MState None s g) k = k (MState None s g).
Proof. reflexivity. Qed.

Lemma rmatch_rep ic a lo hi p s g k :
  rmatch ic (Rep a lo hi) (MState p s g) k = rep_match ic a lo hi p s g k.
Proof. reflexivity. Qed.

Lemma dot_line_eol x p g :
  one_line x = true ->
  rmatch false (Seq (Grp (plus ADot)) Eol) (MState p x g) Some =
    match x with
    | [] => None
    | _ => Some (MState (advance p x) [] (Some x))
    end.
Proof.
  intros Hx. unfold plus. cbn [rmatch rest before group1].
  destruct x as [|c x']; [reflexivity|].
  set (x := c :: x') in *.
  set (K := fun st' : mstate =>
              rmatch false Eol
                (MState (before st') (rest st')
                   (Some (take (length x - length (rest st')) x))) Some).
  assert (H := rep_match_greedy false ADot x 1 p [] g K
                 (MState (advance p x) [] (Some x)) Hx eq_refl).
  rewrite app_nil_r in H. apply H.
  - subst x. simpl. lia.
  - subst K. cbn [rmatch rest before group1 length].
    rewrite Nat.sub_0_r, firstn_all. reflexivity.
Qed.

Lemma one_line_app a b :
  one_line (a ++ b) = true -> one_line a = true /\ one_line b = true.
Proof. unfold one_line. rewrite forallb_app, andb_true_iff. tauto. Qed.

Lemma body_of_blank w more :
  Chr.isspace w = true -> more <> [] ->
  body_of (w :: more) = Some (Str.strip (w :: more)).
Proof.
  intros Hw Hm. destruct more; [congruence|].
  unfold body_of. rewrite Hw. reflexivity.
Qed.

Lemma body_of_not_blank b more :
  Chr.isspace b = false -> body_of (b :: more) = None.
Proof.
  intros Hb. destruct more; [reflexivity|].
  unfold body_of. rewrite Hb. reflexivity.
Qed.

(** After the marker: blanks, then the captured rest of the line. *)
Lemma body_match rest p g :
  one_line rest = true ->
  option_map (fun st => Str.strip (group_text st))
    (rmatch false (Seq (plus ASpace) (Seq (Grp (plus ADot)) Eol))
       (MState p rest g) Some)
  = body_of rest.
Proof.
  intros Hrest.
  destruct (lstrip_run Chr.isspace rest) as [ws [E Hws]].
  assert (Hb := lstrip_head Chr.isspace rest).
  remember (Str.lstrip_with Chr.isspace rest) as body eqn:Eb. clear Eb.
  subst rest. destruct (one_line_app _ _ Hrest) as [Hlw Hlb].
  unfold plus at 1. rewrite rmatch_seq, rmatch_rep.
  set (K := fun st' : mstate =>
              rmatch false (Seq (Grp (plus ADot)) Eol) st' Some).
  destruct body as [|b body'].
  - (* the line ends with the blanks *)
    rewrite app_nil_r in *.
    destruct ws as [|x ws0] using rev_ind; [reflexivity|]. clear IHws0.
    rewrite forallb_app in Hws. apply andb_true_iff in Hws.
    destruct Hws as [Hws0 Hx]. simpl in Hx. rewrite andb_true_r in Hx.
    destruct (one_line_app _ _ Hlw) as [Hl0 Hl1].
    destruct ws0 as [|y ws0'].
    + simpl. rewrite Hx. reflexivity.
    + rewrite (rep_match_back_off false ASpace (y :: ws0') 1 p x [] g K
                 (MState (advance (advance p (y :: ws0')) [x]) [] (Some [x])));
        try assumption; try reflexivity.
      * cbn [option_map]. unfold group_text. cbn [group1].
        assert (Hall : forallb Chr.isspace ((y :: ws0') ++ [x]) = true).
        { rewrite forallb_app, Hws0. simpl. rewrite Hx. reflexivity. }
        rewrite (strip_blanks [x]) by (simpl; rewrite Hx; reflexivity).
        change ((y :: ws0') ++ [x]) with (y :: (ws0' ++ [x])) in *.
        rewrite body_of_blank.
        -- rewrite (strip_blanks _ Hall). reflexivity.
        -- simpl in Hws0. apply andb_true_iff in Hws0. tauto.
        -- destruct ws0'; discriminate.
      * simpl. lia.
      * subst K. cbv beta. rewrite (dot_line_eol [x] _ g Hl1). reflexivity.
  - (* a body follows the blanks *)
    simpl in Hb.
    destruct ws as [|w ws'].
    + simpl app. rewrite rep_match_stop by exact Hb.
      rewrite (body_of_not_blank _ _ Hb). reflexivity.
    + rewrite (rep_match_greedy false ASpace (w :: ws') 1 p (b :: body') g K
                 (MState (advance (advance p (w :: ws')) (b :: body')) []
                    (Some (b :: body'))));
        try assumption.
      * cbn [option_map]. unfold group_text. cbn [group1].
        rewrite <- (strip_blank_prefix (w :: ws') (b :: body') Hws Hb).
        change ((w :: ws') ++ b :: body') with (w :: (ws' ++ b :: body')).
        symmetry. apply body_of_blank.
        -- simpl in Hws. apply andb_true_iff in Hws. tauto.
        -- destruct ws'; discriminate.
      * simpl. lia.
      * subst K. cbv beta. rewrite (dot_line_eol (b :: body') _ g Hlb).
        reflexivity.
Qed.

Lemma glyph_ok c : atom_ok false bullet_glyphs c = is_glyph c.
Proof.
  unfold bullet_glyphs, is_glyph, atom_ok. cbn [existsb citem_mem andb xorb].
  rewrite !orb_false_r. reflexivity.
Qed.

Lemma digit_not_dot c : Chr.isdigit c = true -> (c =? ch ".") = false.
Proof.
  unfold Chr.isdigit. rewrite andb_true_iff, !N.leb_le. intros [H1 H2].
  apply N.eqb_neq. intros ->. vm_compute in H1. congruence.
Qed.

Lemma blank_not_marker m c t :
  Chr.isspace c = true -> after_marker m (c :: t) = None.
Proof.
  unfold Chr.isspace. rewrite orb_true_iff, !andb_true_iff, !N.leb_le.
  intros H. destruct m; cbn [after_marker].
  - replace (is_glyph c) with false; [reflexivity|].
    symmetry. unfold is_glyph. cbn [existsb]. rewrite !orb_false_iff.
    repeat split; try reflexivity; apply N.eqb_neq; lia.
  - replace (c =? ch "*") with false; [reflexivity|].
    symmetry. apply N.eqb_neq. change (ch "*") with 42. lia.
  - replace (Chr.isdigit c) with false; [reflexivity|].
    symmetry. unfold Chr.isdigit. rewrite andb_false_iff, !N.leb_gt. lia.
Qed.

(** What follows a marker is the end of the string it starts. *)
Lemma after_marker_suffix m s rest :
  after_marker m s = Some rest -> exists pre, s = pre ++ rest.
Proof.
  destruct s as [|c t]; [destruct m; discriminate|].
  destruct m; cbn [after_marker].
  - destruct (is_glyph c); [|discriminate]. intros [= ->]. exists [c]. reflexivity.
  - destruct (c =? ch "*"); [|discriminate]. intros [= ->]. exists [c]. reflexivity.
  - destruct (Chr.isdigit c) eqn:Hc; [|discriminate].
    rewrite lstrip_cons, Hc.
    destruct (lstrip_run Chr.isdigit t) as [ds [E _]].
    destruct (Str.lstrip_with Chr.isdigit t) as [|d r]; [discriminate|].
    destruct (d =? ch "."); [|discriminate]. intros [= ->].
    exists (c :: ds ++ [d]). rewrite E at 1. simpl. rewrite <- app_assoc.
    reflexivity.
Qed.

(** The marker is read in one way only: the rest of the pattern goes on
    right after it. *)
Lemma marker_match m p s g K :
  exists p',
    rmatch false (marker_regex m) (MState p s g) K =
      match after_marker m s with
      | Some rest => K (MState p' rest g)
      | None => None
      end.
Proof.
  destruct m; cbn [marker_regex].
  - destruct s as [|c t]; [exists None; reflexivity|].
    exists (Some c). cbn [rmatch rest group1 after_marker].
    rewrite glyph_ok. destruct (is_glyph c); reflexivity.
  - destruct s as [|c t]; [exists None; reflexivity|].
    exists (Some c). cbn [rmatch rest group1 after_marker atom_ok].
    destruct (c =? ch "*"); reflexivity.
  - unfold plus. rewrite rmatch_seq, rmatch_rep.
    set (Kdot := fun st' : mstate => rmatch false (Atom (ALit (ch "."))) st' K).
    assert (Hrej : rejects false ADigit Kdot).
    { intros p0 c t g0 Hc. subst Kdot. cbn [rmatch rest atom_ok].
      cbn [atom_ok] in Hc. rewrite (digit_not_dot _ Hc). reflexivity. }
    destruct s as [|c t]; [exists None; reflexivity|].
    cbn [after_marker].
    destruct (Chr.isdigit c) eqn:Hc.
    + destruct (lstrip_run Chr.isdigit t) as [ds [E Hds]].
      assert (Hh := lstrip_head Chr.isdigit t).
      exists (head (Str.lstrip_with Chr.isdigit t)).
      assert (E' : c :: t = (c :: ds) ++ Str.lstrip_with Chr.isdigit t)
        by (simpl; rewrite <- E; reflexivity).
      rewrite E' at 1.
      rewrite (rep_match_run false ADigit (c :: ds) 1 p _ g Kdot); auto.
      * simpl length. cbn [Nat.leb]. subst Kdot. cbv beta.
        rewrite lstrip_cons, Hc.
        destruct (Str.lstrip_with Chr.isdigit t) as [|d r]; [reflexivity|].
        cbn [rmatch rest group1 atom_ok head].
        destruct (d =? ch "."); reflexivity.
      * simpl. rewrite Hc. exact Hds.
    + exists None. rewrite rep_match_stop by exact Hc. reflexivity.
Qed.

(** One bullet pattern on one line. *)
Lemma bullet_line_match m line :
  one_line line = true ->
  option_map (fun mo => Str.strip (group1_text mo))
    (match_ false (bullet_line (marker_regex m)) line)
  = bullet_as m line.
Proof.
  intros Hline. unfold match_, match_at, bullet_as, bullet_line.
  cbn [seqs]. rewrite rmatch_seq, rmatch_bol. cbv beta.
  unfold star. rewrite rmatch_seq, rmatch_rep.
  set (T := Seq (plus ASpace) (Seq (Grp (plus ADot)) Eol)).
  set (K1 := fun st' : mstate => rmatch false (Seq (marker_regex m) T) st' Some).
  assert (Hrej : rejects false ASpace K1).
  { intros p0 c t g0 Hc. subst K1. cbv beta. rewrite rmatch_seq.
    destruct (marker_match m p0 (c :: t) g0
                (fun st' => rmatch false T st' Some)) as [p' ->].
    rewrite (blank_not_marker m c t Hc). reflexivity. }
  destruct (lstrip_run Chr.isspace line) as [ws [E Hws]].
  assert (Hh := lstrip_head Chr.isspace line).
  remember (Str.lstrip_with Chr.isspace line) as s1 eqn:Es1. clear Es1.
  subst line.
  rewrite (rep_match_run false ASpace ws 0 None s1 None K1 Hws Hh Hrej).
  cbn [Nat.leb]. subst K1. cbv beta. rewrite rmatch_seq.
  destruct (marker_match m (advance None ws) s1 None
              (fun st' => rmatch false T st' Some)) as [p' ->].
  destruct (after_marker m s1) as [rest|] eqn:Em; [|reflexivity].
  apply after_marker_suffix in Em. destruct Em as [pre ->].
  apply one_line_app in Hline. destruct Hline as [_ Hline].
  apply one_line_app in Hline. destruct Hline as [_ Hrest].
  rewrite <- (body_match rest p' None Hrest). subst T.
  destruct (rmatch false _ (MState p' rest None) Some); reflexivity.
Qed.

Lemma bullet_patterns_kinds :
  bullet_patterns
  = List.map (fun m => bullet_line (marker_regex m)) marker_kinds.
Proof. reflexivity. Qed.

(** The loop over the patterns: the first kind of marker that gives a
    bullet, if any. *)
Lemma line_bullets_spec ms line :
  one_line line = true ->
  line_bullets (List.map (fun m => bullet_line (marker_regex m)) ms) line
  = option_list (first_bullet ms line).
Proof.
  intros Hline. induction ms as [|m ms IH]; [reflexivity|].
  cbn [List.map line_bullets first_bullet].
  rewrite <- (bullet_line_match m line Hline).
  destruct (match_ false (bullet_line (marker_regex m)) line); [reflexivity|].
  exact IH.
Qed.

Lemma split_one_line t line :
  In line (Str.split Chr.newline t) -> one_line line = true.
Proof.
  intros H. apply split_no_sep in H. unfold one_line.
  apply forallb_forall. intros c Hc. cbn [atom_ok].
  apply negb_true_iff, N.eqb_neq. intros ->. exact (H Hc).
Qed.
End BulletLines.

Section BulletText.
Import Re ReSpec ResumeParserTool Bullets.

Lemma body_of_some rest b : body_of rest = Some b -> b = Str.strip rest.
Proof.
  destruct rest as [|w [|x rest']]; try discriminate.
  unfold body_of. destruct (Chr.isspace w); [|discriminate].
  intros [= <-]. reflexivity.
Qed.

Lemma first_bullet_some ms line b :
  first_bullet ms line = Some b ->
  exists m, In m ms /\ bullet_as m line = Some b.
Proof.
  induction ms as [|m ms IH]; [discriminate|]. cbn [first_bullet].
  destruct (bullet_as m line) as [b'|] eqn:E.
  - intros [= <-]. exists m. split; [left; reflexivity | exact E].
  - intros H. destruct (IH H) as [m' [Hin Hm']].
    exists m'. split; [right; exact Hin | exact Hm'].
Qed.


Lemma flat_map_line_bullets ls :
  (forall l, In l ls -> one_line l = true) ->
  flat_map (line_bullets bullet_patterns) ls
  = flat_map (fun line => option_list (bullet_text line)) ls.
Proof.
  induction ls as [|l ls IH]; intros H; [reflexivity|]. cbn [flat_map].
  rewrite IH by (intros x Hx; apply H; right; exact Hx).
  rewrite bullet_patterns_kinds, line_bullets_spec by (apply H; left; reflexivity).
  reflexivity.
Qed.


End BulletText.

Section MarkerKinds.
Import Re ReSpec ResumeParserTool Bullets.






End MarkerKinds.



(** ** No exception *)

Section NoException.
Import ResumeParserTool.

Lemma extract_contact_info_total t :
  exists m, _extract_contact_info t = Ok m.
Proof.
  unfold _extract_contact_info.
  destruct (Re.findall false EMAIL_PATTERN t) as [|e es];
    cbn [list_truthy getitem0 bind];
  destruct (Re.findall false PHONE_PATTERN t) as [|p ps];
    cbn [list_truthy getitem0 bind];
  destruct (Re.findall true LINKEDIN_PATTERN t) as [|l ls];
    cbn [list_truthy getitem0 bind];
  destruct (Re.findall false URL_PATTERN t) as [|u us];
    cbn [list_truthy getitem0 bind];
  try (destruct (List.filter _ (u :: us)) as [|o os];
       cbn [list_truthy getitem0 bind]);
  eexists; reflexivity.
Qed.
End NoException.

(** C6.  No input makes the parser or the scorer raise: contact
    extraction and [parse_resume] return normally on every text, the
    sections are never empty, the group read by the bullet loop is always
    there; on an empty or blank text the result is the single fallback
    section and an empty contact mapping; the scorer returns normally and
    gives [0.0] for an empty requirement list. *)
Theorem parser_and_scorer_never_raise :
  (forall t, exists m, ResumeParserTool._extract_contact_info t = Ok m)
  /\ (forall t, exists r,
        ResumeParserTool.parse_resume t = Ok r
        /\ raw_text r = t
        /\ sections r = ResumeParserTool._split_into_sections t
        /\ sections r <> [])
  /\ (forall pattern line m,
        In pattern ResumeParserTool.bullet_patterns ->
        Re.match_ false pattern line = Some m ->
        is_some (Re.grp m) = true)
  /\ ResumeParserTool.parse_resume []
     = Ok (mkParsedResume [] [ResumeParserTool.full_resume []] ∅)
  /\ ResumeParserTool.parse_resume (txt "   ")
     = Ok (mkParsedResume (txt "   ")
             [ResumeParserTool.full_resume (txt "   ")] ∅)
  /\ (forall resume ja, exists score, calculate_match_score resume ja = Ok score)
  /\ (forall resume ja,
        Score.requirements ja = [] ->
        calculate_match_score resume ja = Ok Float.zero).
Proof.
  split; [exact extract_contact_info_total|].
  split; [|split; [exact bullet_group_takes_part|]].
  - intros t. unfold ResumeParserTool.parse_resume.
    destruct (extract_contact_info_total t) as [m ->]. cbn [bind].
    eexists. split; [reflexivity|]. cbn [raw_text sections].
    split; [reflexivity|]. split; [reflexivity|].
    rewrite split_into_sections_eq. destruct (Seg.finalized t); discriminate.
  - split; [vm_compute; reflexivity|]. split; [vm_compute; reflexivity|].
    split.
    + intros resume ja. unfold calculate_match_score.
      destruct (_ ++ _ ++ _); eexists; reflexivity.
    + intros resume ja. unfold calculate_match_score, Score.requirements.
      intros ->. reflexivity.
Qed.

Lemma empty_requirements_score_zero :
  calculate_match_score (txt "anything at all")
    (Score.job []%string []%string []%string)
  = Ok Float.zero.
Proof.
  destruct parser_and_scorer_never_raise as (_ & _ & _ & _ & _ & _ & H).
  apply H. reflexivity.
Defined.

(** ** Keyword extraction *)

Section SubstringFacts.
Import Score.

Lemma occurs_in_refl x : occurs_in x x.
Proof. exists [], []. rewrite app_nil_r. reflexivity. Qed.

Lemma occurs_in_trans a b c : occurs_in a b -> occurs_in b c -> occurs_in a c.
Proof.
  intros [p1 [s1 ->]] [p2 [s2 ->]]. exists (p2 ++ p1), (s1 ++ s2).
  rewrite <- !app_assoc. reflexivity.
Qed.

Lemma occurs_in_app_l a b c : occurs_in a b -> occurs_in a (b ++ c).
Proof.
  intros [p [s ->]]. exists p, (s ++ c). rewrite <- !app_assoc. reflexivity.
Qed.

Lemma occurs_in_app_r a b c : occurs_in a c -> occurs_in a (b ++ c).
Proof.
  intros [p [s ->]]. exists (b ++ p), s. rewrite <- !app_assoc. reflexivity.
Qed.

Lemma occurs_in_lower a b :
  occurs_in a b -> occurs_in (Str.lower a) (Str.lower b).
Proof.
  intros [p [s ->]]. exists (Str.lower p), (Str.lower s).
  unfold Str.lower. rewrite !List.map_app. reflexivity.
Qed.

Lemma occurs_in_join_str sep parts x :
  In x parts -> occurs_in x (StrMore.join_str sep parts).
Proof.
  induction parts as [|p ps IH]; [intros []|].
  intros [->|Hin].
  - destruct ps; [apply occurs_in_refl|].
    cbn [StrMore.join_str]. apply occurs_in_app_l, occurs_in_refl.
  - destruct ps as [|q ps]; [destruct Hin|].
    cbn [StrMore.join_str]. cbn [StrMore.join_str] in IH.
    apply occurs_in_app_r, occurs_in_app_r, IH, Hin.
Qed.

Lemma eqb_eq a b : StrMore.eqb a b = true <-> a = b.
Proof.
  revert b. induction a as [|x a IH]; intros [|y b]; simpl;
    try (split; [discriminate | congruence]); [tauto|].
  rewrite andb_true_iff, N.eqb_eq, IH. split; [intros [-> ->] | intros [= -> ->]]; auto.
Qed.

Lemma distinct_NoDup l : StrMore.distinct l = true -> List.NoDup l.
Proof.
  induction l as [|x l IH]; simpl; [constructor|].
  rewrite andb_true_iff, negb_true_iff. intros [Hx Hl].
  constructor; [|exact (IH Hl)].
  intros Hin. apply not_true_iff_false in Hx. apply Hx.
  apply existsb_exists. exists x. split; [exact Hin | apply eqb_eq; reflexivity].
Qed.

Lemma filter_sublist {A} (f : A -> bool) l : sublist (List.filter f l) l.
Proof.
  induction l as [|x l IH]; simpl; [constructor|].
  destruct (f x); [apply sublist_skip | apply sublist_cons]; exact IH.
Qed.
End SubstringFacts.

(** X1.  On a Basic Latin text [extract_keywords] returns exactly the
    keywords of the table that occur in the text, case ignored, in the
    order of the table and each at most once. *)
Theorem extract_keywords_spec (t : text)
    (Hlatin : Latin.text_ok t = true) :
  sublist (Keywords.extract_keywords t) (List.map txt Keywords.common_keywords)
  /\ List.NoDup (Keywords.extract_keywords t)
  /\ (forall k, In k (Keywords.extract_keywords t) <->
        In k (List.map txt Keywords.common_keywords) /\ Score.found_in t k).
Proof.
  unfold Keywords.extract_keywords. split; [apply filter_sublist|]. split.
  - apply List.NoDup_filter, distinct_NoDup. vm_compute. reflexivity.
  - intros k. rewrite filter_In. unfold Score.found_in.
    rewrite contains_spec. reflexivity.
Qed.

Lemma extract_keywords_spec_witness :
  In (txt "SQL") (Keywords.extract_keywords (txt "sql and docker"))
  /\ ~ In (txt "Python") (Keywords.extract_keywords (txt "sql and docker")).
Proof.
  assert (Hl : Latin.text_ok (txt "sql and docker") = true)
    by (vm_compute; reflexivity).
  destruct (extract_keywords_spec _ Hl) as (_ & _ & H). split.
  - apply (H (txt "SQL")). split.
    + vm_compute. do 4 right. left. reflexivity.
    + exists [], (txt " and docker"). vm_compute. reflexivity.
  - intros Hin. apply (H (txt "Python")) in Hin. destruct Hin as [_ Hf].
    unfold Score.found_in in Hf. rewrite <- contains_spec in Hf.
    vm_compute in Hf. discriminate.
Defined.

Lemma extract_keywords_In t k :
  In k (Keywords.extract_keywords t) <->
  In k (List.map txt Keywords.common_keywords) /\ Score.found_in t k.
Proof.
  unfold Keywords.extract_keywords. rewrite filter_In. unfold Score.found_in.
  rewrite contains_spec. reflexivity.
Qed.

(** X2.  Matching is by plain substring, so a keyword of the table that is
    contained (case ignored) in a keyword that was found is found as well:
    "JavaScript" brings "Java", "Project Management" brings "Management". *)
Theorem extract_keywords_contained_keyword (t a b : text) :
  In a (List.map txt Keywords.common_keywords) ->
  In b (Keywords.extract_keywords t) ->
  Score.occurs_in (Str.lower a) (Str.lower b) ->
  In a (Keywords.extract_keywords t).
Proof.
  intros Ha Hb Hab.
  apply extract_keywords_In in Hb. destruct Hb as [_ Hb].
  apply extract_keywords_In. split; [exact Ha|].
  exact (occurs_in_trans _ _ _ Hab Hb).
Qed.

Lemma extract_keywords_contained_keyword_witness :
  In (txt "Java") (Keywords.extract_keywords (txt "I write javascript daily")).
Proof.
  apply (extract_keywords_contained_keyword _ (txt "Java") (txt "JavaScript")).
  - vm_compute. right; left; reflexivity.
  - vm_compute. right; left; reflexivity.
  - exists [], (txt "script"). vm_compute. reflexivity.
Defined.

(** ** The tailoring agent *)

Section TailorFacts.
Import Score StrMore Tailor.

Lemma take_In {A} n (l : list A) x : In x (take n l) -> In x l.
Proof.
  revert l. induction n as [|n IH]; intros [|y l]; simpl; try tauto.
  intros [->|H]; [left; reflexivity | right; exact (IH _ H)].
Qed.

Lemma mock_has_skills original ja skill :
  In skill (take 5 (hard_skills ja)) ->
  occurs_in skill (_mock_tailoring original ja).
Proof.
  intros Hin. unfold _mock_tailoring.
  apply occurs_in_app_r, occurs_in_app_r, occurs_in_app_r, occurs_in_app_l.
  apply occurs_in_join_str, Hin.
Qed.

Lemma mock_has_original original ja :
  occurs_in original (_mock_tailoring original ja).
Proof.
  unfold _mock_tailoring.
  do 9 apply occurs_in_app_r. apply occurs_in_app_l, occurs_in_refl.
Qed.

Lemma filter_length_count resume_lower items :
  length (List.filter (fun k => Str.contains (Str.lower k) resume_lower) items)
  = matched_count resume_lower items.
Proof.
  induction items as [|x items IH]; [reflexivity|].
  rewrite matched_count_cons. simpl.
  destruct (Str.contains _ _); simpl; rewrite IH; reflexivity.
Qed.

Lemma startswith_other_head c c' p s :
  c <> c' -> Str.startswith (c :: p) (c' :: s) = false.
Proof. intros H. simpl. apply N.eqb_neq in H. rewrite H. reflexivity. Qed.
End TailorFacts.

(** X3.  The mock tailoring keeps the original resume verbatim and spells
    out each of the first five hard skills, so each of them is found in
    its output. *)
Theorem mock_tailoring_keeps_resume_and_skills
    (original : text) (ja : JobAnalysis) :
  Score.occurs_in original (Tailor._mock_tailoring original ja)
  /\ (forall skill, In skill (take 5 (hard_skills ja)) ->
        Score.occurs_in skill (Tailor._mock_tailoring original ja)
        /\ Score.found_in (Tailor._mock_tailoring original ja) skill).
Proof.
  split; [apply mock_has_original|].
  intros skill Hin. split; [exact (mock_has_skills _ _ _ Hin)|].
  apply occurs_in_lower, mock_has_skills, Hin.
Qed.

Lemma mock_tailoring_keeps_resume_and_skills_witness :
  Score.found_in
    (Tailor._mock_tailoring (txt "Ten years of plumbing.")
       (Score.job ["Python"; "AWS"]%string []%string []%string))
    (txt "AWS").
Proof.
  apply (mock_tailoring_keeps_resume_and_skills
           (txt "Ten years of plumbing.")
           (Score.job ["Python"; "AWS"]%string []%string []%string)).
  vm_compute. right; left; reflexivity.
Defined.

(** X4.  For a resume and keywords of Basic Latin text,
    [identify_matched_keywords] returns, in their order, exactly the
    keywords found in the resume (case ignored, duplicates kept), and
    their number is the count [calculate_match_score] works with: when the
    keyword list is the requirement list, the score is
    [round((len(matched) / n) * 100, 1)]. *)
Theorem identify_matched_keywords_spec (resume : text)
    (all_keywords : list text)
    (Hresume : Latin.text_ok resume = true)
    (Hkeywords : Latin.texts_ok all_keywords = true) :
  sublist (Tailor.identify_matched_keywords resume all_keywords) all_keywords
  /\ (forall k, In k (Tailor.identify_matched_keywords resume all_keywords) <->
        In k all_keywords /\ Score.found_in resume k)
  /\ Score.counts (Score.found_in resume) all_keywords
       (length (Tailor.identify_matched_keywords resume all_keywords))
  /\ (forall ja, Score.requirements ja = all_keywords ->
        calculate_match_score resume ja
        = Ok (if (length all_keywords =? 0)%nat then Float.zero
              else Score.percentage
                     (length (Tailor.identify_matched_keywords resume all_keywords))
                     (length all_keywords))).
Proof.
  unfold Tailor.identify_matched_keywords.
  split; [apply filter_sublist|]. split; [|split].
  - intros k. rewrite filter_In. unfold Score.found_in.
    rewrite contains_spec. reflexivity.
  - rewrite filter_length_count. apply matched_count_counts.
  - intros ja <-. rewrite filter_length_count.
    unfold calculate_match_score. fold (Score.requirements ja).
    destruct (Score.requirements ja); reflexivity.
Qed.

Lemma identify_matched_keywords_spec_witness :
  calculate_match_score (txt "Python and SQL")
    (Score.job ["python"; "Rust"]%string []%string ["SQL"]%string)
  = Ok (Score.percentage 2 3).
Proof.
  destruct (identify_matched_keywords_spec (txt "Python and SQL")
              [txt "python"; txt "Rust"; txt "SQL"]) as (_ & _ & _ & H);
    [vm_compute; reflexivity .. |].
  rewrite (H (Score.job ["python"; "Rust"]%string []%string ["SQL"]%string) eq_refl).
  vm_compute. reflexivity.
Defined.

(** X5.  [generate_suggestions] gives at most four suggestions.  For a
    tailored resume and a job analysis of Basic Latin text, whenever each
    of the first five hard skills occurs in the tailored resume (case
    ignored) none of the suggestions asks to add experience; the output of
    the mock tailoring of a Basic Latin resume is such a text. *)
Theorem generate_suggestions_spec (str_of_list : list text -> text)
    (original tailored : text) (ja : JobAnalysis) :
  (length (Tailor.generate_suggestions str_of_list original tailored ja) <= 4)%nat
  /\ (Latin.text_ok tailored = true -> Latin.job_ok ja = true ->
      (forall skill, In skill (take 5 (hard_skills ja)) ->
         Score.found_in tailored skill) ->
      forall s, In s (Tailor.generate_suggestions str_of_list original tailored ja) ->
        Str.startswith (txt "Consider adding experience with: ") s = false)
  /\ (Latin.text_ok original = true -> Latin.job_ok ja = true ->
      forall s,
        In s (Tailor.generate_suggestions str_of_list original
                (Tailor._mock_tailoring original ja) ja) ->
        Str.startswith (txt "Consider adding experience with: ") s = false).
Proof.
  assert (Hgen : forall tl,
    (forall skill, In skill (take 5 (hard_skills ja)) -> Score.found_in tl skill) ->
    forall s, In s (Tailor.generate_suggestions str_of_list original tl ja) ->
      Str.startswith (txt "Consider adding experience with: ") s = false).
  { intros tl Hall s. unfold Tailor.generate_suggestions.
    assert (Hm : List.filter
                   (fun skill => negb (Str.contains (Str.lower skill) (Str.lower tl)))
                   (take 5 (hard_skills ja)) = []).
    { induction (take 5 (hard_skills ja)) as [|x l IH]; [reflexivity|]. simpl.
      assert (Hx : Str.contains (Str.lower x) (Str.lower tl) = true)
        by (apply contains_spec, Hall; left; reflexivity).
      rewrite Hx. simpl. apply IH. intros k Hk. apply Hall. right. exact Hk. }
    rewrite Hm. cbn [list_truthy app].
    destruct (negb (existsb Chr.isdigit tl));
    destruct (matched_count (Str.lower tl) (action_verbs ja) <? 3)%nat;
    destruct (list_truthy (qualifications ja) && _);
    try destruct (negb (Str.contains (txt "certif") (Str.lower tl)));
    cbn [app In]; intros H;
    repeat (destruct H as [<-|H]; [reflexivity|]); destruct H. }
  split; [|split].
  - unfold Tailor.generate_suggestions.
    destruct (list_truthy (List.filter _ _));
    destruct (negb (existsb Chr.isdigit tailored));
    destruct (matched_count (Str.lower tailored) (action_verbs ja) <? 3)%nat;
    destruct (list_truthy (qualifications ja)); cbn [andb];
    try destruct (Str.contains (txt "certification") _);
    try destruct (negb (Str.contains (txt "certif") (Str.lower tailored)));
    cbn [app length]; lia.
  - intros _ _. apply Hgen.
  - intros _ _. apply Hgen. intros skill Hin.
    apply occurs_in_lower, mock_has_skills, Hin.
Qed.

Lemma generate_suggestions_spec_witness :
  Str.startswith (txt "Consider adding experience with: ")
    (txt "Add quantifiable metrics and numbers to your achievements for greater impact")
  = false.
Proof.
  destruct (generate_suggestions_spec (fun _ => [])
              (txt "Plumber.") (txt "Plumber.")
              (Score.job ["Python"]%string []%string []%string))
    as (_ & _ & H).
  apply H.
  - vm_compute. reflexivity.
  - vm_compute. reflexivity.
  - vm_compute. left; reflexivity.
Defined.

Section StripPadding.
Variable p : char -> bool.

Lemma rstrip_app_run s ws :
  forallb p ws = true -> Str.rstrip_with p (s ++ ws) = Str.rstrip_with p s.
Proof.
  intros Hws. induction s as [|c s IH]; simpl.
  - apply rstrip_all, Hws.
  - rewrite IH. reflexivity.
Qed.

Lemma lstrip_all ws : forallb p ws = true -> Str.lstrip_with p ws = [].
Proof.
  induction ws as [|w ws IH]; [reflexivity|]. simpl.
  rewrite andb_true_iff. intros [-> H]. exact (IH H).
Qed.

Lemma lstrip_app_r s ws :
  forallb p ws = true ->
  Str.lstrip_with p (s ++ ws) = Str.lstrip_with p s ++ ws
  \/ (Str.lstrip_with p (s ++ ws) = [] /\ Str.lstrip_with p s = []).
Proof.
  intros Hws. induction s as [|c s IH]; simpl.
  - right. split; [apply lstrip_all, Hws | reflexivity].
  - destruct (p c); [exact IH | left; reflexivity].
Qed.
End StripPadding.

(** Blanks around a text do not change what [strip] returns. *)
Lemma strip_padding ws s ws' :
  forallb Chr.isspace ws = true -> forallb Chr.isspace ws' = true ->
  Str.strip (ws ++ s ++ ws') = Str.strip s.
Proof.
  intros Hws Hws'. unfold Str.strip. rewrite (lstrip_app _ _ _ Hws).
  destruct (lstrip_app_r Chr.isspace s ws' Hws') as [->|[-> ->]].
  - apply rstrip_app_run, Hws'.
  - reflexivity.
Qed.

(** X6.  For a resume of Basic Latin text, [tailor_resume] raises its
    [ValueError] exactly when the resume, stripped of surrounding blanks,
    has fewer than 100 characters, whatever the model client, the job and
    the padding; without a model client a longer resume comes back inside
    the mock tailoring, verbatim. *)
Theorem tailor_resume_outcome {E} (SYSTEM_PROMPT : text)
    (client : option (text -> text -> E + text))
    (original : text) (ja : JobAnalysis) (jd : option text)
    (Hlatin : Latin.text_ok original = true) :
  ((exists msg,
      Tailor.tailor_resume SYSTEM_PROMPT client original ja jd
      = Tailor.ValueError msg)
   <-> (length (Str.strip original) < 100)%nat)
  /\ (forall ws ws',
        forallb Chr.isspace ws = true -> forallb Chr.isspace ws' = true ->
        (length (Str.strip original) < 100)%nat ->
        exists msg,
          Tailor.tailor_resume SYSTEM_PROMPT client (ws ++ original ++ ws') ja jd
          = Tailor.ValueError msg)
  /\ ((100 <= length (Str.strip original))%nat ->
      exists t,
        Tailor.tailor_resume (E:=E) SYSTEM_PROMPT None original ja jd
        = Tailor.Returned t
        /\ Score.occurs_in original t).
Proof.
  assert (Hguard : forall o,
    (exists msg, Tailor.tailor_resume SYSTEM_PROMPT client o ja jd
                 = Tailor.ValueError msg)
    <-> (length (Str.strip o) < 100)%nat).
  { intros o. unfold Tailor.tailor_resume.
    destruct (Nat.ltb_spec (length (Str.strip o)) 100) as [Hlt|Hge].
    - split; [intros _; exact Hlt | intros _; eexists; reflexivity].
    - split; [|lia]. intros [msg H].
      destruct client as [generate|]; [|discriminate].
      destruct (generate _ _); discriminate. }
  split; [apply Hguard|]. split.
  - intros ws ws' Hws Hws' Hlt. apply Hguard.
    rewrite strip_padding by assumption. exact Hlt.
  - intros Hge. unfold Tailor.tailor_resume.
    destruct (Nat.ltb_spec (length (Str.strip original)) 100) as [Hlt|_]; [lia|].
    eexists. split; [reflexivity | apply mock_has_original].
Qed.

Lemma tailor_resume_outcome_witness :
  exists msg,
    Tailor.tailor_resume (E:=unit) (txt "system") None
      (txt "   " ++ txt "Too short." ++ txt "      ")%list
      (Score.job ["Python"]%string []%string []%string) None
    = Tailor.ValueError msg.
Proof.
  assert (Hl : Latin.text_ok (txt "Too short.") = true)
    by (vm_compute; reflexivity).
  destruct (tailor_resume_outcome (E:=unit) (txt "system") None
              (txt "Too short.")
              (Score.job ["Python"]%string []%string []%string) None Hl)
    as (_ & H & _).
  apply (H (txt "   ") (txt "      ")).
  - vm_compute. reflexivity.
  - vm_compute. reflexivity.
  - vm_compute. lia.
Defined.

(** ** More on the segmenter *)

Section SectionInvariant.
Import ResumeParserTool Seg.

Lemma join_not_nil sep l ls : l <> [] -> Str.join sep (l :: ls) <> [].
Proof.
  intros Hl. destruct ls; simpl; [exact Hl|].
  destruct l; [congruence | discriminate].
Qed.

Lemma content_line_not_nil l : is_content_line l = true -> l <> [].
Proof.
  intros H ->. apply content_line_iff in H. destruct H as [_ H].
  vm_compute in H. discriminate.
Qed.

Lemma emit_length h n acc : (length (emit h n acc) <= 1)%nat.
Proof. destruct acc; simpl; lia. Qed.

Lemma group_from_count ls : forall h n acc,
  (length (group_from h n acc ls)
   <= 1 + length (List.filter is_header_line ls))%nat.
Proof.
  induction ls as [|l ls IH]; intros h n acc; cbn [group_from List.filter].
  - assert (H := emit_length h n acc). simpl. lia.
  - unfold is_header_line at 1.
    destruct (opens_section l) as [n'|]; cbn [is_some].
    + rewrite length_app. assert (H := emit_length h n acc).
      specialize (IH l n' []). simpl. lia.
    + apply IH.
Qed.

Lemma groups_count ls :
  (length (groups ls) <= length (List.filter is_header_line ls))%nat.
Proof.
  induction ls as [|l ls IH]; cbn [groups List.filter]; [simpl; lia|].
  unfold is_header_line at 1.
  destruct (opens_section l) as [n'|]; cbn [is_some].
  - assert (H := group_from_count ls l n' []). simpl. lia.
  - exact IH.
Qed.

Lemma length_concat_ge {A} (lss : list (list A)) :
  (forall ls, In ls lss -> ls <> []) -> (length lss <= length (concat lss))%nat.
Proof.
  induction lss as [|ls lss IH]; intros H; simpl; [lia|].
  rewrite length_app. assert (Hl : ls <> []) by (apply H; left; reflexivity).
  assert (IH' := IH (fun x Hx => H x (or_intror Hx))).
  destruct ls; [congruence|]. simpl. lia.
Qed.
End SectionInvariant.

(** X7.  Every section the segmenter returns for a Basic Latin text
    carries the bullets of its own content, and unless it is the fallback it has a non-empty name
    given by a header line of the text and a non-empty content made of
    lines of the text that are neither blank nor headers. *)
Theorem section_invariant (t : text) (s : ResumeSection)
    (Hlatin : Latin.text_ok t = true) :
  In s (ResumeParserTool._split_into_sections t) ->
  bullet_points s = ResumeParserTool._extract_bullet_points (content s)
  /\ (s = ResumeParserTool.full_resume t
      \/ (section_name s <> []
          /\ content s <> []
          /\ (exists header, In header (Seg.lines t)
                /\ Seg.opens_section header = Some (section_name s))
          /\ (forall l, In l (Str.split Chr.newline (content s)) ->
                In l (Seg.lines t) /\ Seg.is_content_line l = true))).
Proof.
  rewrite split_into_sections_eq.
  destruct (Seg.finalized t) as [|s0 ss] eqn:Ef.
  - intros [<-|[]]. split; [reflexivity | left; reflexivity].
  - rewrite <- Ef, finalized_groups. intros Hin.
    apply in_map_iff in Hin. destruct Hin as [g [<- Hg]].
    split; [reflexivity | right].
    destruct (groups_wf _ _ Hg) as (Ho & Hne & Hc & Hh & Hl).
    unfold Seg.to_section, ResumeParserTool._create_section.
    cbn [section_name content].
    rewrite List.Forall_forall in Hc, Hl.
    split; [|split; [|split]].
    + apply opens_section_truthy in Ho. intros E. rewrite E in Ho. discriminate.
    + destruct (Seg.g_lines g) as [|l ls] eqn:El; [congruence|].
      apply join_not_nil, content_line_not_nil, Hc. left. reflexivity.
    + exists (Seg.g_header g). split; assumption.
    + rewrite split_join; [auto | exact Hne |].
      intros l Hin. apply (split_no_sep Chr.newline t), Hl, Hin.
Qed.

Lemma section_invariant_witness :
  bullet_points (ResumeParserTool._create_section (txt "Skills") [txt "- python"])
  = [txt "python"].
Proof.
  destruct (section_invariant (Seg.doc ["SKILLS"; "- python"]%string)
              (ResumeParserTool._create_section (txt "Skills") [txt "- python"]))
    as [H _].
  - vm_compute. reflexivity.
  - vm_compute. left. reflexivity.
  - rewrite H. vm_compute. reflexivity.
Defined.

(** X8.  For a Basic Latin text: unless it is the single fallback, the
    list of sections is no longer than the number of header lines of the text and no longer than
    the number of its non-blank, non-header lines. *)
Theorem sections_bounded_by_headers (t : text)
    (Hlatin : Latin.text_ok t = true) :
  ResumeParserTool._split_into_sections t = [ResumeParserTool.full_resume t]
  \/ ((length (ResumeParserTool._split_into_sections t)
       <= length (List.filter Seg.is_header_line (Seg.lines t)))%nat
      /\ (length (ResumeParserTool._split_into_sections t)
          <= length (List.filter Seg.is_content_line (Seg.lines t)))%nat).
Proof.
  rewrite split_into_sections_eq.
  destruct (Seg.finalized t) as [|s0 ss] eqn:Ef; [left; reflexivity | right].
  rewrite <- Ef, finalized_groups, length_map. split.
  - apply groups_count.
  - assert (H1 := length_concat_ge (List.map Seg.g_lines (Seg.groups (Seg.lines t)))).
    rewrite length_map, groups_lines in H1.
    assert (H2 : (length (Seg.kept_lines (Seg.lines t))
                  <= length (List.filter Seg.is_content_line (Seg.lines t)))%nat).
    { unfold Seg.kept_lines. clear.
      induction (Seg.lines t) as [|l ls IH]; [simpl; lia|].
      cbn [Seg.after_first_header List.filter].
      destruct (Seg.is_header_line l) eqn:Hl.
      - rewrite (header_not_content _ Hl). lia.
      - destruct (Seg.is_content_line l); simpl; lia. }
    etransitivity; [apply H1 | exact H2].
    intros ls Hls. apply in_map_iff in Hls. destruct Hls as [g [<- Hg]].
    exact (groups_nonempty _ _ Hg).
Qed.

Lemma sections_bounded_by_headers_witness :
  (length (ResumeParserTool._split_into_sections
             (Seg.doc ["SKILLS"; "- python"; "Education"; "PROJECTS"; "rocq"]))
   <= 3)%nat.
Proof.
  assert (Hl : Latin.text_ok
                 (Seg.doc ["SKILLS"; "- python"; "Education"; "PROJECTS";
                           "rocq"]) = true)
    by (vm_compute; reflexivity).
  destruct (sections_bounded_by_headers _ Hl) as [H|[H _]].
  - rewrite H. simpl. lia.
  - etransitivity; [exact H|]. vm_compute. lia.
Defined.

(** ** More on contact extraction *)

Section ContactFields.
Import ResumeParserTool.
Local Open Scope string_scope.

(** The entries of the contact mapping, key by key. *)
Lemma contact_fields t m :
  _extract_contact_info t = Ok m ->
  m !! "email" = head (Re.findall false EMAIL_PATTERN t)
  /\ m !! "phone" = head (Re.findall false PHONE_PATTERN t)
  /\ m !! "linkedin"
     = option_map (fun l => (txt "https://" ++ l)%list)
         (head (Re.findall true LINKEDIN_PATTERN t))
  /\ m !! "website"
     = head (List.filter
               (fun url => negb (Str.contains (txt "linkedin.com") (Str.lower url)))
               (Re.findall false URL_PATTERN t))
  /\ m !! "name" = find_name (take 5 (Str.split Chr.newline t))
  /\ (forall k, k <> "email" -> k <> "phone" -> k <> "linkedin" ->
                k <> "website" -> k <> "name" -> m !! k = None).
Proof.
  unfold _extract_contact_info.
  destruct (Re.findall false EMAIL_PATTERN t) as [|e es];
  destruct (Re.findall false PHONE_PATTERN t) as [|p ps];
  destruct (Re.findall true LINKEDIN_PATTERN t) as [|l ls];
  destruct (Re.findall false URL_PATTERN t) as [|u us];
  cbn [list_truthy getitem0 bind head option_map];
  try (destruct (List.filter _ (u :: us)) as [|o os];
       cbn [list_truthy getitem0 bind head]);
  destruct (find_name _) as [n|];
  intros [= <-]; repeat split; try (intros k H1 H2 H3 H4 H5);
  simplify_map_eq; reflexivity.
Qed.
End ContactFields.

Section ContactName.
Import ResumeParserTool.

Lemma find_name_spec lines n :
  find_name lines = Some n ->
  exists before line after,
    lines = before ++ line :: after
    /\ n = Str.strip line
    /\ name_candidate n = true
    /\ (forall l, In l before -> name_candidate (Str.strip l) = false).
Proof.
  induction lines as [|l ls IH]; [discriminate|]. cbn [find_name].
  destruct (name_candidate (Str.strip l)) eqn:E.
  - intros [= <-]. exists [], l, ls. repeat split; auto. intros ? [].
  - intros H. destruct (IH H) as (b & line & a & -> & Hn & Hc & Hb).
    exists (l :: b), line, a. repeat split; auto.
    intros x [<-|Hx]; [exact E | exact (Hb x Hx)].
Qed.

Lemma find_name_none lines :
  find_name lines = None ->
  forall l, In l lines -> name_candidate (Str.strip l) = false.
Proof.
  induction lines as [|l ls IH]; [intros _ ? []|]. cbn [find_name].
  destruct (name_candidate (Str.strip l)) eqn:E; [discriminate|].
  intros H x [<-|Hx]; [exact E | exact (IH H x Hx)].
Qed.
End ContactName.

(** X10.  For a Basic Latin text, a name in the contact mapping is the
    stripped text of the first
    of the first five lines that passes the name test: it is not empty,
    shorter than 50 characters, free of digits and of "@", and in title
    case or upper case; no name is stored exactly when none of the five
    lines passes. *)
Theorem contact_name_spec (t : text) (m : gmap string text)
    (Hlatin : Latin.text_ok t = true) :
  ResumeParserTool._extract_contact_info t = Ok m ->
  (forall n, m !! "name"%string = Some n ->
     (exists before line after,
        take 5 (Str.split Chr.newline t) = before ++ line :: after
        /\ n = Str.strip line
        /\ (forall l, In l before ->
              ResumeParserTool.name_candidate (Str.strip l) = false))
     /\ n <> []
     /\ (length n < 50)%nat
     /\ existsb Chr.isdigit n = false
     /\ Str.contains [Chr.at_sign] n = false
     /\ (Str.istitle n = true \/ Str.isupper n = true))
  /\ (m !! "name"%string = None <->
      forall l, In l (take 5 (Str.split Chr.newline t)) ->
        ResumeParserTool.name_candidate (Str.strip l) = false).
Proof.
  intros Hm. destruct (contact_fields t m Hm) as (_ & _ & _ & _ & Hn & _).
  rewrite Hn. split.
  - intros n Hf.
    destruct (find_name_spec _ _ Hf) as (b & line & a & E & Hs & Hc & Hb).
    split; [exists b, line, a; auto|].
    unfold ResumeParserTool.name_candidate in Hc.
    rewrite !andb_true_iff, !negb_true_iff, orb_true_iff, Nat.ltb_lt in Hc.
    destruct Hc as [[[[[Ht Hlen] Hd] Hcase] Hat] _].
    split; [intros ->; discriminate|]. split; [exact Hlen|].
    split; [exact Hd|]. split; [exact Hat|].
    destruct Hcase as [H|H]; [left; exact H|].
    right. apply andb_true_iff in H. tauto.
  - split; [apply find_name_none|].
    intros H. destruct (ResumeParserTool.find_name _) as [n|] eqn:Hf; [|reflexivity].
    destruct (find_name_spec _ _ Hf) as (b & line & a & E & Hs & Hc & _).
    subst n. rewrite (H line) in Hc; [discriminate|].
    rewrite E. apply in_or_app. right. left. reflexivity.
Qed.

Lemma contact_name_spec_witness :
  (length (txt "Jane Doe") < 50)%nat
  /\ existsb Chr.isdigit (txt "Jane Doe") = false.
Proof.
  assert (Hm : ResumeParserTool._extract_contact_info (txt "Jane Doe")
               = Ok (<["name"%string := txt "Jane Doe"]> ∅))
    by (vm_compute; reflexivity).
  assert (Hl : Latin.text_ok (txt "Jane Doe") = true)
    by (vm_compute; reflexivity).
  destruct (contact_name_spec _ _ Hl Hm) as [H _].
  destruct (H (txt "Jane Doe")) as (_ & _ & Hlen & Hd & _).
  - vm_compute. reflexivity.
  - split; assumption.
Defined.

(** ** What a match consumes *)

Section Soundness.
Import Re ReSpec ReLang.
Variable ic : bool.

Lemma advance_app p a b : advance (advance p a) b = advance p (a ++ b).
Proof. unfold advance. rewrite fold_left_app. reflexivity. Qed.

Lemma rep_match_sound a s : forall lo hi prev g k res,
  rep_match ic a lo hi prev s g k = Some res ->
  exists w s',
    s = w ++ s'
    /\ forallb (atom_ok ic a) w = true
    /\ (lo <= length w)%nat
    /\ (forall h, hi = Some h -> (length w <= h)%nat)
    /\ k (MState (advance prev w) s' g) = Some res.
Proof.
  induction s as [|c t IH]; intros lo hi prev g k res.
  - simpl. destruct lo; [|discriminate]. intros H.
    exists [], []. repeat split; auto; simpl; intros; lia.
  - assert (Hstop :
      match lo with O => k (MState prev (c :: t) g) | S _ => None end = Some res ->
      exists w s', c :: t = w ++ s'
        /\ forallb (atom_ok ic a) w = true /\ (lo <= length w)%nat
        /\ (forall h, hi = Some h -> (length w <= h)%nat)
        /\ k (MState (advance prev w) s' g) = Some res).
    { destruct lo; [|discriminate]. intros H.
      exists [], (c :: t). repeat split; auto; simpl; intros; lia. }
    simpl. destruct (atom_ok ic a c) eqn:Hc; [|exact Hstop].
    destruct (hi_open hi) eqn:Hh; [|exact Hstop]. simpl.
    destruct (rep_match ic a (Nat.pred lo) (hi_pred hi) (Some c) t g k) eqn:E;
      [|exact Hstop].
    intros [= ->]. apply IH in E.
    destruct E as (w & s' & -> & Hw & Hlo & Hhi & Hk).
    exists (c :: w), s'. split; [reflexivity|]. split; [simpl; rewrite Hc; exact Hw|].
    split; [simpl; lia|]. split; [|exact Hk].
    intros h ->. simpl in Hh, Hhi. destruct h as [|h]; [discriminate|].
    specialize (Hhi h eq_refl). simpl. lia.
Qed.

(** A successful match has consumed a word of the pattern's language and
    then called the rest of the pattern. *)
Lemma rmatch_sound r : forall st k res,
  rmatch ic r st k = Some res ->
  exists w nx g',
    rest st = w ++ nx
    /\ den ic r (before st) w nx (group1 st) g'
    /\ k (MState (advance (before st) w) nx g') = Some res.
Proof.
  induction r as [|a|r1 IH1 r2 IH2|r1 IH1 r2 IH2|r1 IH1|a lo hi|r1 IH1| | |];
    intros [p s g] k res; cbn [rmatch before rest group1].
  - intros H. exists [], s, g. repeat split; [constructor | exact H].
  - destruct s as [|c t]; [discriminate|].
    destruct (atom_ok ic a c) eqn:Hc; [|discriminate].
    intros H. exists [c], t, g. repeat split; [constructor; exact Hc | exact H].
  - intros H. apply IH1 in H. cbn [before rest group1] in H.
    destruct H as (w1 & nx1 & g1 & -> & D1 & H).
    apply IH2 in H. cbn [before rest group1] in H.
    destruct H as (w2 & nx & g2 & -> & D2 & H).
    exists (w1 ++ w2), nx, g2. rewrite <- app_assoc. split; [reflexivity|].
    split; [econstructor; eassumption|].
    rewrite <- advance_app. exact H.
  - destruct (rmatch ic r1 (MState p s g) k) eqn:E.
    + intros [= ->]. apply IH1 in E. cbn [before rest group1] in E.
      destruct E as (w & nx & g' & -> & D & H).
      exists w, nx, g'. repeat split; [apply den_alt_l; exact D | exact H].
    + intros H. apply IH2 in H. cbn [before rest group1] in H.
      destruct H as (w & nx & g' & -> & D & H).
      exists w, nx, g'. repeat split; [apply den_alt_r; exact D | exact H].
  - destruct (rmatch ic r1 (MState p s g) k) eqn:E.
    + intros [= ->]. apply IH1 in E. cbn [before rest group1] in E.
      destruct E as (w & nx & g' & -> & D & H).
      exists w, nx, g'. repeat split; [apply den_opt_some; exact D | exact H].
    + intros H. exists [], s, g. repeat split; [apply den_opt_none | exact H].
  - intros H. apply rep_match_sound in H.
    destruct H as (w & s' & -> & Hw & Hlo & Hhi & H).
    exists w, s', g. repeat split; [constructor; assumption | exact H].
  - intros H. apply IH1 in H. cbn [before rest group1] in H.
    destruct H as (w & nx & g' & -> & D & H).
    exists w, nx, (Some w). split; [reflexivity|].
    split; [econstructor; exact D|].
    rewrite length_app, Nat.add_sub, take_app_length in H. exact H.
  - destruct p; [discriminate|]. intros H.
    exists [], s, g. repeat split; [constructor | exact H].
  - destruct s as [|c [|c' t]]; try discriminate.
    + intros H. exists [], [], g. repeat split; [constructor; auto | exact H].
    + destruct (N.eqb_spec c Chr.newline) as [->|]; [|discriminate].
      intros H. exists [], [Chr.newline], g.
      repeat split; [constructor; auto | exact H].
  - destruct (xorb _ _) eqn:X; [|discriminate]. intros H.
    exists [], s, g. repeat split; [constructor; exact X | exact H].
Qed.

Lemma match_at_sound r prev s m :
  match_at ic r prev s = Some m ->
  exists nx, s = whole m ++ nx /\ den ic r prev (whole m) nx None (grp m).
Proof.
  unfold match_at.
  destruct (rmatch ic r (MState prev s None) Some) as [st|] eqn:E; [|discriminate].
  intros [= <-]. apply rmatch_sound in E. cbn [before rest group1] in E.
  destruct E as (w & nx & g' & -> & D & [= <-]). cbn [whole grp rest group1].
  exists nx. rewrite length_app, Nat.add_sub, take_app_length.
  split; [reflexivity | exact D].
Qed.

(** Every item [findall] reports comes from a match at some position of
    the text. *)
Lemma findall_from_sound r s : forall prev skip x,
  In x (findall_from ic r prev s skip) ->
  exists pre s' m,
    s = pre ++ s'
    /\ match_at ic r (advance prev pre) s' = Some m
    /\ x = findall_item r m.
Proof.
  induction s as [|c t IH]; intros prev skip x.
  - destruct skip; [|intros []]. cbn [findall_from].
    destruct (match_at ic r prev []) as [m|] eqn:E; [|intros []].
    intros [<-|[]]. exists [], [], m. repeat split. exact E.
  - assert (Hnext : forall n,
      In x (findall_from ic r (Some c) t n) ->
      exists pre s' m, c :: t = pre ++ s'
        /\ match_at ic r (advance prev pre) s' = Some m /\ x = findall_item r m).
    { intros n H. apply IH in H. destruct H as (pre & s' & m & -> & Hm & Hx).
      exists (c :: pre), s', m. repeat split; assumption. }
    destruct skip as [|n]; cbn [findall_from]; [|apply Hnext].
    destruct (match_at ic r prev (c :: t)) as [m|] eqn:E; [|apply Hnext].
    intros [<-|H]; [|exact (Hnext _ H)].
    exists [], (c :: t), m. repeat split. exact E.
Qed.

Lemma findall_sound r s x :
  In x (findall ic r s) ->
  exists pre s' m,
    s = pre ++ s'
    /\ match_at ic r (advance None pre) s' = Some m
    /\ x = findall_item r m.
Proof. apply findall_from_sound. Qed.

(** A pattern without group leaves the group as it was. *)
Lemma den_no_group r p w nx g g' :
  ngroups r = O -> den ic r p w nx g g' -> g' = g.
Proof.
  intros Hn D. induction D; cbn [ngroups] in Hn; try reflexivity;
    try discriminate; try (apply IHD; lia).
  assert (ngroups r1 = O /\ ngroups r2 = O) as [H1 H2] by lia.
  rewrite (IHD2 H2). apply IHD1, H1.
Qed.

Lemma den_lits_of l : forall p w nx g g',
  den ic (lits_of l) p w nx g g' ->
  g' = g /\ length w = length l
  /\ Forall2 (fun c x => same_char ic c x = true) w l.
Proof.
  induction l as [|x l IH]; intros p w nx g g' D; cbn [lits_of fold_right] in D.
  - inversion D; subst. repeat split. constructor.
  - inversion D as [| |? ? ? w1 w2 ? ? g1 ? D1 D2| | | | | | | | |]; subst.
    inversion D1; subst. apply IH in D2. destruct D2 as (-> & Hlen & HF).
    split; [reflexivity|]. split; [simpl; rewrite Hlen; reflexivity|].
    constructor; assumption.
Qed.
End Soundness.

Section Inversions.
Import Re ReSpec ReLang.
Variable ic : bool.

Lemma den_seq_inv r1 r2 p w nx g g2 :
  den ic (Seq r1 r2) p w nx g g2 ->
  exists w1 w2 g1,
    w = w1 ++ w2
    /\ den ic r1 p w1 (w2 ++ nx) g g1
    /\ den ic r2 (advance p w1) w2 nx g1 g2.
Proof. intros D. inversion D; subst. eauto 7. Qed.

Lemma den_atom_inv a p w nx g g' :
  den ic (Atom a) p w nx g g' ->
  exists c, w = [c] /\ atom_ok ic a c = true /\ g' = g.
Proof. intros D. inversion D; subst. eauto. Qed.

Lemma den_rep_inv a lo hi p w nx g g' :
  den ic (Rep a lo hi) p w nx g g' ->
  forallb (atom_ok ic a) w = true
  /\ (lo <= length w)%nat
  /\ (forall h, hi = Some h -> (length w <= h)%nat)
  /\ g' = g.
Proof. intros D. inversion D; subst. auto. Qed.

Lemma den_opt_inv r p w nx g g' :
  den ic (Opt r) p w nx g g' ->
  (w = [] /\ g' = g) \/ den ic r p w nx g g'.
Proof. intros D. inversion D; subst; auto. Qed.

Lemma den_grp_inv r p w nx g g' :
  den ic (Grp r) p w nx g g' ->
  g' = Some w /\ exists g'', den ic r p w nx g g''.
Proof. intros D. inversion D; subst. eauto. Qed.

Lemma den_wordb_inv p w nx g g' :
  den ic WordB p w nx g g' -> w = [] /\ g' = g.
Proof. intros D. inversion D; subst. auto. Qed.

Lemma den_lits s p w nx g g' :
  den ic (lits s) p w nx g g' ->
  g' = g /\ Forall2 (fun c x => same_char ic c x = true) w (txt s).
Proof.
  intros D. apply (den_lits_of ic (txt s)) in D. tauto.
Qed.
End Inversions.

Section LiteralText.
Import ReLang.

Lemma same_exact : forall w l,
  Forall2 (fun c x => same_char false c x = true) w l -> w = l.
Proof.
  induction 1 as [|c x w' l' H HF IH]; [reflexivity|].
  simpl in H. apply N.eqb_eq in H. subst. reflexivity.
Qed.

Lemma same_lower : forall w l,
  Forall2 (fun c x => same_char true c x = true) w l ->
  Str.lower w = Str.lower l.
Proof.
  induction 1 as [|c x w' l' H HF IH]; [reflexivity|].
  simpl in H. apply N.eqb_eq in H. simpl. rewrite H, IH. reflexivity.
Qed.
End LiteralText.

Section FirstMatch.
Import Re ReSpec ReLang.

Lemma head_In {A} (l : list A) x : head l = Some x -> In x l.
Proof. destruct l; [discriminate|]. intros [= ->]. left. reflexivity. Qed.

(** The first item of [findall], for a pattern without group, is a word
    of the pattern found in the text. *)
Lemma findall_head_sound ic r s x :
  ngroups r = O ->
  head (findall ic r s) = Some x ->
  exists pre nx g',
    s = pre ++ x ++ nx /\ den ic r (advance None pre) x nx None g'.
Proof.
  intros Hn Hx. apply head_In, findall_sound in Hx.
  destruct Hx as (pre & s' & m & -> & Hm & ->).
  apply match_at_sound in Hm. destruct Hm as (nx & -> & D).
  unfold findall_item. rewrite Hn.
  exists pre, nx, (grp m). split; [reflexivity | exact D].
Qed.
End FirstMatch.

Section ContactClasses.
Import Re ResumeParserTool ContactSpec.

Lemma local_class c :
  atom_ok false
    (ASet false [IRng (ch "A") (ch "Z"); IRng (ch "a") (ch "z");
                 IRng (ch "0") (ch "9"); IChr (ch "."); IChr (ch "_");
                 IChr (ch "%"); IChr (ch "+"); IChr (ch "-")]) c
  = local_char c.
Proof.
  unfold local_char, is_alnum, Chr.iscased, Chr.isupper, Chr.islower, Chr.isdigit.
  cbn [atom_ok existsb citem_mem andb xorb].
  change (txt "._%+-") with [ch "."; ch "_"; ch "%"; ch "+"; ch "-"].
  cbn [existsb]. rewrite !orb_false_r, <- !orb_assoc. reflexivity.
Qed.

Lemma domain_class c :
  atom_ok false
    (ASet false [IRng (ch "A") (ch "Z"); IRng (ch "a") (ch "z");
                 IRng (ch "0") (ch "9"); IChr (ch "."); IChr (ch "-")]) c
  = domain_char c.
Proof.
  unfold domain_char, is_alnum, Chr.iscased, Chr.isupper, Chr.islower, Chr.isdigit.
  cbn [atom_ok existsb citem_mem andb xorb].
  change (txt ".-") with [ch "."; ch "-"].
  cbn [existsb]. rewrite !orb_false_r, <- !orb_assoc. reflexivity.
Qed.

Lemma tld_class c :
  atom_ok false
    (ASet false [IRng (ch "A") (ch "Z"); IChr (ch "|"); IRng (ch "a") (ch "z")]) c
  = tld_char c.
Proof.
  unfold tld_char, Chr.iscased, Chr.isupper, Chr.islower.
  cbn [atom_ok existsb citem_mem andb xorb].
  rewrite !orb_false_r.
  change (ch "A") with 65; change (ch "Z") with 90;
  change (ch "a") with 97; change (ch "z") with 122.
  destruct ((65 <=? c) && (c <=? 90)), (c =? ch "|"),
           ((97 <=? c) && (c <=? 122)); reflexivity.
Qed.

Lemma url_class c :
  atom_ok false
    (ASet true [ISpace; IChr (ch "<"); IChr (ch ">"); IChr 34;
                IChr (ch "{"); IChr (ch "}"); IChr (ch "|");
                IChr (ch "\"); IChr (ch "^"); IChr (ch "`");
                IChr (ch "["); IChr (ch "]")]) c
  = url_char c.
Proof.
  unfold url_char. cbn [atom_ok existsb citem_mem andb].
  change (txt "<>{}|\^`[]")
    with [ch "<"; ch ">"; ch "{"; ch "}"; ch "|"; ch "\"; ch "^"; ch "`";
          ch "["; ch "]"].
  cbn [existsb]. rewrite !orb_false_r.
  destruct (Chr.isspace c), (c =? ch "<"), (c =? ch ">"), (c =? 34);
    reflexivity.
Qed.

Lemma handle_class c :
  atom_ok true (ASet false [IWord; IChr (ch "-")]) c = true ->
  handle_char c = true.
Proof.
  unfold handle_char. cbn [atom_ok existsb citem_mem andb xorb].
  rewrite !orb_false_r, !orb_true_iff, !N.eqb_eq.
  assert (Hl : Chr.isword (Chr.lower c) = Chr.isword c).
  { unfold Chr.lower. destruct (Chr.isupper c) eqn:E; [|reflexivity].
    unfold Chr.isupper in E. rewrite andb_true_iff, !N.leb_le in E.
    unfold Chr.isword, Chr.iscased, Chr.isupper, Chr.islower, Chr.isdigit,
      Chr.underscore.
    replace (65 <=? c) with true by (symmetry; apply N.leb_le; lia).
    replace (c <=? 90) with true by (symmetry; apply N.leb_le; lia).
    replace (97 <=? c + 32) with true by (symmetry; apply N.leb_le; lia).
    replace (c + 32 <=? 122) with true by (symmetry; apply N.leb_le; lia).
    cbn [andb]. rewrite ?orb_true_r. cbn [orb]. reflexivity. }
  assert (Hu : Chr.isword (Chr.upper c) = Chr.isword c).
  { unfold Chr.upper. destruct (Chr.islower c) eqn:E; [|reflexivity].
    unfold Chr.islower in E. rewrite andb_true_iff, !N.leb_le in E.
    unfold Chr.isword, Chr.iscased, Chr.isupper, Chr.islower, Chr.isdigit,
      Chr.underscore.
    replace (97 <=? c) with true by (symmetry; apply N.leb_le; lia).
    replace (c <=? 122) with true by (symmetry; apply N.leb_le; lia).
    replace (65 <=? c - 32) with true by (symmetry; apply N.leb_le; lia).
    replace (c - 32 <=? 90) with true by (symmetry; apply N.leb_le; lia).
    cbn [andb]. rewrite ?orb_true_r. cbn [orb]. reflexivity. }
  rewrite Hl, Hu. change (ch "-") with 45.
  assert (Chr.lower c = 45 -> c = 45).
  { unfold Chr.lower. destruct (Chr.isupper c) eqn:E; [|auto].
    unfold Chr.isupper in E. rewrite andb_true_iff, !N.leb_le in E. lia. }
  assert (Chr.upper c = 45 -> c = 45).
  { unfold Chr.upper. destruct (Chr.islower c) eqn:E; [|auto].
    unfold Chr.islower in E. rewrite andb_true_iff, !N.leb_le in E. lia. }
  tauto.
Qed.

Lemma sep_class_char c : atom_ok false sep_class c = sep_char c.
Proof.
  unfold sep_class, sep_char. cbn [atom_ok existsb citem_mem andb xorb].
  rewrite !orb_false_r, <- !orb_assoc. reflexivity.
Qed.

Lemma forallb_ext_in {A} (f g : A -> bool) l :
  (forall x, f x = g x) -> forallb f l = forallb g l.
Proof. intros H. induction l; simpl; [|rewrite H, IHl]; reflexivity. Qed.
End ContactClasses.

Section ContactShapes.
Import Re ReSpec ReLang ResumeParserTool ContactSpec.

Lemma atom_lit_eq c x : atom_ok false (ALit x) c = true -> c = x.
Proof. cbn [atom_ok]. apply N.eqb_eq. Qed.

Lemma forallb_class (f g : char -> bool) w :
  (forall c, f c = g c) -> forallb f w = true -> forallb g w = true.
Proof. intros H. rewrite (forallb_ext_in f g w H). auto. Qed.

Lemma length_pos_not_nil {A} (l : list A) : (1 <= length l)%nat -> l <> [].
Proof. destruct l; simpl; [lia | discriminate]. Qed.

(** The words of the e-mail pattern. *)
Lemma email_words p e nx g g' :
  den false EMAIL_PATTERN p e nx g g' ->
  exists local domain tld,
    e = local ++ ch "@" :: domain ++ ch "." :: tld
    /\ local <> [] /\ domain <> [] /\ (2 <= length tld)%nat
    /\ forallb local_char local = true
    /\ forallb domain_char domain = true
    /\ forallb tld_char tld = true.
Proof.
  unfold EMAIL_PATTERN, plus. cbn [seqs]. intros D.
  apply den_seq_inv in D. destruct D as (w0 & r0 & g0 & -> & D0 & D).
  apply den_wordb_inv in D0. destruct D0 as [-> _].
  apply den_seq_inv in D. destruct D as (w1 & r1 & g1 & -> & D1 & D).
  apply den_rep_inv in D1. destruct D1 as (H1 & L1 & _ & _).
  apply den_seq_inv in D. destruct D as (w2 & r2 & g2 & -> & D2 & D).
  apply den_atom_inv in D2. destruct D2 as (c2 & -> & H2 & _).
  apply atom_lit_eq in H2. subst c2.
  apply den_seq_inv in D. destruct D as (w3 & r3 & g3 & -> & D3 & D).
  apply den_rep_inv in D3. destruct D3 as (H3 & L3 & _ & _).
  apply den_seq_inv in D. destruct D as (w4 & r4 & g4 & -> & D4 & D).
  apply den_atom_inv in D4. destruct D4 as (c4 & -> & H4 & _).
  apply atom_lit_eq in H4. subst c4.
  apply den_seq_inv in D. destruct D as (w5 & r5 & g5 & -> & D5 & D).
  apply den_rep_inv in D5. destruct D5 as (H5 & L5 & _ & _).
  apply den_wordb_inv in D. destruct D as [-> _].
  exists w1, w3, w5. rewrite app_nil_r. cbn [app].
  split; [reflexivity|].
  split; [apply length_pos_not_nil, L1|].
  split; [apply length_pos_not_nil, L3|]. split; [exact L5|].
  split; [exact (forallb_class _ _ _ local_class H1)|].
  split; [exact (forallb_class _ _ _ domain_class H3)|].
  exact (forallb_class _ _ _ tld_class H5).
Qed.

(** The words of the URL pattern. *)
Lemma url_words p u nx g g' :
  den false URL_PATTERN p u nx g g' ->
  exists tail,
    (u = txt "http://" ++ tail \/ u = txt "https://" ++ tail)
    /\ tail <> [] /\ forallb url_char tail = true.
Proof.
  unfold URL_PATTERN, plus, opt_atom. cbn [seqs]. intros D.
  apply den_seq_inv in D. destruct D as (w0 & r0 & g0 & -> & D0 & D).
  apply den_lits in D0. destruct D0 as [_ D0]. apply same_exact in D0. subst w0.
  apply den_seq_inv in D. destruct D as (w1 & r1 & g1 & -> & D1 & D).
  apply den_rep_inv in D1. destruct D1 as (H1 & _ & L1 & _).
  specialize (L1 _ eq_refl).
  apply den_seq_inv in D. destruct D as (w2 & r2 & g2 & -> & D2 & D).
  apply den_lits in D2. destruct D2 as [_ D2]. apply same_exact in D2. subst w2.
  apply den_rep_inv in D. destruct D as (H3 & L3 & _ & _).
  exists r2. split; [|split].
  - destruct w1 as [|c [|c' w1]]; [left; reflexivity | right | simpl in L1; lia].
    cbn [forallb] in H1. apply andb_true_iff in H1. destruct H1 as [H1 _].
    apply atom_lit_eq in H1. subst c.
    reflexivity.
  - apply length_pos_not_nil, L3.
  - exact (forallb_class _ _ _ url_class H3).
Qed.

(** The words of the LinkedIn pattern, matched without regard to case. *)
Lemma linkedin_words p l nx g g' :
  den true LINKEDIN_PATTERN p l nx g g' ->
  exists site handle,
    l = site ++ handle
    /\ Str.lower site = txt "linkedin.com/in/"
    /\ handle <> [] /\ forallb handle_char handle = true.
Proof.
  unfold LINKEDIN_PATTERN, plus. intros D.
  apply den_seq_inv in D. destruct D as (w0 & r0 & g0 & -> & D0 & D).
  apply den_lits in D0. destruct D0 as [_ D0]. apply same_lower in D0.
  apply den_rep_inv in D. destruct D as (H1 & L1 & _ & _).
  exists w0, r0. split; [reflexivity|]. split; [exact D0|].
  split; [apply length_pos_not_nil, L1|].
  apply forallb_forall. intros c Hc. apply handle_class.
  rewrite forallb_forall in H1. exact (H1 c Hc).
Qed.

(** What the group of the phone pattern can hold: an optional "+", one to
    three digits and an optional separator. *)
Lemma phone_group p w nx g g' :
  den false PHONE_PATTERN p w nx g g' ->
  g' = g
  \/ exists plus_sign digits sep,
       g' = Some (plus_sign ++ digits ++ sep)
       /\ (plus_sign = [] \/ plus_sign = [ch "+"])
       /\ (1 <= length digits <= 3)%nat
       /\ forallb Chr.isdigit digits = true
       /\ (sep = [] \/ exists c, sep = [c] /\ sep_char c = true).
Proof.
  unfold PHONE_PATTERN. cbn [seqs]. intros D.
  apply den_seq_inv in D. destruct D as (w0 & r0 & g0 & -> & D0 & D).
  apply den_no_group in D; [subst g'|reflexivity].
  apply den_opt_inv in D0. destruct D0 as [[-> ->]|D0]; [left; reflexivity|].
  right. apply den_grp_inv in D0. destruct D0 as [-> [g'' D0]].
  unfold opt_atom in D0.
  apply den_seq_inv in D0. destruct D0 as (a & r1 & g1 & -> & Da & D0).
  apply den_rep_inv in Da. destruct Da as (Ha & _ & La & _).
  specialize (La _ eq_refl).
  apply den_seq_inv in D0. destruct D0 as (b & c & g2 & -> & Db & Dc).
  apply den_rep_inv in Db. destruct Db as (Hb & Lb1 & Lb2 & _).
  specialize (Lb2 _ eq_refl).
  apply den_rep_inv in Dc. destruct Dc as (Hc & _ & Lc & _).
  specialize (Lc _ eq_refl).
  exists a, b, c. split; [reflexivity|]. split; [|split; [lia|split; [exact Hb|]]].
  - destruct a as [|x [|y a]]; [left; reflexivity | right | simpl in La; lia].
    cbn [forallb] in Ha. apply andb_true_iff in Ha. destruct Ha as [Ha _].
    apply atom_lit_eq in Ha. subst x.
    reflexivity.
  - destruct c as [|x [|y c]]; [left; reflexivity | right | simpl in Lc; lia].
    cbn [forallb] in Hc. apply andb_true_iff in Hc. destruct Hc as [Hc _].
    exists x. split; [reflexivity|].
    rewrite <- sep_class_char. exact Hc.
Qed.
End ContactShapes.

Section FoundInText.
Import Re ReSpec ReLang.

(** An item reported by [findall] for a pattern without group is a word
    of the pattern that occurs in the text. *)
Lemma findall_item_sound ic r s x :
  ngroups r = O ->
  In x (findall ic r s) ->
  Score.occurs_in x s /\ exists p nx g', den ic r p x nx None g'.
Proof.
  intros Hn Hx. apply findall_sound in Hx.
  destruct Hx as (pre & s' & m & -> & Hm & ->).
  apply match_at_sound in Hm. destruct Hm as (nx & -> & D).
  unfold findall_item. rewrite Hn. split; [exists pre, nx; reflexivity|].
  eauto.
Qed.

Lemma filter_head_In {A} (f : A -> bool) l x :
  head (List.filter f l) = Some x -> In x l /\ f x = true.
Proof. intros H. apply head_In, filter_In in H. exact H. Qed.
End FoundInText.

(** X11.  An e-mail address stored by contact extraction occurs in the
    text and reads local@domain.tld: a non-empty local part of letters,
    digits and "._%+-", a non-empty domain of letters, digits, dots and
    hyphens, and at least two final characters that are letters or "|". *)
Theorem contact_email_shape (t : text) (m : gmap string text) (e : text) :
  ResumeParserTool._extract_contact_info t = Ok m ->
  m !! "email"%string = Some e ->
  Score.occurs_in e t
  /\ exists local domain tld,
       e = local ++ ch "@" :: domain ++ ch "." :: tld
       /\ local <> [] /\ domain <> [] /\ (2 <= length tld)%nat
       /\ forallb ContactSpec.local_char local = true
       /\ forallb ContactSpec.domain_char domain = true
       /\ forallb ContactSpec.tld_char tld = true.
Proof.
  intros Hm He. destruct (contact_fields t m Hm) as (H & _).
  rewrite H in He. apply head_In in He.
  apply findall_item_sound in He; [|reflexivity].
  destruct He as [Ho (p & nx & g' & D)].
  split; [exact Ho | exact (email_words _ _ _ _ _ D)].
Qed.

Lemma contact_email_shape_witness :
  Score.occurs_in (txt "jane.doe@example.com")
    (txt "Reach me at jane.doe@example.com or 415-555-0100").
Proof.
  destruct (extract_contact_info_total
              (txt "Reach me at jane.doe@example.com or 415-555-0100"))
    as [m Hm].
  destruct (contact_fields _ m Hm) as (He & _).
  assert (H : m !! "email"%string = Some (txt "jane.doe@example.com"))
    by (etransitivity; [exact He | vm_compute; reflexivity]).
  exact (proj1 (contact_email_shape _ m _ Hm H)).
Defined.

(** X12.  A website stored by contact extraction occurs in the text,
    starts with "http://" or "https://" followed by at least one character,
    none of them blank or excluded punctuation, and does not contain
    "linkedin.com" in any letter case. *)
Theorem contact_website_shape (t : text) (m : gmap string text) (u : text) :
  ResumeParserTool._extract_contact_info t = Ok m ->
  m !! "website"%string = Some u ->
  Score.occurs_in u t
  /\ (exists tail,
        (u = txt "http://" ++ tail \/ u = txt "https://" ++ tail)
        /\ tail <> [] /\ forallb ContactSpec.url_char tail = true)
  /\ ~ Score.occurs_in (txt "linkedin.com") (Str.lower u).
Proof.
  intros Hm Hu. destruct (contact_fields t m Hm) as (_ & _ & _ & H & _).
  rewrite H in Hu. apply filter_head_In in Hu. destruct Hu as [Hin Hf].
  apply findall_item_sound in Hin; [|reflexivity].
  destruct Hin as [Ho (p & nx & g' & D)].
  split; [exact Ho|]. split; [exact (url_words _ _ _ _ _ D)|].
  apply negb_true_iff in Hf. rewrite <- contains_spec, Hf. discriminate.
Qed.

Lemma contact_website_shape_witness :
  Score.occurs_in (txt "https://jane.dev/cv") (txt "see https://jane.dev/cv today").
Proof.
  destruct (extract_contact_info_total (txt "see https://jane.dev/cv today"))
    as [m Hm].
  destruct (contact_fields _ m Hm) as (_ & _ & _ & Hw & _).
  assert (H : m !! "website"%string = Some (txt "https://jane.dev/cv"))
    by (etransitivity; [exact Hw | vm_compute; reflexivity]).
  exact (proj1 (contact_website_shape _ m _ Hm H)).
Defined.

(** X13.  For a Basic Latin text, a LinkedIn entry stored by contact
    extraction is "https://"
    followed by a piece of the text that reads "linkedin.com/in/" in some
    letter case and then a non-empty handle of letters, digits, "_" and
    "-". *)
Theorem contact_linkedin_shape (t : text) (m : gmap string text) (v : text)
    (Hlatin : Latin.text_ok t = true) :
  ResumeParserTool._extract_contact_info t = Ok m ->
  m !! "linkedin"%string = Some v ->
  exists site handle,
    v = txt "https://" ++ site ++ handle
    /\ Score.occurs_in (site ++ handle) t
    /\ Str.lower site = txt "linkedin.com/in/"
    /\ handle <> []
    /\ forallb ContactSpec.handle_char handle = true.
Proof.
  intros Hm Hv. destruct (contact_fields t m Hm) as (_ & _ & H & _).
  assert (E := eq_trans (eq_sym Hv) H). clear H Hv.
  destruct (head (Re.findall true ResumeParserTool.LINKEDIN_PATTERN t))
    as [l|] eqn:Hl; [|discriminate].
  injection E as ->. apply head_In in Hl.
  apply findall_item_sound in Hl; [|reflexivity].
  destruct Hl as [Ho (p & nx & g' & D)].
  destruct (linkedin_words _ _ _ _ _ D) as (site & handle & -> & Hs & Hn & Hh).
  exists site, handle. repeat split; assumption.
Qed.

Lemma contact_linkedin_shape_witness :
  exists site handle,
    txt "https://LinkedIn.com/in/jane-doe" = txt "https://" ++ site ++ handle
    /\ Str.lower site = txt "linkedin.com/in/".
Proof.
  destruct (extract_contact_info_total (txt "at www.LinkedIn.com/in/jane-doe."))
    as [m Hm].
  destruct (contact_fields _ m Hm) as (_ & _ & Hl & _).
  assert (H : m !! "linkedin"%string = Some (txt "https://LinkedIn.com/in/jane-doe"))
    by (etransitivity; [exact Hl | vm_compute; reflexivity]).
  assert (Hlatin : Latin.text_ok (txt "at www.LinkedIn.com/in/jane-doe.") = true)
    by (vm_compute; reflexivity).
  destruct (contact_linkedin_shape _ m _ Hlatin Hm H)
    as (site & handle & E & _ & Hs & _).
  exists site, handle. split; assumption.
Defined.

(** X14.  The phone entry stored by contact extraction is never a whole
    phone number: it has at most five characters, and for a Basic Latin
    text it is empty, or an optional "+", one to three digits and an
    optional separator. *)
Theorem contact_phone_is_a_prefix (t : text) (m : gmap string text) (ph : text) :
  ResumeParserTool._extract_contact_info t = Ok m ->
  m !! "phone"%string = Some ph ->
  (length ph <= 5)%nat
  /\ (Latin.text_ok t = true ->
      ph = []
      \/ exists plus_sign digits sep,
           ph = plus_sign ++ digits ++ sep
           /\ (plus_sign = [] \/ plus_sign = [ch "+"])
           /\ (1 <= length digits <= 3)%nat
           /\ forallb Chr.isdigit digits = true
           /\ (sep = [] \/ exists c, sep = [c] /\ ContactSpec.sep_char c = true)).
Proof.
  intros Hm Hp. destruct (contact_fields t m Hm) as (_ & H & _).
  rewrite H in Hp. apply head_In, findall_sound in Hp.
  destruct Hp as (pre & s' & mo & -> & Hmo & ->).
  apply match_at_sound in Hmo. destruct Hmo as (nx & _ & D).
  apply phone_group in D. unfold Re.findall_item.
  change (Re.ngroups ResumeParserTool.PHONE_PATTERN) with 1%nat. cbv iota.
  destruct D as [->|(a & b & c & -> & Ha & Hb & Hd & Hc)].
  - split; [simpl; lia | intros _; left; reflexivity].
  - split; [|intros _; right; exists a, b, c; auto].
    rewrite !length_app.
    assert (length a <= 1)%nat by (destruct Ha as [->| ->]; simpl; lia).
    assert (length c <= 1)%nat
      by (destruct Hc as [->|(x & -> & _)]; simpl; lia).
    lia.
Qed.

Lemma contact_phone_is_a_prefix_witness :
  (length (txt "+1 ") <= 5)%nat.
Proof.
  destruct (extract_contact_info_total (txt "call +1 415-555-0100")) as [m Hm].
  destruct (contact_fields _ m Hm) as (_ & Hp & _).
  assert (H : m !! "phone"%string = Some (txt "+1 "))
    by (etransitivity; [exact Hp | vm_compute; reflexivity]).
  exact (proj1 (contact_phone_is_a_prefix _ m _ Hm H)).
Defined.

Section ContactValues.
Import ResumeParserTool.

Lemma name_candidate_not_nil n : name_candidate n = true -> n <> [].
Proof.
  unfold name_candidate. intros H ->. cbn [Str.truthy andb] in H.
  discriminate.
Qed.
End ContactValues.

(** X9.  The contact mapping has no key beside "email", "phone",
    "linkedin", "website" and "name", and every value it holds under a key
    other than "phone" is a non-empty string. *)
Theorem contact_mapping_keys_and_values (t : text) :
  exists m,
    ResumeParserTool._extract_contact_info t = Ok m
    /\ (forall k, is_Some (m !! k) ->
          In k ["email"; "phone"; "linkedin"; "website"; "name"]%string)
    /\ (forall k v, m !! k = Some v -> k <> "phone"%string -> v <> []).
Proof.
  destruct (extract_contact_info_total t) as [m Hm]. exists m.
  destruct (contact_fields t m Hm) as (He & Hp & Hl & Hw & Hn & Hk).
  split; [exact Hm|].
  assert (Hkeys : forall k, is_Some (m !! k) ->
            In k ["email"; "phone"; "linkedin"; "website"; "name"]%string).
  { intros k [v Hv].
    destruct (decide (k = "email"%string)) as [->|H1]; [left; reflexivity|].
    destruct (decide (k = "phone"%string)) as [->|H2];
      [right; left; reflexivity|].
    destruct (decide (k = "linkedin"%string)) as [->|H3];
      [right; right; left; reflexivity|].
    destruct (decide (k = "website"%string)) as [->|H4];
      [right; right; right; left; reflexivity|].
    destruct (decide (k = "name"%string)) as [->|H5];
      [right; right; right; right; left; reflexivity|].
    rewrite (Hk k H1 H2 H3 H4 H5) in Hv. discriminate. }
  split; [exact Hkeys|].
  intros k v Hv Hphone.
  destruct (Hkeys k (ex_intro _ v Hv)) as [<-|[<-|[<-|[<-|[<-|[]]]]]].
  - assert (E := eq_trans (eq_sym Hv) He). symmetry in E.
    apply head_In in E. apply findall_item_sound in E; [|reflexivity].
    destruct E as [_ (p & nx & g' & D)].
    destruct (email_words _ _ _ _ _ D) as (l & d & tl & -> & Hne & _).
    destruct l; [congruence | discriminate].
  - congruence.
  - assert (E := eq_trans (eq_sym Hv) Hl).
    destruct (head (Re.findall true ResumeParserTool.LINKEDIN_PATTERN t));
      [|discriminate].
    injection E as ->. discriminate.
  - assert (E := eq_trans (eq_sym Hv) Hw). symmetry in E.
    apply filter_head_In in E. destruct E as [Hin _].
    apply findall_item_sound in Hin; [|reflexivity].
    destruct Hin as [_ (p & nx & g' & D)].
    destruct (url_words _ _ _ _ _ D) as (tail & [-> | ->] & _); discriminate.
  - assert (E := eq_trans (eq_sym Hv) Hn). symmetry in E.
    destruct (find_name_spec _ _ E) as (b & line & a & _ & _ & Hc & _).
    exact (name_candidate_not_nil _ Hc).
Qed.

(** ** Header lines *)

Section CasedCharacters.

Lemma cased_not_blank c : Chr.iscased c = true -> Chr.isspace c = false.
Proof.
  unfold Chr.iscased, Chr.isupper, Chr.islower, Chr.isspace.
  rewrite orb_true_iff, !andb_true_iff, !N.leb_le. intros H.
  apply orb_false_iff. split; apply andb_false_iff;
    rewrite !N.leb_gt; lia.
Qed.

Lemma cased_not_colon c : Chr.iscased c = true -> (Chr.colon =? c) = false.
Proof.
  unfold Chr.iscased, Chr.isupper, Chr.islower, Chr.colon.
  rewrite orb_true_iff, !andb_true_iff, !N.leb_le. intros H.
  apply N.eqb_neq. lia.
Qed.

Lemma in_lstrip p c (l : text) :
  In c l -> p c = false -> In c (Str.lstrip_with p l).
Proof.
  intros Hin Hp. induction l as [|x l IH]; [destruct Hin|].
  cbn [Str.lstrip_with]. destruct (p x) eqn:Hx.
  - destruct Hin as [->|Hin]; [congruence | exact (IH Hin)].
  - exact Hin.
Qed.

Lemma in_rstrip p c (l : text) :
  In c l -> p c = false -> In c (Str.rstrip_with p l).
Proof.
  intros Hin Hp. induction l as [|x l IH]; [destruct Hin|].
  cbn [Str.rstrip_with]. destruct Hin as [->|Hin].
  - destruct (Str.rstrip_with p l); [rewrite Hp|]; left; reflexivity.
  - specialize (IH Hin). destruct (Str.rstrip_with p l); [destruct IH|].
    right. exact IH.
Qed.

Lemma in_strip c l : In c l -> Chr.iscased c = true -> In c (Str.strip l).
Proof.
  intros Hin Hc. unfold Str.strip.
  apply in_rstrip, cased_not_blank, Hc. apply in_lstrip, cased_not_blank, Hc.
  exact Hin.
Qed.

Lemma in_rstrip_colon c l :
  In c l -> Chr.iscased c = true -> In c (Str.rstrip_colon l).
Proof. intros Hin Hc. apply in_rstrip, cased_not_colon, Hc. exact Hin. Qed.

Lemma isupper_cased l :
  Str.isupper l = true -> exists c, In c l /\ Chr.iscased c = true.
Proof.
  unfold Str.isupper. rewrite andb_true_iff. intros [H _].
  apply existsb_exists in H. exact H.
Qed.

Lemma istitle_from_cased l : forall prev cased,
  Str.istitle_from prev cased l = true ->
  cased = true \/ exists c, In c l /\ Chr.iscased c = true.
Proof.
  induction l as [|x l IH]; intros prev cased; cbn [Str.istitle_from].
  - intros ->. left. reflexivity.
  - destruct (Chr.isupper x) eqn:Hu.
    + intros _. right. exists x. split; [left; reflexivity|].
      unfold Chr.iscased. rewrite Hu. reflexivity.
    + destruct (Chr.islower x) eqn:Hl.
      * intros _. right. exists x. split; [left; reflexivity|].
        unfold Chr.iscased. rewrite Hl. apply orb_true_r.
      * intros H. destruct (IH _ _ H) as [Hc|[c [Hin Hc]]]; [left; exact Hc|].
        right. exists c. split; [right; exact Hin | exact Hc].
Qed.

Lemma istitle_cased l :
  Str.istitle l = true -> exists c, In c l /\ Chr.iscased c = true.
Proof.
  intros H. destruct (istitle_from_cased _ _ _ H) as [Hc|Hc];
    [discriminate | exact Hc].
Qed.

Lemma title_from_length l : forall prev,
  length (Str.title_from prev l) = length l.
Proof.
  induction l as [|x l IH]; intros prev; [reflexivity|].
  cbn [Str.title_from length]. rewrite IH. reflexivity.
Qed.

Lemma in_not_nil {A} (c : A) l : In c l -> l <> [].
Proof. intros H ->. destruct H. Qed.
End CasedCharacters.

Section HeaderNames.
Import Re ReSpec ReLang ResumeParserTool HeaderSpec.

Lemma same_char_cased c x :
  atom_ok true (ALit x) c = true -> Chr.iscased x = true -> Chr.iscased c = true.
Proof.
  cbn [atom_ok]. unfold Chr.iscased, Chr.lower, Chr.isupper, Chr.islower.
  intros Heq Hx. apply N.eqb_eq in Heq. revert Heq Hx.
  repeat match goal with
         | |- context [(?a <=? ?b)%N] => destruct (N.leb_spec a b)
         end;
    cbn [andb orb]; intros Heq Hx; try reflexivity; try discriminate; lia.
Qed.

(** A word of a pattern that begins with a letter begins with a letter. *)
Lemma starts_cased_sound r : forall p w nx g g',
  starts_cased r = true ->
  den true r p w nx g g' ->
  exists c w', w = c :: w' /\ Chr.iscased c = true.
Proof.
  induction r as [|a|r1 IH1 r2 IH2|r1 IH1 r2 IH2|r1 IH1|a lo hi|r1 IH1| | |];
    intros p w nx g g' Hs D; cbn [starts_cased] in Hs; try discriminate.
  - destruct a; try discriminate.
    apply den_atom_inv in D. destruct D as (c0 & -> & Hc & _).
    exists c0, []. split; [reflexivity | exact (same_char_cased _ _ Hc Hs)].
  - apply den_seq_inv in D. destruct D as (w1 & w2 & g1 & -> & D1 & D2).
    assert (Hgen : starts_cased r1 = true ->
              exists c w', (w1 ++ w2)%list = c :: w' /\ Chr.iscased c = true).
    { intros H1. destruct (IH1 _ _ _ _ _ H1 D1) as (c & w' & -> & Hc).
      exists c, (w' ++ w2)%list. split; [reflexivity | exact Hc]. }
    destruct r1; try (apply Hgen; exact Hs).
    inversion D1; subst. cbn [app]. exact (IH2 _ _ _ _ _ Hs D2).
  - apply andb_true_iff in Hs. destruct Hs as [H1 H2].
    inversion D; subst; eauto.
  - apply den_grp_inv in D. destruct D as (_ & g'' & D). eauto.
Qed.

Lemma known_header_cased line :
  known_header line = true -> exists c, In c line /\ Chr.iscased c = true.
Proof.
  unfold known_header. intros H. apply existsb_exists in H.
  destruct H as (pattern & Hin & Hm).
  assert (Hs : starts_cased pattern = true).
  { assert (Hall : forallb starts_cased SECTION_PATTERNS = true)
      by (vm_compute; reflexivity).
    rewrite forallb_forall in Hall. exact (Hall _ Hin). }
  unfold match_ in Hm.
  destruct (match_at true pattern None line) as [m|] eqn:E; [|discriminate].
  apply match_at_sound in E. destruct E as (nx & -> & D).
  destruct (starts_cased_sound _ _ _ _ _ _ Hs D) as (c & w' & -> & Hc).
  exists c. split; [left; reflexivity | exact Hc].
Qed.

Lemma header_shaped_cased line :
  header_shaped line = true -> exists c, In c line /\ Chr.iscased c = true.
Proof.
  unfold header_shaped. rewrite andb_true_iff, orb_true_iff.
  intros [_ [H|H]]; [apply isupper_cased | apply istitle_cased]; exact H.
Qed.

Lemma upper_not_nil l : l <> [] -> Str.upper l <> [].
Proof. destruct l; [congruence | discriminate]. Qed.

Lemma title_not_nil l : l <> [] -> Str.title l <> [].
Proof.
  intros Hl H. apply (f_equal (@length _)) in H.
  unfold Str.title in H. rewrite title_from_length in H.
  destruct l; [congruence | discriminate].
Qed.

Lemma normalize_not_nil line :
  (exists c, In c line /\ Chr.iscased c = true) ->
  _normalize_section_name line <> [].
Proof.
  intros (c & Hin & Hc).
  assert (Hh : Str.upper (Str.rstrip_colon (Str.strip line)) <> []).
  { apply upper_not_nil, (in_not_nil c), in_rstrip_colon, Hc.
    apply in_strip; assumption. }
  unfold _normalize_section_name.
  repeat match goal with
         | |- (if ?b then _ else _) <> [] => destruct b; [discriminate|]
         end.
  apply title_not_nil, Hh.
Qed.

(** The name [_is_section_header] returns with a positive answer is never
    empty. *)
Lemma is_section_header_cases line :
  (HeaderSpec.looks_like_header line = true
   /\ exists n, _is_section_header line = (true, Some n) /\ n <> [])
  \/ (HeaderSpec.looks_like_header line = false
      /\ _is_section_header line = (false, None)).
Proof.
  unfold looks_like_header, _is_section_header.
  destruct (known_header line) eqn:Hk; cbn [orb].
  - left. split; [reflexivity|]. eexists. split; [reflexivity|].
    apply normalize_not_nil, known_header_cased, Hk.
  - destruct (header_shaped line) eqn:Hs; [left | right; split; reflexivity].
    split; [reflexivity|]. eexists. split; [reflexivity|].
    destruct (header_shaped_cased _ Hs) as (c & Hin & Hc).
    apply (in_not_nil c), in_strip; [|exact Hc].
    destruct (Str.contains [Chr.colon] line);
      [apply in_rstrip_colon; assumption | exact Hin].
Qed.

Lemma is_header_line_eq line :
  Seg.is_header_line line = HeaderSpec.looks_like_header (Str.strip line).
Proof.
  unfold Seg.is_header_line, Seg.opens_section.
  destruct (is_section_header_cases (Str.strip line))
    as [(-> & n & -> & Hn)|(-> & ->)]; [|reflexivity].
  destruct n; [congruence | reflexivity].
Qed.
End HeaderNames.

(** X15.  On a Basic Latin line [_is_section_header] answers yes exactly when the line matches a
    known section title or has the shape of the heuristic, and the name it
    then returns is never empty; so the test [is_header and section_name]
    of the segmenter never turns a header down, and a line opens a section
    exactly when its stripped text passes one of the two tests. *)
Theorem header_test_never_returns_empty_name (line : text)
    (Hlatin : Latin.text_ok line = true) :
  match ResumeParserTool._is_section_header line with
  | (true, Some n) =>
      n <> []
      /\ ResumeParserTool.known_header line
         || ResumeParserTool.header_shaped line = true
  | (false, None) =>
      ResumeParserTool.known_header line
      || ResumeParserTool.header_shaped line = false
  | _ => False
  end
  /\ Seg.is_header_line line
     = ResumeParserTool.known_header (Str.strip line)
       || ResumeParserTool.header_shaped (Str.strip line).
Proof.
  split; [|apply is_header_line_eq].
  destruct (is_section_header_cases line) as [(H & n & -> & Hn)|(H & ->)].
  - split; [exact Hn | exact H].
  - exact H.
Qed.

Lemma header_test_never_returns_empty_name_witness :
  Seg.is_header_line (txt "  Key Projects: ")
  = ResumeParserTool.known_header (txt "Key Projects:")
    || ResumeParserTool.header_shaped (txt "Key Projects:").
Proof.
  assert (Hl : Latin.text_ok (txt "  Key Projects: ") = true)
    by (vm_compute; reflexivity).
  exact (proj2 (header_test_never_returns_empty_name _ Hl)).
Defined.

Section NameIsHeader.
Import ResumeParserTool Seg.

Lemma name_candidate_shaped n :
  name_candidate n = true -> header_shaped n = true.
Proof.
  unfold name_candidate, header_shaped.
  rewrite !andb_true_iff, !orb_true_iff.
  intros [[[[[_ Hlen] _] Hcase] _] _].
  split; [exact Hlen|].
  destruct Hcase as [H|H]; [right; exact H | left].
  apply andb_true_iff in H. destruct H as [H _]. exact H.
Qed.

Lemma name_line_is_header l :
  name_candidate (Str.strip l) = true -> is_header_line l = true.
Proof.
  intros H. rewrite is_header_line_eq. unfold HeaderSpec.looks_like_header.
  rewrite (name_candidate_shaped _ H). apply orb_true_r.
Qed.

(** The lines of a finalized section are content lines of the text. *)
Lemma finalized_content_lines t s l :
  In s (finalized t) -> In l (Str.split Chr.newline (content s)) ->
  In l (lines t) /\ is_content_line l = true.
Proof.
  rewrite finalized_groups. intros Hs. apply in_map_iff in Hs.
  destruct Hs as [g [<- Hg]].
  destruct (groups_wf _ _ Hg) as (_ & Hne & Hc & _ & Hl).
  rewrite List.Forall_forall in Hc, Hl.
  unfold to_section, _create_section. cbn [content].
  rewrite split_join; [auto | exact Hne |].
  intros x Hx. apply (split_no_sep Chr.newline t), Hl, Hx.
Qed.
End NameIsHeader.

(** X16.  For a Basic Latin text, the name kept by contact extraction
    comes from a line that the
    segmenter reads as a section header: every line whose stripped text is
    that name opens a section, so the name is never a content line of a
    section (it can only be seen in the "Full Resume" fallback). *)
Theorem contact_name_is_a_header (t : text) (m : gmap string text) (n : text)
    (Hlatin : Latin.text_ok t = true) :
  ResumeParserTool._extract_contact_info t = Ok m ->
  m !! "name"%string = Some n ->
  (exists line, In line (take 5 (Seg.lines t)) /\ Str.strip line = n
                /\ Seg.is_header_line line = true)
  /\ (forall l, Str.strip l = n ->
        Seg.is_header_line l = true /\ Seg.is_content_line l = false)
  /\ (forall s, In s (ResumeParserTool._split_into_sections t) ->
        s = ResumeParserTool.full_resume t
        \/ forall l, In l (Str.split Chr.newline (content s)) ->
             Str.strip l <> n).
Proof.
  intros Hm Hn. destruct (contact_fields t m Hm) as (_ & _ & _ & _ & Hf & _).
  rewrite Hn in Hf. symmetry in Hf.
  destruct (find_name_spec _ _ Hf) as (b & line & a & E & Hs & Hc & _).
  assert (Hall : forall l, Str.strip l = n ->
            Seg.is_header_line l = true /\ Seg.is_content_line l = false).
  { intros l Hl. rewrite <- Hl in Hc.
    assert (H := name_line_is_header _ Hc).
    split; [exact H | exact (header_not_content _ H)]. }
  split; [|split; [exact Hall|]].
  - exists line. split; [|split; [symmetry; exact Hs | apply Hall; symmetry; exact Hs]].
    unfold Seg.lines. rewrite E. apply in_or_app. right. left. reflexivity.
  - intros s. rewrite split_into_sections_eq.
    destruct (Seg.finalized t) as [|s0 ss] eqn:Ef.
    + intros [<-|[]]. left. reflexivity.
    + rewrite <- Ef. intros Hin. right. intros l Hl Hstrip.
      destruct (finalized_content_lines _ _ _ Hin Hl) as [_ Hcl].
      destruct (Hall _ Hstrip) as [_ Hn']. congruence.
Qed.

Lemma contact_name_is_a_header_witness :
  Seg.is_header_line (txt "  Jane Doe ") = true.
Proof.
  assert (Hm : ResumeParserTool._extract_contact_info
                 (Seg.doc ["  Jane Doe "; "SKILLS"; "- python"]%string)
               = Ok (<["name"%string := txt "Jane Doe"]> ∅))
    by (vm_compute; reflexivity).
  assert (Hl : Latin.text_ok
                 (Seg.doc ["  Jane Doe "; "SKILLS"; "- python"]%string) = true)
    by (vm_compute; reflexivity).
  destruct (contact_name_is_a_header _ _ (txt "Jane Doe") Hl Hm) as (_ & H & _).
  - vm_compute. reflexivity.
  - apply (H (txt "  Jane Doe ")). vm_compute. reflexivity.
Defined.

(** ** Shape of the bullets *)

Section StripIdempotent.
Variable p : char -> bool.

Lemma rstrip_run s :
  exists ws, s = (Str.rstrip_with p s ++ ws)%list /\ forallb p ws = true.
Proof.
  induction s as [|c s (ws & E & H)]; [exists []; split; reflexivity|].
  cbn [Str.rstrip_with]. destruct (Str.rstrip_with p s) as [|x s'] eqn:Er.
  - destruct (p c) eqn:Hc.
    + exists (c :: s). split; [reflexivity|]. cbn [forallb]. rewrite Hc.
      rewrite E. exact H.
    + exists ws. rewrite E at 1. split; [reflexivity | exact H].
  - exists ws. rewrite E at 1. split; [reflexivity | exact H].
Qed.

Lemma rstrip_idem s :
  Str.rstrip_with p (Str.rstrip_with p s) = Str.rstrip_with p s.
Proof.
  induction s as [|c s IH]; [reflexivity|]. cbn [Str.rstrip_with].
  destruct (Str.rstrip_with p s) as [|x s'] eqn:Er.
  - destruct (p c) eqn:Hc; [reflexivity|]. cbn [Str.rstrip_with]. rewrite Hc.
    reflexivity.
  - change (Str.rstrip_with p (c :: x :: s'))
      with (match Str.rstrip_with p (x :: s') with
            | [] => if p c then [] else [c]
            | t' => c :: t'
            end).
    rewrite IH. reflexivity.
Qed.

Lemma rstrip_head s :
  Str.starts_with p s = false -> Str.starts_with p (Str.rstrip_with p s) = false.
Proof.
  destruct s as [|c s]; [reflexivity|]. cbn [Str.starts_with Str.rstrip_with].
  intros Hc. destruct (Str.rstrip_with p s); [rewrite Hc|]; exact Hc.
Qed.
End StripIdempotent.

Section BulletShape.
Import Score ResumeParserTool Bullets.

Lemma strip_idem s : Str.strip (Str.strip s) = Str.strip s.
Proof.
  unfold Str.strip.
  rewrite (lstrip_fixed Chr.isspace (Str.rstrip_with Chr.isspace _))
    by apply rstrip_head, lstrip_head.
  apply rstrip_idem.
Qed.

Lemma strip_occurs s : occurs_in (Str.strip s) s.
Proof.
  unfold Str.strip.
  destruct (lstrip_run Chr.isspace s) as (ws & E & _).
  destruct (rstrip_run Chr.isspace (Str.lstrip_with Chr.isspace s))
    as (ws' & E' & _).
  exists ws, ws'. rewrite <- E'. exact E.
Qed.

Lemma after_marker_occurs m s rest :
  after_marker m s = Some rest -> occurs_in rest s.
Proof.
  destruct s as [|c s']; [destruct m; discriminate|].
  destruct m; cbn [after_marker].
  - destruct (is_glyph c); [|discriminate]. intros [= <-].
    exists [c], []. rewrite app_nil_r. reflexivity.
  - destruct (c =? ch "*")%N; [|discriminate]. intros [= <-].
    exists [c], []. rewrite app_nil_r. reflexivity.
  - destruct (Chr.isdigit c); [|discriminate].
    destruct (lstrip_run Chr.isdigit (c :: s')) as (ws & E & _).
    destruct (Str.lstrip_with Chr.isdigit (c :: s')) as [|d rest'];
      [discriminate|].
    destruct (d =? ch ".")%N; [|discriminate]. intros [= <-].
    exists (ws ++ [d])%list, []. rewrite app_nil_r, <- app_assoc. exact E.
Qed.

Lemma bullet_text_occurs line b :
  bullet_text line = Some b -> Str.strip b = b /\ occurs_in b line.
Proof.
  unfold bullet_text. intros H. apply first_bullet_some in H.
  destruct H as (m & _ & H). unfold bullet_as in H.
  destruct (after_marker m _) as [rest|] eqn:Ea; [|discriminate].
  apply body_of_some in H. subst b. split; [apply strip_idem|].
  eapply occurs_in_trans; [apply strip_occurs|].
  eapply occurs_in_trans; [exact (after_marker_occurs _ _ _ Ea)|].
  destruct (lstrip_run Chr.isspace line) as (ws & E & _).
  exists ws, []. rewrite app_nil_r. exact E.
Qed.

Lemma line_occurs sep ls l : In l ls -> occurs_in l (Str.join sep ls).
Proof.
  induction ls as [|p ps IH]; [intros []|]. intros [->|Hin].
  - destruct ps; [apply occurs_in_refl|].
    cbn [Str.join]. apply occurs_in_app_l, occurs_in_refl.
  - destruct ps as [|q ps]; [destruct Hin|].
    change (Str.join sep (p :: q :: ps))
      with (p ++ sep :: Str.join sep (q :: ps))%list.
    apply occurs_in_app_r. apply (occurs_in_app_r _ [sep]). exact (IH Hin).
Qed.

Lemma occurs_in_no_char c a b : occurs_in a b -> ~ In c b -> ~ In c a.
Proof.
  intros (pre & suf & ->) H Hin. apply H.
  apply in_or_app. right. apply in_or_app. left. exact Hin.
Qed.

Lemma extract_bullet_points_lines t :
  _extract_bullet_points t
  = flat_map (fun line => option_list (bullet_text line)) (Seg.lines t).
Proof.
  unfold _extract_bullet_points, Seg.lines.
  apply flat_map_line_bullets. intros l Hl. exact (split_one_line t l Hl).
Qed.

Lemma blank_marker_line lead c ws :
  forallb Chr.isspace lead = true ->
  is_glyph c || (c =? ch "*")%N = true ->
  forallb Chr.isspace ws = true -> (2 <= length ws)%nat ->
  bullet_text (lead ++ c :: ws) = Some [].
Proof.
  intros Hlead Hc Hws Hlen.
  assert (Hns : Chr.isspace c = false).
  { apply orb_true_iff in Hc. destruct Hc as [Hc|Hc].
    - unfold is_glyph in Hc. apply existsb_exists in Hc.
      destruct Hc as (x & Hin & Hx). apply N.eqb_eq in Hx. subst x.
      repeat (destruct Hin as [<-|Hin]; [reflexivity|]). destruct Hin.
    - apply N.eqb_eq in Hc. subst c. reflexivity. }
  assert (Hbody : body_of ws = Some []).
  { destruct ws as [|w [|x ws']]; [simpl in Hlen; lia .. |].
    unfold body_of. rewrite (strip_blanks _ Hws).
    cbn [forallb] in Hws. apply andb_true_iff in Hws. destruct Hws as [-> _].
    reflexivity. }
  unfold bullet_text, marker_kinds. cbn [first_bullet]. unfold bullet_as.
  rewrite (lstrip_app _ _ _ Hlead), lstrip_cons, Hns.
  cbn [after_marker]. destruct (is_glyph c) eqn:Hg.
  - rewrite Hbody. reflexivity.
  - cbn [orb] in Hc. rewrite Hc, Hbody. reflexivity.
Qed.
End BulletShape.

(** X17.  Every bullet is a piece of one line of the text, free of
    surrounding blanks and of newlines.  A bullet can be empty: a line made
    of a bullet symbol or an asterisk followed by two or more blanks and
    nothing else yields the empty bullet. *)
Theorem bullets_are_stripped_pieces :
  (forall t b,
     In b (ResumeParserTool._extract_bullet_points t) ->
     Str.strip b = b
     /\ ~ In Chr.newline b
     /\ Score.occurs_in b t
     /\ exists line, In line (Seg.lines t) /\ Score.occurs_in b line)
  /\ (forall lead c ws,
        forallb Chr.isspace lead = true -> ~ In Chr.newline lead ->
        Bullets.is_glyph c || (c =? ch "*")%N = true ->
        forallb Chr.isspace ws = true -> ~ In Chr.newline ws ->
        (2 <= length ws)%nat ->
        ResumeParserTool._extract_bullet_points (lead ++ c :: ws) = [[]]).
Proof.
  split.
  - intros t b. rewrite extract_bullet_points_lines.
    intros H. apply in_flat_map in H. destruct H as (line & Hline & Hb).
    destruct (Bullets.bullet_text line) as [b'|] eqn:E; [|destruct Hb].
    destruct Hb as [<-|[]].
    destruct (bullet_text_occurs _ _ E) as [Hs Ho].
    assert (Hnl : ~ In Chr.newline b').
    { apply (occurs_in_no_char _ _ _ Ho). exact (split_no_sep _ _ _ Hline). }
    assert (Ht : Score.occurs_in line t).
    { rewrite <- (join_split Chr.newline t). apply line_occurs, Hline. }
    split; [exact Hs|]. split; [exact Hnl|].
    split; [exact (occurs_in_trans _ _ _ Ho Ht)|].
    exists line. split; assumption.
  - intros lead c ws Hlead Hnl1 Hc Hws Hnl2 Hlen.
    rewrite extract_bullet_points_lines. unfold Seg.lines.
    rewrite split_one.
    + cbn [flat_map]. rewrite (blank_marker_line _ _ _ Hlead Hc Hws Hlen).
      reflexivity.
    + intros Hin. apply in_app_or in Hin.
      destruct Hin as [Hin|[Heq|Hin]]; [exact (Hnl1 Hin) | | exact (Hnl2 Hin)].
      subst c. vm_compute in Hc. discriminate.
Qed.

Lemma bullets_are_stripped_pieces_witness :
  ResumeParserTool._extract_bullet_points (txt "  *   ") = [[]].
Proof.
  destruct bullets_are_stripped_pieces as [_ H].
  apply (H (txt "  ") (ch "*") (txt "   ")).
  - vm_compute. reflexivity.
  - vm_compute. intros [H1|[H1|[]]]; discriminate.
  - vm_compute. reflexivity.
  - vm_compute. reflexivity.
  - vm_compute. intros [H1|[H1|[H1|[]]]]; discriminate.
  - vm_compute. lia.
Defined.

(** ** The tailoring prompt *)

Section PromptFacts.
Import Score StrMore Tailor.

Lemma or_default_nil (s : text) : or_default (Some s) [] = s.
Proof. destruct s; reflexivity. Qed.

Lemma truthy_take n (s : text) :
  Str.truthy (take (S n) s) = Str.truthy s.
Proof. destruct s; reflexivity. Qed.

Lemma in_if_app {A} (b : bool) (x : A) l l' :
  In x l -> In x (if b then (l ++ l')%list else l).
Proof. intros H. destruct b; [apply in_or_app; left|]; exact H. Qed.

Ltac find_in :=
  match goal with
  | |- In _ (if _ then _ else _) => apply in_if_app; find_in
  | |- In _ (_ ++ _)%list =>
      apply in_or_app; first [left; find_in | right; find_in]
  | |- In ?x (?x :: _) => left; reflexivity
  | |- In _ (_ :: _) => right; find_in
  end.

(** Whatever the optional parts, the prompt is the join of a list of
    parts among which are the resume and the two skill lines. *)
Lemma prompt_parts original ja jd :
  exists parts,
    _build_tailoring_prompt original ja jd = Str.join Chr.newline parts
    /\ In original parts
    /\ In ([Chr.newline] ++ txt "**Required Hard Skills**: "
             ++ join_str comma (hard_skills ja))%list parts
    /\ In ([Chr.newline] ++ txt "**Required Soft Skills**: "
             ++ join_str comma (soft_skills ja))%list parts.
Proof.
  unfold _build_tailoring_prompt. cbv zeta.
  eexists. split; [reflexivity|]. split; [|split]; find_in.
Qed.
End PromptFacts.

(** X18.  The prompt built for the model holds the original resume
    verbatim and every required hard and soft skill; of the job
    description it uses the first 2000 characters only, and an empty
    description is the same as none.  With a model client and a Basic
    Latin resume that passes the length check, [tailor_resume] hands the
    client the system prompt and this prompt, returns its answer and lets
    its exception through. *)
Theorem tailoring_prompt_contents {E} (SYSTEM_PROMPT : text)
    (original : text) (ja : JobAnalysis) :
  (forall jd,
     Score.occurs_in original (Tailor._build_tailoring_prompt original ja jd)
     /\ forall skill, In skill (hard_skills ja ++ soft_skills ja) ->
          Score.occurs_in skill (Tailor._build_tailoring_prompt original ja jd))
  /\ (forall jd,
        Tailor._build_tailoring_prompt original ja (Some jd)
        = Tailor._build_tailoring_prompt original ja (Some (take 2000 jd)))
  /\ Tailor._build_tailoring_prompt original ja (Some [])
     = Tailor._build_tailoring_prompt original ja None
  /\ (forall (generate : text -> text -> E + text) jd,
        Latin.text_ok original = true ->
        (100 <= length (Str.strip original))%nat ->
        Tailor.tailor_resume SYSTEM_PROMPT (Some generate) original ja jd
        = match generate SYSTEM_PROMPT
                  (Tailor._build_tailoring_prompt original ja jd) with
          | inr tailored => Tailor.Returned tailored
          | inl e => Tailor.ClientRaised e
          end).
Proof.
  split; [|split; [|split]].
  - intros jd.
    destruct (prompt_parts original ja jd) as (parts & -> & Ho & Hh & Hs).
    split; [apply line_occurs, Ho|].
    intros skill Hin. apply in_app_or in Hin. destruct Hin as [Hin|Hin].
    + eapply occurs_in_trans; [|apply line_occurs, Hh].
      apply occurs_in_app_r, occurs_in_app_r, occurs_in_join_str, Hin.
    + eapply occurs_in_trans; [|apply line_occurs, Hs].
      apply occurs_in_app_r, occurs_in_app_r, occurs_in_join_str, Hin.
  - intros jd. unfold Tailor._build_tailoring_prompt. cbv zeta.
    cbn [name_truthy]. rewrite truthy_take, !or_default_nil, take_take.
    reflexivity.
  - unfold Tailor._build_tailoring_prompt. cbv zeta.
    cbn [name_truthy Str.truthy]. reflexivity.
  - intros generate jd _ Hlen. unfold Tailor.tailor_resume.
    destruct (Nat.ltb_spec (length (Str.strip original)) 100) as [Hlt|_];
      [lia | reflexivity].
Qed.

Lemma tailoring_prompt_contents_witness :
  Score.occurs_in (txt "SQL")
    (Tailor._build_tailoring_prompt (txt "Ten years of plumbing.")
       (Score.job ["Python"]%string ["SQL"]%string []%string) None).
Proof.
  destruct (tailoring_prompt_contents (E:=unit) [] (txt "Ten years of plumbing.")
              (Score.job ["Python"]%string ["SQL"]%string []%string))
    as (H & _).
  destruct (H None) as [_ Hs]. apply Hs.
  vm_compute. right; left; reflexivity.
Defined.

(** ** Matches before and after tailoring *)

Section MatchesSurvive.
Import Score Tailor.

Lemma filter_sublist_mono {A} (f g : A -> bool) l :
  (forall x, f x = true -> g x = true) ->
  sublist (List.filter f l) (List.filter g l).
Proof.
  intros H. induction l as [|x l IH]; cbn [List.filter]; [constructor|].
  destruct (f x) eqn:Hf.
  - rewrite (H _ Hf). apply sublist_skip, IH.
  - destruct (g x); [apply sublist_cons|]; exact IH.
Qed.

Lemma matched_in_bigger resume bigger items :
  occurs_in resume bigger ->
  sublist (identify_matched_keywords resume items)
          (identify_matched_keywords bigger items).
Proof.
  intros Ho. unfold identify_matched_keywords. apply filter_sublist_mono.
  intros k Hk. apply contains_spec. apply contains_spec in Hk.
  exact (occurs_in_trans _ _ _ Hk (occurs_in_lower _ _ Ho)).
Qed.

Lemma matched_count_bigger resume bigger items :
  occurs_in resume bigger ->
  (matched_count (Str.lower resume) items
   <= matched_count (Str.lower bigger) items)%nat.
Proof.
  intros Ho. rewrite <- !filter_length_count.
  apply sublist_length, (matched_in_bigger _ _ _ Ho).
Qed.
End MatchesSurvive.

(** X19.  With Basic Latin text throughout, text added around a resume
    never loses a match: the keywords matched in the resume are matched,
    in the same order, in any text that contains it, and the count the
    score is computed from does not go down.  The mock tailoring is such a
    text, and it matches in addition each of the first five hard skills
    that is on the keyword list. *)
Theorem matches_survive_tailoring (original : text) (ja : JobAnalysis)
    (items : list text)
    (Horiginal : Latin.text_ok original = true)
    (Hjob : Latin.job_ok ja = true)
    (Hitems : Latin.texts_ok items = true) :
  (forall bigger, Latin.text_ok bigger = true ->
     Score.occurs_in original bigger ->
     sublist (Tailor.identify_matched_keywords original items)
             (Tailor.identify_matched_keywords bigger items)
     /\ (matched_count (Str.lower original) items
         <= matched_count (Str.lower bigger) items)%nat)
  /\ sublist (Tailor.identify_matched_keywords original items)
       (Tailor.identify_matched_keywords
          (Tailor._mock_tailoring original ja) items)
  /\ (matched_count (Str.lower original) items
      <= matched_count (Str.lower (Tailor._mock_tailoring original ja)) items)%nat
  /\ (forall skill, In skill (take 5 (hard_skills ja)) -> In skill items ->
        In skill (Tailor.identify_matched_keywords
                    (Tailor._mock_tailoring original ja) items)).
Proof.
  split; [|split; [|split]].
  - intros bigger _ Ho.
    split; [apply matched_in_bigger | apply matched_count_bigger]; exact Ho.
  - apply matched_in_bigger, mock_has_original.
  - apply matched_count_bigger, mock_has_original.
  - intros skill H5 Hin. unfold Tailor.identify_matched_keywords.
    apply filter_In. split; [exact Hin|].
    apply contains_spec, occurs_in_lower, mock_has_skills, H5.
Qed.

Lemma matches_survive_tailoring_witness :
  sublist
    (Tailor.identify_matched_keywords (txt "SQL and Go") [txt "sql"; txt "Rust"])
    (Tailor.identify_matched_keywords (txt "Skills: SQL and Go, Rust")
       [txt "sql"; txt "Rust"]).
Proof.
  destruct (matches_survive_tailoring (txt "SQL and Go")
              (Score.job []%string []%string []%string)
              [txt "sql"; txt "Rust"]) as (H & _);
    [vm_compute; reflexivity .. |].
  apply (H (txt "Skills: SQL and Go, Rust")).
  - vm_compute. reflexivity.
  - exists (txt "Skills: "), (txt ", Rust"). vm_compute. reflexivity.
Defined.

(** ** Known titles, case ignored *)

Section LetterCase.

Lemma lower_eq_cases c c' :
  Chr.lower c = Chr.lower c' ->
  c = c'
  \/ (Chr.isupper c = true /\ c' = c + 32)
  \/ (Chr.isupper c' = true /\ c = c' + 32).
Proof.
  unfold Chr.lower. destruct (Chr.isupper c) eqn:Hc, (Chr.isupper c') eqn:Hc';
    intros H.
  - left. lia.
  - right. left. split; [reflexivity | congruence].
  - right. right. split; [reflexivity | congruence].
  - left. exact H.
Qed.

Lemma isupper_range c : Chr.isupper c = true -> 65 <= c <= 90.
Proof.
  unfold Chr.isupper. rewrite andb_true_iff, !N.leb_le. tauto.
Qed.

Lemma shift_not_blank c :
  65 <= c <= 90 -> Chr.isspace c = false /\ Chr.isspace (c + 32) = false.
Proof.
  intros H. unfold Chr.isspace.
  assert (E1 : (c <=? 13) = false) by (apply N.leb_gt; lia).
  assert (E2 : (c <=? 32) = false) by (apply N.leb_gt; lia).
  assert (E3 : (c + 32 <=? 13) = false) by (apply N.leb_gt; lia).
  assert (E4 : (c + 32 <=? 32) = false) by (apply N.leb_gt; lia).
  rewrite E1, E2, E3, E4, !andb_false_r. split; reflexivity.
Qed.

Lemma shift_not_digit c :
  65 <= c <= 90 -> Chr.isdigit c = false /\ Chr.isdigit (c + 32) = false.
Proof.
  intros H. unfold Chr.isdigit.
  assert (E1 : (c <=? 57) = false) by (apply N.leb_gt; lia).
  assert (E2 : (c + 32 <=? 57) = false) by (apply N.leb_gt; lia).
  rewrite E1, E2, !andb_false_r. split; reflexivity.
Qed.

Lemma shift_cased c :
  65 <= c <= 90 -> Chr.iscased c = true /\ Chr.iscased (c + 32) = true.
Proof.
  intros H. unfold Chr.iscased, Chr.isupper, Chr.islower.
  assert (E1 : (65 <=? c) = true) by (apply N.leb_le; lia).
  assert (E2 : (c <=? 90) = true) by (apply N.leb_le; lia).
  assert (E3 : (97 <=? c + 32) = true) by (apply N.leb_le; lia).
  assert (E4 : (c + 32 <=? 122) = true) by (apply N.leb_le; lia).
  rewrite E1, E2, E3, E4. cbn [andb orb]. rewrite orb_true_r.
  split; reflexivity.
Qed.

Lemma shift_not_newline c :
  65 <= c <= 90 ->
  (c =? Chr.newline) = false /\ (c + 32 =? Chr.newline) = false.
Proof.
  intros H. unfold Chr.newline. split; apply N.eqb_neq; lia.
Qed.

(** A test that gives the same answer on a capital and on its small
    letter gives the same answer on characters equal up to case. *)
Lemma blind_test (f : char -> bool) c c' :
  (forall x, 65 <= x <= 90 -> f (x + 32) = f x) ->
  Chr.lower c = Chr.lower c' -> f c = f c'.
Proof.
  intros Hf H. destruct (lower_eq_cases _ _ H) as [->|[[Hu ->]|[Hu ->]]].
  - reflexivity.
  - symmetry. apply Hf, isupper_range, Hu.
  - apply Hf, isupper_range, Hu.
Qed.

Lemma upper_lower c : Chr.upper (Chr.lower c) = Chr.upper c.
Proof.
  unfold Chr.lower. destruct (Chr.isupper c) eqn:Hu; [|reflexivity].
  apply isupper_range in Hu. unfold Chr.upper, Chr.islower.
  assert (E1 : (97 <=? c + 32) = true) by (apply N.leb_le; lia).
  assert (E2 : (c + 32 <=? 122) = true) by (apply N.leb_le; lia).
  assert (E3 : (97 <=? c) = false) by (apply N.leb_gt; lia).
  rewrite E1, E2, E3. cbn [andb]. lia.
Qed.

Lemma isspace_blind c c' :
  Chr.lower c = Chr.lower c' -> Chr.isspace c = Chr.isspace c'.
Proof.
  apply blind_test. intros x Hx.
  destruct (shift_not_blank x Hx) as [-> ->]. reflexivity.
Qed.

Lemma colon_blind c c' :
  Chr.lower c = Chr.lower c' -> (Chr.colon =? c) = (Chr.colon =? c').
Proof.
  apply (blind_test (fun x => Chr.colon =? x)). intros x Hx.
  unfold Chr.colon.
  assert (E1 : (58 =? x + 32) = false) by (apply N.eqb_neq; lia).
  assert (E2 : (58 =? x) = false) by (apply N.eqb_neq; lia).
  rewrite E1, E2. reflexivity.
Qed.
End LetterCase.

Section StripCase.
Variable p : char -> bool.
Hypothesis p_blind : forall c c', Chr.lower c = Chr.lower c' -> p c = p c'.

Lemma lstrip_blind s : forall s',
  Str.lower s = Str.lower s' ->
  Str.lower (Str.lstrip_with p s) = Str.lower (Str.lstrip_with p s').
Proof.
  induction s as [|c s IH]; intros [|c' s'] H; try discriminate;
    [reflexivity|].
  injection H as Hc Hs. cbn [Str.lstrip_with].
  rewrite (p_blind _ _ Hc). destruct (p c'); [exact (IH _ Hs)|].
  cbn [Str.lower List.map]. unfold Str.lower in Hs. rewrite Hc, Hs.
  reflexivity.
Qed.

Lemma rstrip_blind s : forall s',
  Str.lower s = Str.lower s' ->
  Str.lower (Str.rstrip_with p s) = Str.lower (Str.rstrip_with p s').
Proof.
  induction s as [|c s IH]; intros [|c' s'] H; try discriminate;
    [reflexivity|].
  injection H as Hc Hs. cbn [Str.rstrip_with].
  specialize (IH _ Hs). rewrite (p_blind _ _ Hc).
  destruct (Str.rstrip_with p s) as [|x r], (Str.rstrip_with p s') as [|x' r'];
    try discriminate.
  - destruct (p c'); [reflexivity|]. cbn [Str.lower List.map]. rewrite Hc.
    reflexivity.
  - cbn [Str.lower List.map] in *. rewrite Hc. f_equal. exact IH.
Qed.
End StripCase.

Section MatcherCase.
Import Re ReSpec ResumeParserTool CaseSpec.

Lemma lower_cons_inv c s c' s' :
  Str.lower (c :: s) = Str.lower (c' :: s') ->
  Chr.lower c = Chr.lower c' /\ Str.lower s = Str.lower s'.
Proof. intros H. injection H as Hc Hs. split; assumption. Qed.

Lemma same_letters_length s s' :
  same_letters s s' -> length s = length s'.
Proof.
  unfold same_letters, Str.lower. intros H.
  apply (f_equal (@length _)) in H. rewrite !length_map in H. exact H.
Qed.

Lemma atom_blind a c c' :
  plain_atom a = true -> Chr.lower c = Chr.lower c' ->
  atom_ok true a c = atom_ok true a c'.
Proof.
  intros Ha H. destruct a; try discriminate; cbn [atom_ok].
  - rewrite H. reflexivity.
  - f_equal. revert H. apply (blind_test (fun x => x =? Chr.newline)).
    intros x Hx. destruct (shift_not_newline x Hx) as [-> ->]. reflexivity.
  - apply isspace_blind, H.
  - revert H. apply blind_test. intros x Hx.
    destruct (shift_not_digit x Hx) as [-> ->]. reflexivity.
  - revert H. apply blind_test. intros x Hx. unfold Chr.isword.
    destruct (shift_cased x Hx) as [-> ->]. reflexivity.
Qed.

Lemma isword_opt_blind p p' :
  same_before p p' -> isword_opt p = isword_opt p'.
Proof.
  unfold same_before. destruct p as [c|], p' as [c'|]; try discriminate;
    [|reflexivity].
  intros [= H]. cbn [isword_opt]. revert H. apply blind_test.
  intros x Hx. unfold Chr.isword.
  destruct (shift_cased x Hx) as [-> ->]. reflexivity.
Qed.

Lemma is_some_or {A} (x y : option A) :
  is_some (match x with Some r => Some r | None => y end)
  = is_some x || is_some y.
Proof. destruct x; reflexivity. Qed.

Lemma rep_match_blind a : plain_atom a = true ->
  forall s s' lo hi prev prev' g g' k k',
  same_letters s s' -> same_before prev prev' ->
  (forall st st', same_position st st' -> is_some (k st) = is_some (k' st')) ->
  is_some (rep_match true a lo hi prev s g k)
  = is_some (rep_match true a lo hi prev' s' g' k').
Proof.
  intros Ha. induction s as [|c s IH];
    intros [|c' s'] lo hi prev prev' g g' k k' Hs Hp Hk; try discriminate.
  - cbn [rep_match]. destruct lo; [|reflexivity].
    apply Hk. split; assumption.
  - apply lower_cons_inv in Hs. destruct Hs as [Hc Hs].
    assert (Hstop :
      is_some (match lo with O => k (MState prev (c :: s) g) | S _ => None end)
      = is_some (match lo with
                 | O => k' (MState prev' (c' :: s') g')
                 | S _ => None
                 end)).
    { destruct lo; [|reflexivity]. apply Hk. split; [exact Hp|].
      unfold same_letters. cbn [rest Str.lower List.map].
      unfold Str.lower in Hs. rewrite Hc, Hs. reflexivity. }
    cbn [rep_match]. rewrite (atom_blind a c c' Ha Hc).
    destruct (atom_ok true a c' && hi_open hi); [|exact Hstop].
    rewrite !is_some_or, Hstop. f_equal.
    apply IH; [exact Hs | | exact Hk].
    unfold same_before. cbn [option_map]. rewrite Hc. reflexivity.
Qed.

(** With IGNORECASE, whether a pattern without bracket expression
    matches does not depend on the case of the letters read. *)
Lemma rmatch_blind r : plain r = true ->
  forall st st' k k',
  same_position st st' ->
  (forall s s', same_position s s' -> is_some (k s) = is_some (k' s')) ->
  is_some (rmatch true r st k) = is_some (rmatch true r st' k').
Proof.
  induction r as [|a|r1 IH1 r2 IH2|r1 IH1 r2 IH2|r1 IH1|a lo hi|r1 IH1| | |];
    intros Hr [p s g] [p' s' g'] k k' [Hp Hs] Hk;
    cbn [plain] in Hr; cbn [before rest] in Hp, Hs; cbn [rmatch before rest group1].
  - apply Hk. split; assumption.
  - destruct s as [|c s], s' as [|c' s']; try discriminate; [reflexivity|].
    apply lower_cons_inv in Hs. destruct Hs as [Hc Hs].
    rewrite (atom_blind a c c' Hr Hc). destruct (atom_ok true a c'); [|reflexivity].
    apply Hk. split; [|exact Hs].
    unfold same_before. cbn [before option_map]. rewrite Hc. reflexivity.
  - apply andb_true_iff in Hr. destruct Hr as [H1 H2].
    apply (IH1 H1); [split; assumption|].
    intros x x' Hx. apply (IH2 H2); assumption.
  - apply andb_true_iff in Hr. destruct Hr as [H1 H2].
    rewrite !is_some_or. f_equal.
    + apply (IH1 H1); [split; assumption | exact Hk].
    + apply (IH2 H2); [split; assumption | exact Hk].
  - rewrite !is_some_or. f_equal.
    + apply (IH1 Hr); [split; assumption | exact Hk].
    + apply Hk. split; assumption.
  - apply rep_match_blind; assumption.
  - apply (IH1 Hr); [split; assumption|].
    intros x x' [Hxp Hxs]. apply Hk. split; assumption.
  - destruct p as [c|], p' as [c'|]; try discriminate; [reflexivity|].
    apply Hk. split; [reflexivity | exact Hs].
  - destruct s as [|c [|d s]], s' as [|c' [|d' s']]; try discriminate;
      try reflexivity.
    + apply Hk. split; assumption.
    + apply lower_cons_inv in Hs. destruct Hs as [Hc _].
      assert (E : (c =? Chr.newline) = (c' =? Chr.newline)).
      { revert Hc. apply (blind_test (fun x => x =? Chr.newline)).
        intros x Hx. destruct (shift_not_newline x Hx) as [-> ->].
        reflexivity. }
      rewrite E. destruct (c' =? Chr.newline); [|reflexivity].
      apply Hk. split; [exact Hp|].
      unfold same_letters. cbn [rest Str.lower List.map]. rewrite Hc.
      reflexivity.
  - assert (E : isword_opt (head s) = isword_opt (head s')).
    { apply isword_opt_blind. unfold same_before.
      destruct s as [|c s], s' as [|c' s']; try discriminate; [reflexivity|].
      apply lower_cons_inv in Hs. destruct Hs as [Hc _].
      cbn [head option_map]. rewrite Hc. reflexivity. }
    rewrite E, (isword_opt_blind _ _ Hp). destruct (xorb _ _); [|reflexivity].
    apply Hk. split; assumption.
Qed.

Lemma match_blind r s s' :
  plain r = true -> same_letters s s' ->
  is_some (match_ true r s) = is_some (match_ true r s').
Proof.
  intros Hr Hs. unfold match_, match_at.
  assert (H := rmatch_blind r Hr (MState None s None) (MState None s' None)
                 Some Some).
  cbv beta in H.
  destruct (rmatch true r (MState None s None) Some),
    (rmatch true r (MState None s' None) Some); cbn [is_some] in *;
    try reflexivity; apply H; try (split; [reflexivity | exact Hs]);
    reflexivity.
Qed.

Lemma known_header_blind s s' :
  same_letters s s' -> known_header s = known_header s'.
Proof.
  intros Hs. unfold known_header.
  assert (Hall : forallb plain SECTION_PATTERNS = true)
    by (vm_compute; reflexivity).
  induction SECTION_PATTERNS as [|r rs IH]; [reflexivity|].
  cbn [forallb] in Hall. apply andb_true_iff in Hall. destruct Hall as [Hr Hrs].
  cbn [existsb]. rewrite (match_blind r s s' Hr Hs), (IH Hrs). reflexivity.
Qed.

Lemma upper_blind s s' : same_letters s s' -> Str.upper s = Str.upper s'.
Proof.
  unfold same_letters. intros H.
  assert (E : forall x, Str.upper x = Str.upper (Str.lower x)).
  { intros x. unfold Str.upper, Str.lower. rewrite List.map_map.
    apply List.map_ext. intros c. symmetry. apply upper_lower. }
  rewrite (E s), (E s'), H. reflexivity.
Qed.

Lemma normalize_blind s s' :
  same_letters s s' ->
  _normalize_section_name s = _normalize_section_name s'.
Proof.
  intros Hs. unfold _normalize_section_name.
  assert (E : Str.upper (Str.rstrip_colon (Str.strip s))
              = Str.upper (Str.rstrip_colon (Str.strip s'))).
  { apply upper_blind. unfold same_letters, Str.rstrip_colon, Str.strip.
    apply (rstrip_blind _ colon_blind).
    apply (rstrip_blind _ isspace_blind).
    apply (lstrip_blind _ isspace_blind). exact Hs. }
  rewrite E. reflexivity.
Qed.
End MatcherCase.

(** X20.  Known section titles are recognised whatever the case of their
    letters: two lines that differ in the case of letters only are both
    known or both unknown and get the same normalised name, and a known
    line keeps the answer of [_is_section_header] when its case changes. *)
Theorem known_titles_ignore_case (line line' : text) :
  Str.lower line = Str.lower line' ->
  ResumeParserTool.known_header line = ResumeParserTool.known_header line'
  /\ ResumeParserTool._normalize_section_name line
     = ResumeParserTool._normalize_section_name line'
  /\ (ResumeParserTool.known_header line = true ->
      ResumeParserTool._is_section_header line'
      = ResumeParserTool._is_section_header line
      /\ ResumeParserTool._is_section_header line
         = (true, Some (ResumeParserTool._normalize_section_name line))).
Proof.
  intros H.
  assert (Hk := known_header_blind line line' H).
  assert (Hn := normalize_blind line line' H).
  split; [exact Hk|]. split; [exact Hn|].
  intros Hline. unfold ResumeParserTool._is_section_header.
  rewrite <- Hk, Hline, Hn. split; reflexivity.
Qed.

Lemma known_titles_ignore_case_witness :
  ResumeParserTool._is_section_header (txt "Technical  skills:")
  = ResumeParserTool._is_section_header (txt "TECHNICAL  SKILLS:").
Proof.
  destruct (known_titles_ignore_case (txt "TECHNICAL  SKILLS:")
              (txt "Technical  skills:")) as (_ & _ & H).
  - vm_compute. reflexivity.
  - apply H. vm_compute. reflexivity.
Defined.
